(** * RelaDB: a shallow embedding of [relaDB/__init__.py]

    The development follows the Python module top to bottom: the value
    codec ([serialize] / [deserialize]), [Field], [Row], [Table] and
    [Database] with its SQLite bridge ([save] / [load]).

    Python objects are modelled by the inductive type [pyval]; Python
    exceptions by the type [exn] and the error monad [result].  The two
    standard-library collaborators the module calls, [json] and
    [sqlite3], are modelled next to it: [json.dumps] and [json.loads]
    as an executable printer and parser over Python text, the SQLite
    file as a list of tables with declared column kinds.

    Two limits of the interpreter show in what the module does and
    are part of the model, at their default values: the limit on the
    digits of an integer that is converted to or from text, and the
    recursion limit, which the JSON encoder and decoder reach on
    deeply nested values.  Memory is not modelled, and Python values
    are finite trees: a list or dictionary that contains itself (for
    which [json.dumps] raises [ValueError]) is not a value of the
    model. *)

From Stdlib Require Import String Ascii.
From Stdlib Require Import Strings.Byte.
From Stdlib Require Import List ZArith NArith PArith Lia Bool.
From Stdlib Require Import PrimFloat SpecFloat FloatOps FloatAxioms.
Import ListNotations.

Set Implicit Arguments.
Set Warnings "-register-all".
Local Open Scope Z_scope.

(* ------------------------------------------------------------------ *)
(** ** Python text *)

(** A Python [str] is a sequence of code points.  A code point is kept
    as a number, so that the text a hexadecimal escape stands for is
    representable whatever the code point. *)
Abbreviation codepoint := N (only parsing).
Abbreviation pystr := (list N) (only parsing).

(** [py "abc"] is the Python literal ['abc'] (for ASCII literals). *)
Definition py (s : string) : pystr :=
  map N_of_ascii (list_ascii_of_string s).

Fixpoint pystr_eqb (a b : pystr) : bool :=
  match a, b with
  | [], [] => true
  | x :: a', y :: b' => N.eqb x y && pystr_eqb a' b'
  | _, _ => false
  end.

(** A code point is a Unicode scalar value when it is in range and is
    not a surrogate; text made of scalar values is what UTF-8 can
    carry. *)
Definition is_high_surrogate (c : codepoint) : bool :=
  (N.leb 55296 c && N.leb c 56319)%N.
Definition is_low_surrogate (c : codepoint) : bool :=
  (N.leb 56320 c && N.leb c 57343)%N.
Definition is_scalar_value (c : codepoint) : bool :=
  (N.ltb c 1114112 && negb (N.leb 55296 c && N.leb c 57343))%N.
Definition valid_text (s : pystr) : Prop :=
  Forall (fun c => is_scalar_value c = true) s.

(* ------------------------------------------------------------------ *)
(** ** Exceptions and the error monad *)

(** The three [ValueError]s of [Table.add_row], the one of
    [Database.create] and the one the interpreter raises for an
    integer with too many digits, told apart by their message. *)
Inductive value_error :=
| SchemaMismatch
| UnknownField (field_name : pystr)
| TypeMismatch (field_name : pystr)
| TableAlreadyExists (table_name : pystr)
| IntMaxStrDigits.

Inductive exn :=
| TypeError
| JSONDecodeError
| UnicodeDecodeError
| UnicodeEncodeError
| KeyError (key : pystr)
| ValueError (why : value_error)
| RecursionError
| OverflowError
| ProgrammingError
| OperationalError.

Inductive result (A : Type) :=
| Ret (a : A)
| Raise (e : exn).
Arguments Ret {A} a.
Arguments Raise {A} e.

Definition bind {A B} (m : result A) (k : A -> result B) : result B :=
  match m with
  | Ret a => k a
  | Raise e => Raise e
  end.

Declare Scope py_scope.
Delimit Scope py_scope with py_do.
Notation "x <- m ;; k" := (bind m (fun x => k))
  (at level 61, m at next level, right associativity) : py_scope.
Local Open Scope py_scope.

Section MapM.
Context {A B : Type} (f : A -> result B).

Fixpoint mapM (l : list A) : result (list B) :=
  match l with
  | [] => Ret []
  | x :: l' => y <- f x ;; ys <- mapM l' ;; Ret (y :: ys)
  end.
End MapM.

(* ------------------------------------------------------------------ *)
(** ** Python values and types *)

(** A [dict] keeps its items in insertion order, so it is a list of
    pairs; a well-formed one has pairwise distinct keys. *)
Inductive pyval :=
| PNone
| PBool (b : bool)
| PInt (z : Z)
| PFloat (f : float)
| PStr (s : pystr)
| PBytes (b : list byte)
| PList (l : list pyval)
| PTuple (l : list pyval)
| PDict (d : list (pyval * pyval)).

(** The types a [Field] is declared with.  [TListOrDict] is
    [Union[list, dict]], the type [load] gives to a JSON column. *)
Inductive pytype :=
| TInt | TFloat | TStr | TBool | TBytes
| TList | TDict | TTuple | TListOrDict.

Definition pytype_eqb (a b : pytype) : bool :=
  match a, b with
  | TInt, TInt | TFloat, TFloat | TStr, TStr | TBool, TBool
  | TBytes, TBytes | TList, TList | TDict, TDict | TTuple, TTuple
  | TListOrDict, TListOrDict => true
  | _, _ => false
  end.

(** [isinstance(v, t)]; [bool] is a subclass of [int]. *)
Definition isinstance (v : pyval) (t : pytype) : bool :=
  match t, v with
  | TInt, (PInt _ | PBool _) => true
  | TFloat, PFloat _ => true
  | TStr, PStr _ => true
  | TBool, PBool _ => true
  | TBytes, PBytes _ => true
  | TList, PList _ => true
  | TDict, PDict _ => true
  | TTuple, PTuple _ => true
  | TListOrDict, (PList _ | PDict _) => true
  | _, _ => false
  end.

(** Induction over values, through the lists nested in them. *)
Section PyvalInd.
Variable P : pyval -> Prop.
Hypothesis HNone : P PNone.
Hypothesis HBool : forall b, P (PBool b).
Hypothesis HInt : forall z, P (PInt z).
Hypothesis HFloat : forall f, P (PFloat f).
Hypothesis HStr : forall s, P (PStr s).
Hypothesis HBytes : forall b, P (PBytes b).
Hypothesis HList : forall l, Forall P l -> P (PList l).
Hypothesis HTuple : forall l, Forall P l -> P (PTuple l).
Hypothesis HDict :
  forall d, Forall (fun kv => P (fst kv) /\ P (snd kv)) d -> P (PDict d).

Fixpoint pyval_ind' (v : pyval) : P v :=
  match v with
  | PNone => HNone
  | PBool b => HBool b
  | PInt z => HInt z
  | PFloat f => HFloat f
  | PStr s => HStr s
  | PBytes b => HBytes b
  | PList l =>
      HList ((fix go (l : list pyval) : Forall P l :=
                match l with
                | [] => Forall_nil _
                | x :: l' => Forall_cons _ (pyval_ind' x) (go l')
                end) l)
  | PTuple l =>
      HTuple ((fix go (l : list pyval) : Forall P l :=
                 match l with
                 | [] => Forall_nil _
                 | x :: l' => Forall_cons _ (pyval_ind' x) (go l')
                 end) l)
  | PDict d =>
      HDict ((fix go (d : list (pyval * pyval))
                : Forall (fun kv => P (fst kv) /\ P (snd kv)) d :=
                match d with
                | [] => Forall_nil _
                | kv :: d' =>
                    Forall_cons _
                      (conj (pyval_ind' (fst kv)) (pyval_ind' (snd kv)))
                      (go d')
                end) d)
  end.
End PyvalInd.

(* ------------------------------------------------------------------ *)
(** ** Dictionaries with text keys

    [kwargs], [Row.fields] and [Database._tables] are dictionaries
    keyed by text.  Items stay in insertion order, which is the order
    every loop of the module visits them in. *)

Module PyDict.
Section Dict.
Context {V : Type}.

Definition t := list (pystr * V).

(** [d[k]], [None] standing for the [KeyError]. *)
Fixpoint get (d : t) (k : pystr) : option V :=
  match d with
  | [] => None
  | (k', v) :: d' => if pystr_eqb k' k then Some v else get d' k
  end.

(** [k in d]. *)
Definition contains (d : t) (k : pystr) : bool :=
  existsb (fun kv => pystr_eqb (fst kv) k) d.

(** [d[k] = v]: an existing key keeps its place and takes the new
    value, a new key goes last. *)
Fixpoint set (d : t) (k : pystr) (v : V) : t :=
  match d with
  | [] => [(k, v)]
  | (k', v') :: d' =>
      if pystr_eqb k' k then (k', v) :: d' else (k', v') :: set d' k v
  end.

(** [del d[k]], for a key that is present: the key is gone
    afterwards. *)
Definition del (d : t) (k : pystr) : t :=
  filter (fun kv => negb (pystr_eqb (fst kv) k)) d.

Definition keys (d : t) : list pystr := map fst d.
Definition values (d : t) : list V := map snd d.

(** The dictionary a sequence of assignments builds. *)
Definition of_items (items : list (pystr * V)) : t :=
  fold_left (fun d kv => set d (fst kv) (snd kv)) items [].
End Dict.
Arguments t V : clear implicits.
End PyDict.

(* ------------------------------------------------------------------ *)
(** ** Numbers as text *)

Local Open Scope N_scope.

(** Decimal digits of a natural number, most significant first. *)
Fixpoint digits_of_N_aux (fuel : nat) (n : N) (acc : list codepoint)
  : list codepoint :=
  match fuel with
  | O => acc
  | S fuel' =>
      let acc' := (48 + n mod 10) :: acc in
      if n / 10 =? 0 then acc' else digits_of_N_aux fuel' (n / 10) acc'
  end.

Definition digits_of_N (n : N) : list codepoint :=
  digits_of_N_aux (S (N.to_nat (N.log2 n))) n [].

Definition is_digit (c : codepoint) : bool := (48 <=? c) && (c <=? 57).

(** The number a run of decimal digits denotes. *)
Definition N_of_digits (ds : list codepoint) : N :=
  fold_left (fun acc c => 10 * acc + (c - 48)) ds 0.

(** [int.__repr__], which [json.dumps] uses for integers. *)
Definition int_repr (z : Z) : pystr :=
  match z with
  | Z0 => [48]
  | Zpos p => digits_of_N (Npos p)
  | Zneg p => 45 :: digits_of_N (Npos p)
  end.

(** The interpreter converts no integer of more than 4300 decimal
    digits to or from text ([sys.get_int_max_str_digits()], the sign
    not counted): [str(n)] and [int(text)] raise [ValueError]
    there. *)
Definition int_max_str_digits : nat := 4300.

Definition int_str (z : Z) : result pystr :=
  if (int_max_str_digits <? length (digits_of_N (Z.abs_N z)))%nat
  then Raise (ValueError IntMaxStrDigits)
  else Ret (int_repr z).

(** Four lower-case hexadecimal digits, as ['{0:04x}'.format(n)]. *)
Definition hex_digit (n : N) : codepoint :=
  if n <? 10 then 48 + n else 87 + n.

Definition hex4 (n : N) : list codepoint :=
  [hex_digit (N.shiftr n 12 mod 16); hex_digit (N.shiftr n 8 mod 16);
   hex_digit (N.shiftr n 4 mod 16); hex_digit (n mod 16)].

Definition hex_value (c : codepoint) : option N :=
  if (48 <=? c) && (c <=? 57) then Some (c - 48)
  else if (97 <=? c) && (c <=? 102) then Some (c - 87)
  else if (65 <=? c) && (c <=? 70) then Some (c - 55)
  else None.

Definition hex4_value (a b c d : codepoint) : option N :=
  match hex_value a, hex_value b, hex_value c, hex_value d with
  | Some x, Some y, Some z, Some w => Some (((x * 16 + y) * 16 + z) * 16 + w)
  | _, _, _, _ => None
  end.

Local Close Scope N_scope.

(* ------------------------------------------------------------------ *)
(** ** Floats as text

    A Python [float] is an IEEE binary64 number, here a primitive
    float; its text forms are computed on its [spec_float] image.
    [float_of_decimal] is [float(text)]: the decimal number rounded to
    the nearest binary64 number, ties to even.  [float_repr] is
    [float.__repr__]: the shortest decimal text that [float] reads
    back as the same number. *)

Module PyFloat.

(** The float nearest to [(-1)^neg * m * 10^e10]. *)
Definition sf_of_decimal (neg : bool) (m : N) (e10 : Z) : spec_float :=
  match m with
  | N0 => S754_zero neg
  | Npos p =>
      if 0 <=? e10
      then binary_round prec emax neg (p * Z.to_pos (10 ^ e10)) 0
      else
        let '(q, e, l) :=
          SFdiv_core_binary prec emax (Zpos p) 0 (10 ^ (- e10)) 0 in
        binary_round_aux prec emax neg q e l
  end.

Definition float_of_decimal (neg : bool) (m : N) (e10 : Z) : float :=
  SF2Prim (sf_of_decimal neg m e10).

Definition sf_same (a b : spec_float) : bool :=
  match a, b with
  | S754_zero s, S754_zero s' => Bool.eqb s s'
  | S754_infinity s, S754_infinity s' => Bool.eqb s s'
  | S754_nan, S754_nan => true
  | S754_finite s m e, S754_finite s' m' e' =>
      Bool.eqb s s' && Pos.eqb m m' && Z.eqb e e'
  | _, _ => false
  end.

(** [num / den], scaled by [10^(-k)], as a fraction. *)
Definition scale10 (num den k : Z) : Z * Z :=
  if 0 <=? k then (num, den * 10 ^ k) else (num * 10 ^ (- k), den).

(** [10^d <= num / den]. *)
Definition pow10_le (d num den : Z) : bool :=
  let '(n, m) := scale10 num den d in m <=? n.

Fixpoint exponent_up (fuel : nat) (d num den : Z) : Z :=
  match fuel with
  | O => d
  | S fuel' =>
      if pow10_le (d + 1) num den then exponent_up fuel' (d + 1) num den
      else d
  end.

Fixpoint exponent_down (fuel : nat) (d num den : Z) : Z :=
  match fuel with
  | O => d
  | S fuel' =>
      if pow10_le d num den then d else exponent_down fuel' (d - 1) num den
  end.

(** The [d] with [10^d <= num / den < 10^(d+1)], for a positive
    binary64 number. *)
Definition decimal_exponent (num den : Z) : Z :=
  let guess := ((Z.log2 num - Z.log2 den) * 30103) / 100000 in
  exponent_up 700 (exponent_down 700 guess num den) num den.

(** The decimal with at most [n] significant digits nearest to
    [num / den] that reads back as [target], if there is one: the
    pair [(c, k)] stands for [c * 10^k]. *)
Definition candidate (target : spec_float) (num den d : Z) (n : nat)
  : option (N * Z) :=
  let k := d - (Z.of_nat n - 1) in
  let '(a, b) := scale10 num den k in
  let lo := a / b in
  let hi := lo + 1 in
  let reads_back c := sf_same (sf_of_decimal false (Z.to_N c) k) target in
  let lo_first :=
    match 2 * (a mod b) ?= b with
    | Lt => true
    | Gt => false
    | Eq => Z.even lo
    end in
  let '(c1, c2) := if lo_first then (lo, hi) else (hi, lo) in
  if reads_back c1 then Some (Z.to_N c1, k)
  else if reads_back c2 then Some (Z.to_N c2, k)
  else None.

Fixpoint shortest (target : spec_float) (num den d : Z) (n fuel : nat)
  : N * Z :=
  match fuel with
  | O => (Z.to_N (fst (scale10 num den (d - 16)) /
                  snd (scale10 num den (d - 16))), d - 16)
  | S fuel' =>
      match candidate target num den d n with
      | Some r => r
      | None => shortest target num den d (S n) fuel'
      end
  end.

Fixpoint strip_zeros (rev_digits : list codepoint) (k : Z)
  : list codepoint * Z :=
  match rev_digits with
  | 48%N :: rest => strip_zeros rest (k + 1)
  | _ => (rev_digits, k)
  end.

(** The significant digits of a positive number and the position
    [decpt] of its decimal point: the number is [0.digits * 10^decpt]. *)
Definition shortest_digits (m : positive) (e : Z) : list codepoint * Z :=
  let '(num, den) :=
    if 0 <=? e then (Zpos m * 2 ^ e, 1) else (Zpos m, 2 ^ (- e)) in
  let d := decimal_exponent num den in
  let '(c, k) := shortest (S754_finite false m e) num den d 1 17 in
  let '(rds, k') := strip_zeros (rev (digits_of_N c)) k in
  (rev rds, Z.of_nat (length rds) + k').

Definition zeros (n : Z) : list codepoint := repeat 48%N (Z.to_nat n).

Definition exponent_text (e : Z) : list codepoint :=
  let ds := digits_of_N (Z.to_N (Z.abs e)) in
  (if e <? 0 then 45%N else 43%N)
    :: (if (length ds <? 2)%nat then 48%N :: ds else ds).

(** The layout of [repr]: positional between [1e-4] and [1e16],
    exponent form outside. *)
Definition format_repr (ds : list codepoint) (decpt : Z) : list codepoint :=
  let len := Z.of_nat (length ds) in
  if (-4 <? decpt) && (decpt <=? 16) then
    if decpt <=? 0 then [48%N; 46%N] ++ zeros (- decpt) ++ ds
    else if len <=? decpt then ds ++ zeros (decpt - len) ++ [46%N; 48%N]
    else firstn (Z.to_nat decpt) ds ++ 46%N :: skipn (Z.to_nat decpt) ds
  else
    match ds with
    | [] => []
    | [c] => c :: 101%N :: exponent_text (decpt - 1)
    | c :: rest => c :: 46%N :: rest ++ 101%N :: exponent_text (decpt - 1)
    end.

Definition sign_text (neg : bool) : list codepoint :=
  if neg then [45%N] else [].

Definition sf_repr (f : spec_float) : pystr :=
  match f with
  | S754_nan => py "nan"
  | S754_infinity s => sign_text s ++ py "inf"
  | S754_zero s => sign_text s ++ py "0.0"
  | S754_finite s m e =>
      let '(ds, decpt) := shortest_digits m e in
      sign_text s ++ format_repr ds decpt
  end.

Definition float_repr (f : float) : pystr := sf_repr (Prim2SF f).

End PyFloat.

(* ------------------------------------------------------------------ *)
(** ** [json.dumps]

    The encoder with its default settings: ASCII-only output
    ([ensure_ascii]), separators [", "] and [": "], [NaN] and
    [Infinity] allowed, dictionary keys coerced to text. *)

Module Json.

Local Open Scope N_scope.

(** The encoder and the decoder enter one level of the interpreter's
    recursion count for every list or dictionary they are inside of,
    and raise [RecursionError] when the count reaches the limit
    ([sys.getrecursionlimit()], 1000 by default).  The frames of the
    callers count too, so the depth that is left depends on where the
    call is made: the model leaves the callers 100 frames. *)
Definition recursion_limit : nat := 900.

(** One character of [encode_basestring_ascii]: the short escapes of
    [ESCAPE_DCT], printable ASCII as it is, every other code point as
    a hexadecimal escape, in two halves above the basic plane. *)
Definition escape_char (c : codepoint) : list codepoint :=
  if c =? 34 then [92; 34]
  else if c =? 92 then [92; 92]
  else if c =? 10 then [92; 110]
  else if c =? 13 then [92; 114]
  else if c =? 9 then [92; 116]
  else if c =? 8 then [92; 98]
  else if c =? 12 then [92; 102]
  else if (32 <=? c) && (c <=? 126) then [c]
  else if c <? 65536 then 92 :: 117 :: hex4 c
  else
    let n := c - 65536 in
    let s1 := N.lor 55296 (N.land (N.shiftr n 10) 1023) in
    let s2 := N.lor 56320 (N.land n 1023) in
    (92 :: 117 :: hex4 s1) ++ (92 :: 117 :: hex4 s2).

Definition encode_basestring_ascii (s : pystr) : pystr :=
  34 :: flat_map escape_char s ++ [34].

(** [floatstr]: the three special values by name, [repr] otherwise. *)
Definition floatstr (f : float) : pystr :=
  match Prim2SF f with
  | S754_nan => py "NaN"
  | S754_infinity false => py "Infinity"
  | S754_infinity true => py "-Infinity"
  | _ => PyFloat.float_repr f
  end.

(** A dictionary key as text; other key types are refused. *)
Definition key_text (k : pyval) : result pystr :=
  match k with
  | PStr s => Ret s
  | PFloat f => Ret (floatstr f)
  | PBool true => Ret (py "true")
  | PBool false => Ret (py "false")
  | PNone => Ret (py "null")
  | PInt z => int_str z
  | _ => Raise TypeError
  end.

Fixpoint join (items : list pystr) : pystr :=
  match items with
  | [] => []
  | [x] => x
  | x :: rest => x ++ 44 :: 32 :: join rest
  end.

Definition member_text (k x : pystr) : pystr :=
  encode_basestring_ascii k ++ 58 :: 32 :: x.

(** The encoder, with [room] levels of recursion left. *)
Fixpoint encode (room : nat) (v : pyval) {struct v} : result pystr :=
  match v with
  | PNone => Ret (py "null")
  | PBool true => Ret (py "true")
  | PBool false => Ret (py "false")
  | PInt z => int_str z
  | PFloat f => Ret (floatstr f)
  | PStr s => Ret (encode_basestring_ascii s)
  | PList l | PTuple l =>
      match room with
      | O => Raise RecursionError
      | S room' =>
          items <- mapM (encode room') l ;;
          Ret (91 :: join items ++ [93])
      end
  | PDict d =>
      match room with
      | O => Raise RecursionError
      | S room' =>
          members <-
            (fix members (d : list (pyval * pyval)) : result (list pystr) :=
               match d with
               | [] => Ret []
               | (k, x) :: d' =>
                   kt <- key_text k ;;
                   xt <- encode room' x ;;
                   rest <- members d' ;;
                   Ret (member_text kt xt :: rest)
               end) d ;;
          Ret (123 :: join members ++ [125])
      end
  | PBytes _ => Raise TypeError
  end.

Definition dumps (v : pyval) : result pyval :=
  text <- encode recursion_limit v ;; Ret (PStr text).

(** *** [json.loads]

    The scanner with its default settings (strict strings, no
    hooks).  Every syntax error is a [JSONDecodeError], so a failed
    scan carries no message; the two limits of the interpreter stop
    a scan with an exception of their own. *)

Definition is_ws (c : codepoint) : bool :=
  (c =? 32) || (c =? 9) || (c =? 10) || (c =? 13).

Fixpoint skip_ws (s : pystr) : pystr :=
  match s with
  | c :: t => if is_ws c then skip_ws t else s
  | [] => []
  end.

(** The single-letter escapes of [BACKSLASH]. *)
Definition unescape (e : codepoint) : option codepoint :=
  if e =? 34 then Some 34
  else if e =? 92 then Some 92
  else if e =? 47 then Some 47
  else if e =? 98 then Some 8
  else if e =? 102 then Some 12
  else if e =? 110 then Some 10
  else if e =? 114 then Some 13
  else if e =? 116 then Some 9
  else None.

Definition join_surrogates (hi lo : codepoint) : codepoint :=
  65536 + N.lor (N.shiftl (hi - 55296) 10) (lo - 56320).

Definition cons_char (c : codepoint) (r : option (pystr * pystr))
  : option (pystr * pystr) :=
  match r with
  | Some (str, rest) => Some (c :: str, rest)
  | None => None
  end.

(** [scanstring], from the character after the opening quote: the
    text up to the closing quote and what follows it. *)
Fixpoint scanstring (s : pystr) : option (pystr * pystr) :=
  match s with
  | [] => None
  | c :: t =>
      if c =? 34 then Some ([], t)
      else if c =? 92 then
        match t with
        | [] => None
        | e :: t1 =>
            if e =? 117 then
              match t1 with
              | h1 :: h2 :: h3 :: h4 :: t2 =>
                  match hex4_value h1 h2 h3 h4 with
                  | None => None
                  | Some u =>
                      if is_high_surrogate u then
                        match t2 with
                        | b :: l :: g1 :: g2 :: g3 :: g4 :: t3 =>
                            if (b =? 92) && (l =? 117) then
                              match hex4_value g1 g2 g3 g4 with
                              | None => None
                              | Some u2 =>
                                  if is_low_surrogate u2
                                  then cons_char (join_surrogates u u2)
                                         (scanstring t3)
                                  else cons_char u (scanstring t2)
                              end
                            else cons_char u (scanstring t2)
                        | _ => cons_char u (scanstring t2)
                        end
                      else cons_char u (scanstring t2)
                  end
              | _ => None
              end
            else
              match unescape e with
              | Some ch => cons_char ch (scanstring t1)
              | None => None
              end
        end
      else if c <=? 31 then None
      else cons_char c (scanstring t)
  end.

(** A maximal run of decimal digits. *)
Fixpoint span_digits (s : pystr) : list codepoint * pystr :=
  match s with
  | c :: t =>
      if is_digit c
      then let '(ds, rest) := span_digits t in (c :: ds, rest)
      else ([], s)
  | [] => ([], [])
  end.

(** The lexeme of a number: sign, integer digits, fraction digits
    (empty when there is no fraction), exponent (sign and digits). *)
Record number_lexeme := {
  negative : bool;
  int_digits : list codepoint;
  frac_digits : list codepoint;
  exponent : option (bool * list codepoint)
}.

Definition lex_integer (s : pystr) : option (list codepoint * pystr) :=
  match s with
  | c :: t =>
      if c =? 48 then Some ([c], t)
      else if is_digit c then Some (span_digits s)
      else None
  | [] => None
  end.

Definition lex_fraction (s : pystr) : list codepoint * pystr :=
  match s with
  | dot :: d :: _ =>
      if (dot =? 46) && is_digit d then span_digits (tl s) else ([], s)
  | _ => ([], s)
  end.

Definition lex_exponent (s : pystr)
  : option (bool * list codepoint) * pystr :=
  match s with
  | e :: t =>
      if (e =? 101) || (e =? 69) then
        let '(neg, t1) :=
          match t with
          | sg :: t' =>
              if sg =? 45 then (true, t')
              else if sg =? 43 then (false, t')
              else (false, t)
          | [] => (false, t)
          end in
        match span_digits t1 with
        | ([], _) => (None, s)
        | (ds, rest) => (Some (neg, ds), rest)
        end
      else (None, s)
  | [] => (None, s)
  end.

Definition lex_number (s : pystr) : option (number_lexeme * pystr) :=
  let '(neg, s1) :=
    match s with
    | c :: t => if c =? 45 then (true, t) else (false, s)
    | [] => (false, s)
    end in
  match lex_integer s1 with
  | None => None
  | Some (ds, s2) =>
      let '(fs, s3) := lex_fraction s2 in
      let '(ex, s4) := lex_exponent s3 in
      Some ({| negative := neg; int_digits := ds;
               frac_digits := fs; exponent := ex |}, s4)
  end.

(** A number without fraction and exponent is read by [int(text)],
    which refuses more than 4300 digits; [float(text)] has no such
    limit. *)
Definition int_too_long (n : number_lexeme) : bool :=
  match frac_digits n, exponent n with
  | [], None => (int_max_str_digits <? length (int_digits n))%nat
  | _, _ => false
  end.

(** [int(text)] without fraction and exponent, [float(text)] with. *)
Definition number_value (n : number_lexeme) : pyval :=
  match frac_digits n, exponent n with
  | [], None =>
      let m := Z.of_N (N_of_digits (int_digits n)) in
      PInt (if negative n then Z.opp m else m)
  | fs, ex =>
      let e :=
        match ex with
        | Some (true, ds) => Z.opp (Z.of_N (N_of_digits ds))
        | Some (false, ds) => Z.of_N (N_of_digits ds)
        | None => 0%Z
        end in
      PFloat (PyFloat.float_of_decimal (negative n)
                (N_of_digits (int_digits n ++ fs))
                (e - Z.of_nat (length fs)))
  end.

Fixpoint strip_prefix (p s : pystr) : option pystr :=
  match p, s with
  | [], _ => Some s
  | x :: p', y :: s' => if x =? y then strip_prefix p' s' else None
  | _ :: _, [] => None
  end.

Inductive scan (A : Type) :=
| Scanned (a : A) (rest : pystr)
| Failed
| Aborted (e : exn)
| Starved.
Arguments Scanned {A} a rest.
Arguments Failed {A}.
Arguments Aborted {A} e.
Arguments Starved {A}.

(** The object built by [PyDict_SetItem] on each member in turn. *)
Definition object_of_pairs (pairs : list (pystr * pyval)) : pyval :=
  PDict (map (fun kv => (PStr (fst kv), snd kv)) (PyDict.of_items pairs)).

Definition literal (word : string) (v : pyval) (s : pystr) : scan pyval :=
  match strip_prefix (py word) s with
  | Some rest => Scanned v rest
  | None => Failed
  end.

(** [scan_once] with the array and object loops it calls.  [room] is
    the number of levels of recursion left: every list and every
    dictionary, empty or not, takes one.  [fuel] bounds the number of
    calls and only makes the definition structural. *)
Fixpoint scan_once (fuel room : nat) (s : pystr) : scan pyval :=
  match fuel with
  | O => Starved
  | S fuel' =>
      match s with
      | [] => Failed
      | c :: t =>
          if c =? 34 then
            match scanstring t with
            | Some (str, rest) => Scanned (PStr str) rest
            | None => Failed
            end
          else if c =? 123 then
            match room with
            | O => Aborted RecursionError
            | S room' =>
                match skip_ws t with
                | c' :: t' =>
                    if c' =? 125 then Scanned (PDict []) t'
                    else
                      match object_members fuel' room' (c' :: t') with
                      | Scanned pairs rest =>
                          Scanned (object_of_pairs pairs) rest
                      | Failed => Failed
                      | Aborted e => Aborted e
                      | Starved => Starved
                      end
                | [] => Failed
                end
            end
          else if c =? 91 then
            match room with
            | O => Aborted RecursionError
            | S room' =>
                match skip_ws t with
                | c' :: t' =>
                    if c' =? 93 then Scanned (PList []) t'
                    else
                      match array_items fuel' room' (c' :: t') with
                      | Scanned items rest => Scanned (PList items) rest
                      | Failed => Failed
                      | Aborted e => Aborted e
                      | Starved => Starved
                      end
                | [] => Failed
                end
            end
          else if c =? 110 then literal "null" PNone s
          else if c =? 116 then literal "true" (PBool true) s
          else if c =? 102 then literal "false" (PBool false) s
          else
            match lex_number s with
            | Some (n, rest) =>
                if int_too_long n
                then Aborted (ValueError IntMaxStrDigits)
                else Scanned (number_value n) rest
            | None =>
                if c =? 78 then literal "NaN" (PFloat nan) s
                else if c =? 73 then literal "Infinity" (PFloat infinity) s
                else if c =? 45
                then literal "-Infinity" (PFloat neg_infinity) s
                else Failed
            end
      end
  end

with array_items (fuel room : nat) (s : pystr) : scan (list pyval) :=
  match fuel with
  | O => Starved
  | S fuel' =>
      match scan_once fuel' room s with
      | Scanned v rest =>
          match skip_ws rest with
          | c :: t =>
              if c =? 93 then Scanned [v] t
              else if c =? 44 then
                match array_items fuel' room (skip_ws t) with
                | Scanned vs rest' => Scanned (v :: vs) rest'
                | Failed => Failed
                | Aborted e => Aborted e
                | Starved => Starved
                end
              else Failed
          | [] => Failed
          end
      | Failed => Failed
      | Aborted e => Aborted e
      | Starved => Starved
      end
  end

with object_members (fuel room : nat) (s : pystr)
  : scan (list (pystr * pyval)) :=
  match fuel with
  | O => Starved
  | S fuel' =>
      match s with
      | q :: t =>
          if q =? 34 then
            match scanstring t with
            | Some (key, rest) =>
                match skip_ws rest with
                | colon :: t1 =>
                    if colon =? 58 then
                      match scan_once fuel' room (skip_ws t1) with
                      | Scanned v rest1 =>
                          match skip_ws rest1 with
                          | c :: t2 =>
                              if c =? 125 then Scanned [(key, v)] t2
                              else if c =? 44 then
                                match object_members fuel' room
                                        (skip_ws t2) with
                                | Scanned kvs rest2 =>
                                    Scanned ((key, v) :: kvs) rest2
                                | Failed => Failed
                                | Aborted e => Aborted e
                                | Starved => Starved
                                end
                              else Failed
                          | [] => Failed
                          end
                      | Failed => Failed
                      | Aborted e => Aborted e
                      | Starved => Starved
                      end
                    else Failed
                | [] => Failed
                end
            | None => Failed
            end
          else Failed
      | [] => Failed
      end
  end.

(** [JSONDecoder.decode]: one value between optional white space,
    and nothing after it. *)
Definition decode (s : pystr) : result pyval :=
  match scan_once (2 * length s + 1) recursion_limit (skip_ws s) with
  | Scanned v rest =>
      match skip_ws rest with
      | [] => Ret v
      | _ :: _ => Raise JSONDecodeError
      end
  | Aborted e => Raise e
  | Failed | Starved => Raise JSONDecodeError
  end.

(** *** Byte input

    [json.loads] accepts [bytes]: [detect_encoding] picks one of the
    UTF encodings and the bytes are decoded with the [surrogatepass]
    error handler, which lets encoded surrogates through and nothing
    else. *)

Inductive encoding :=
| UTF8 | UTF8_SIG | UTF16 | UTF16_BE | UTF16_LE
| UTF32 | UTF32_BE | UTF32_LE.

Definition detect_encoding (b : list N) : encoding :=
  match b with
  | 0 :: 0 :: 254 :: 255 :: _ => UTF32
  | 255 :: 254 :: 0 :: 0 :: _ => UTF32
  | 254 :: 255 :: _ => UTF16
  | 255 :: 254 :: _ => UTF16
  | 239 :: 187 :: 191 :: _ => UTF8_SIG
  | b0 :: b1 :: b2 :: b3 :: _ =>
      if b0 =? 0 then (if b1 =? 0 then UTF32_BE else UTF16_BE)
      else if b1 =? 0
      then (if (b2 =? 0) && (b3 =? 0) then UTF32_LE else UTF16_LE)
      else UTF8
  | [b0; b1] =>
      if b0 =? 0 then UTF16_BE
      else if b1 =? 0 then UTF16_LE
      else UTF8
  | _ => UTF8
  end.

Definition is_cont (b : N) : bool := (128 <=? b) && (b <=? 191).

Fixpoint utf8_decode (b : list N) : option pystr :=
  match b with
  | [] => Some []
  | b0 :: t =>
      if b0 <? 128 then option_map (cons b0) (utf8_decode t)
      else if (194 <=? b0) && (b0 <=? 223) then
        match t with
        | b1 :: t1 =>
            if is_cont b1
            then option_map (cons ((b0 - 192) * 64 + (b1 - 128)))
                   (utf8_decode t1)
            else None
        | _ => None
        end
      else if (224 <=? b0) && (b0 <=? 239) then
        match t with
        | b1 :: b2 :: t2 =>
            let c := ((b0 - 224) * 64 + (b1 - 128)) * 64 + (b2 - 128) in
            if is_cont b1 && is_cont b2 && (2048 <=? c)
            then option_map (cons c) (utf8_decode t2)
            else None
        | _ => None
        end
      else if (240 <=? b0) && (b0 <=? 244) then
        match t with
        | b1 :: b2 :: b3 :: t3 =>
            let c := (((b0 - 240) * 64 + (b1 - 128)) * 64 + (b2 - 128)) * 64
                     + (b3 - 128) in
            if is_cont b1 && is_cont b2 && is_cont b3
               && (65536 <=? c) && (c <? 1114112)
            then option_map (cons c) (utf8_decode t3)
            else None
        | _ => None
        end
      else None
  end.

(** Code units of two bytes, then surrogate pairs joined; a lone
    surrogate passes. *)
Fixpoint utf16_units (big_endian : bool) (b : list N) : option (list N) :=
  match b with
  | [] => Some []
  | x :: y :: t =>
      option_map (cons (if big_endian then x * 256 + y else y * 256 + x))
        (utf16_units big_endian t)
  | [_] => None
  end.

Fixpoint utf16_join (units : list N) : pystr :=
  match units with
  | [] => []
  | u :: t =>
      match t with
      | u2 :: t2 =>
          if is_high_surrogate u && is_low_surrogate u2
          then join_surrogates u u2 :: utf16_join t2
          else u :: utf16_join t
      | [] => [u]
      end
  end.

Definition utf16_decode (big_endian : bool) (b : list N) : option pystr :=
  option_map utf16_join (utf16_units big_endian b).

Fixpoint utf32_decode (big_endian : bool) (b : list N) : option pystr :=
  match b with
  | [] => Some []
  | x :: y :: z :: w :: t =>
      let c := if big_endian
               then ((x * 256 + y) * 256 + z) * 256 + w
               else ((w * 256 + z) * 256 + y) * 256 + x in
      if c <? 1114112 then option_map (cons c) (utf32_decode big_endian t)
      else None
  | _ => None
  end.

(** [b.decode(detect_encoding(b), 'surrogatepass')]. *)
Definition decode_bytes (bs : list byte) : result pystr :=
  let b := map Byte.to_N bs in
  let text :=
    match detect_encoding b with
    | UTF8 => utf8_decode b
    | UTF8_SIG => utf8_decode (skipn 3 b)
    | UTF16 =>
        match b with
        | 254 :: _ => utf16_decode true (skipn 2 b)
        | _ => utf16_decode false (skipn 2 b)
        end
    | UTF16_BE => utf16_decode true b
    | UTF16_LE => utf16_decode false b
    | UTF32 =>
        match b with
        | 0 :: _ => utf32_decode true (skipn 4 b)
        | _ => utf32_decode false (skipn 4 b)
        end
    | UTF32_BE => utf32_decode true b
    | UTF32_LE => utf32_decode false b
    end in
  match text with
  | Some s => Ret s
  | None => Raise UnicodeDecodeError
  end.

(** [json.loads(s)]: text is refused when it starts with a byte
    order mark, bytes are decoded first, anything else is a
    [TypeError].  Besides [JSONDecodeError] the scan can end in the
    [ValueError] of an integer with too many digits and in
    [RecursionError]. *)
Definition loads (v : pyval) : result pyval :=
  match v with
  | PStr s =>
      match s with
      | 65279 :: _ => Raise JSONDecodeError
      | _ => decode s
      end
  | PBytes b => s <- decode_bytes b ;; decode s
  | _ => Raise TypeError
  end.

End Json.

(* ------------------------------------------------------------------ *)
(** ** Code that mutates an object and may raise

    A method that changes [self] and may raise is a function from the
    state before the call to the state after it and the outcome.  A
    [raise] leaves the state as the statements before it made it. *)

Definition exec (S A : Type) : Type := S -> S * result A.

Definition pure {S A} (a : A) : exec S A := fun s => (s, Ret a).
Definition raise {S A} (e : exn) : exec S A := fun s => (s, Raise e).
Definition get_state {S} : exec S S := fun s => (s, Ret s).
Definition modify {S} (f : S -> S) : exec S unit := fun s => (f s, Ret tt).
Definition lift {S A} (r : result A) : exec S A := fun s => (s, r).

Definition bindx {S A B} (m : exec S A) (k : A -> exec S B) : exec S B :=
  fun s =>
    match m s with
    | (s', Ret a) => k a s'
    | (s', Raise e) => (s', Raise e)
    end.

Notation "x <~ m ;; k" := (bindx m (fun x => k))
  (at level 61, m at next level, right associativity) : py_scope.

(** [for x in l: body(x)]. *)
Fixpoint for_each {S A} (l : list A) (body : A -> exec S unit) : exec S unit :=
  match l with
  | [] => pure tt
  | x :: l' => _ <~ body x ;; for_each l' body
  end.

(* ------------------------------------------------------------------ *)
(** ** The value codec *)

(** [serialize]: a [dict] or a [list] becomes its JSON text, any other
    value is returned as it is. *)
Definition serialize (value : pyval) : result pyval :=
  if isinstance value TDict || isinstance value TList
  then Json.dumps value
  else Ret value.

(** [deserialize]: [json.loads(value)], the value itself when that
    raises [TypeError] or [JSONDecodeError]; any other exception
    passes through the [except] clause ([JSONDecodeError] is a
    subclass of [ValueError], so a plain [ValueError] is not
    caught). *)
Definition deserialize (value : pyval) : result pyval :=
  match Json.loads value with
  | Ret parsed => Ret parsed
  | Raise TypeError => Ret value
  | Raise JSONDecodeError => Ret value
  | Raise e => Raise e
  end.

(* ------------------------------------------------------------------ *)
(** ** [Field] *)

Module Field.
Record t := { name : pystr; data_type : pytype }.
End Field.

(* ------------------------------------------------------------------ *)
(** ** [Row] *)

Module Row.
Record t := { fields : PyDict.t pyval }.

(** The loop of [__init__]: every keyword value goes through
    [serialize] and is stored under its name. *)
Fixpoint init_loop (items : list (pystr * pyval)) (fields : PyDict.t pyval)
  : result (PyDict.t pyval) :=
  match items with
  | [] => Ret fields
  | (field_name, field_value) :: rest =>
      stored <- serialize field_value ;;
      init_loop rest (PyDict.set fields field_name stored)
  end.

Definition init (kwargs : PyDict.t pyval) : result t :=
  fields <- init_loop kwargs [] ;; Ret {| fields := fields |}.

Definition lookup (self : t) (i : pystr) : result pyval :=
  match PyDict.get (fields self) i with
  | Some stored => Ret stored
  | None => Raise (KeyError i)
  end.

(** The dictionary comprehension of [get]: for every key in turn,
    the stored value is looked up and decoded. *)
Fixpoint comprehension (self : t) (names : list pystr)
  (out : PyDict.t pyval) : result (PyDict.t pyval) :=
  match names with
  | [] => Ret out
  | i :: rest =>
      stored <- lookup self i ;;
      v <- deserialize stored ;;
      comprehension self rest (PyDict.set out i v)
  end.

(** A dictionary with text keys as a Python value. *)
Definition as_dict (d : PyDict.t pyval) : pyval :=
  PDict (map (fun kv => (PStr (fst kv), snd kv)) d).

(** [get(field='')]: the whole row for the empty name, one decoded
    value otherwise. *)
Definition get (field : pystr) (self : t) : result pyval :=
  if pystr_eqb field []
  then
    d <- comprehension self (PyDict.keys (fields self)) [] ;;
    Ret (as_dict d)
  else
    stored <- lookup self field ;;
    deserialize stored.

Definition add_field (field_name : pystr) (field_value : pyval)
  : exec t unit :=
  stored <~ lift (serialize field_value) ;;
  modify (fun self =>
            {| fields := PyDict.set (fields self) field_name stored |}).
End Row.

(* ------------------------------------------------------------------ *)
(** ** [Table] *)

Module Table.
Record t := {
  name : pystr;
  _fields : list Field.t;
  _rows : list Row.t
}.

Definition init (name : pystr) : t :=
  {| name := name; _fields := []; _rows := [] |}.

Definition add_field (field_name : pystr) (data_type : pytype) (self : t)
  : t :=
  {| name := name self;
     _fields := _fields self
                ++ [{| Field.name := field_name;
                       Field.data_type := data_type |}];
     _rows := _rows self |}.

Fixpoint add_fields (fields_dict : PyDict.t pytype) (self : t) : t :=
  match fields_dict with
  | [] => self
  | (field_name, data_type) :: rest =>
      add_fields rest (add_field field_name data_type self)
  end.

(** [name in field_names], for the tuple of names of
    [delete_fields]. *)
Definition name_in (n : pystr) (field_names : list pystr) : bool :=
  existsb (pystr_eqb n) field_names.

(** The inner loop of [delete_fields] on one row. *)
Fixpoint delete_keys (field_names : list pystr) (row : Row.t) : Row.t :=
  match field_names with
  | [] => row
  | field_name :: rest =>
      delete_keys rest
        (if PyDict.contains (Row.fields row) field_name
         then {| Row.fields := PyDict.del (Row.fields row) field_name |}
         else row)
  end.

Definition delete_fields (field_names : list pystr) (self : t) : t :=
  {| name := name self;
     _fields := filter (fun field =>
                          negb (name_in (Field.name field) field_names))
                  (_fields self);
     _rows := map (delete_keys field_names) (_rows self) |}.

(** The declared type of the first field called [field_name], the
    default [None] of [next] when there is none. *)
Definition expected_data_type (self : t) (field_name : pystr)
  : option pytype :=
  option_map Field.data_type
    (find (fun field => pystr_eqb (Field.name field) field_name)
       (_fields self)).

Definition check_value (self : t) (kv : pystr * pyval) : exec t unit :=
  let '(field_name, field_value) := kv in
  match expected_data_type self field_name with
  | None => raise (ValueError (UnknownField field_name))
  | Some ty =>
      if negb (isinstance field_value ty)
      then raise (ValueError (TypeMismatch field_name))
      else pure tt
  end.

Definition append_row (row : Row.t) (self : t) : t :=
  {| name := name self;
     _fields := _fields self;
     _rows := _rows self ++ [row] |}.

Definition add_row (kwargs : PyDict.t pyval) : exec t unit :=
  self <~ get_state ;;
  _ <~ (if negb (length kwargs =? length (_fields self))%nat
        then raise (ValueError SchemaMismatch)
        else pure tt) ;;
  _ <~ for_each kwargs (check_value self) ;;
  row <~ lift (Row.init kwargs) ;;
  modify (append_row row).

Definition delete_row (condition : Row.t -> bool) (self : t) : t :=
  {| name := name self;
     _fields := _fields self;
     _rows := filter (fun row => negb (condition row)) (_rows self) |}.

(** [find(condition, amount)]; the defaults are the condition that
    holds of every row and the amount 0. *)
Definition find (condition : Row.t -> bool) (amount : Z) (self : t)
  : list Row.t :=
  let matching_rows := filter condition (_rows self) in
  if (amount >? 0)%Z
  then firstn (Z.to_nat amount) matching_rows
  else matching_rows.
End Table.

(* ------------------------------------------------------------------ *)
(** ** The SQLite file

    The file is the list of its tables, each with its columns (name
    and declared kind, as [PRAGMA table_info] reports them) and its
    rows.  The module assembles its SQL by interpolating table and
    field names; the model takes the statements these texts denote
    when every name is a plain identifier that is not a keyword.

    A value is stored in the storage class it is bound with, with one
    conversion of column affinity: a column of REAL affinity keeps a
    float without fraction as an integer and gives it back as a
    float, so that [-0.0] comes back as [0.0].  The conversions of a
    value bound to a column of another kind (a number to a TEXT
    column, numeric-looking text or a float without fraction to a
    numeric one, an integer to a REAL one) are not modelled. *)

Module Sqlite.
Inductive value :=
| Null
| Integer (z : Z)
| Real (f : float)
| Text (s : pystr)
| Blob (b : list byte).

Record table := {
  tbl_name : pystr;
  columns : list (pystr * pystr);
  rows : list (list value)
}.

Definition db := list table.

(** Names are compared without regard to ASCII case. *)
Definition lower (c : codepoint) : codepoint :=
  (if (65 <=? c) && (c <=? 90) then c + 32 else c)%N.
Definition name_eqb (a b : pystr) : bool :=
  pystr_eqb (map lower a) (map lower b).

(** Whether [sub] occurs in [s]. *)
Fixpoint starts_with (sub s : pystr) : bool :=
  match sub, s with
  | [], _ => true
  | x :: sub', y :: s' => N.eqb x y && starts_with sub' s'
  | _ :: _, [] => false
  end.

Fixpoint occurs_in (sub s : pystr) : bool :=
  starts_with sub s
  || match s with
     | [] => false
     | _ :: s' => occurs_in sub s'
     end.

(** The affinity of a column, from its declared kind: the first rule
    that applies, without regard to case. *)
Inductive affinity :=
| AffInteger | AffText | AffBlob | AffReal | AffNumeric.

Definition affinity_of (kind : pystr) : affinity :=
  let k := map lower kind in
  if occurs_in (py "int") k then AffInteger
  else if occurs_in (py "char") k || occurs_in (py "clob") k
          || occurs_in (py "text") k then AffText
  else if occurs_in (py "blob") k || pystr_eqb k [] then AffBlob
  else if occurs_in (py "real") k || occurs_in (py "floa") k
          || occurs_in (py "doub") k then AffReal
  else AffNumeric.

(** The value a column of the declared [kind] holds after [v] was
    inserted.  A REAL column keeps a float that is a whole number as
    an integer and gives it back as a float, which makes zero of
    negative zero.  A value of the kind of its column is otherwise
    kept as it is, and so is text that does not read as a number.
    What SQLite makes of any other value of another kind than its
    column (a number in a TEXT column, numeric text or a whole float
    in an INTEGER or JSON column) is not modelled: such a value is
    kept as it is here, and no property below is about one. *)
Definition stored_as (kind : pystr) (v : value) : value :=
  match affinity_of kind, v with
  | AffReal, Real f =>
      match Prim2SF f with
      | S754_zero _ => Real zero
      | _ => Real f
      end
  | _, _ => v
  end.

(** Binding a Python value to a [?] placeholder. *)
Definition bind_value (v : pyval) : result value :=
  match v with
  | PNone => Ret Null
  | PBool b => Ret (Integer (if b then 1 else 0))
  | PInt z =>
      if ((- 2 ^ 63 <=? z) && (z <? 2 ^ 63))%Z then Ret (Integer z)
      else Raise OverflowError
  | PFloat f =>
      match Prim2SF f with
      | S754_nan => Ret Null
      | _ => Ret (Real f)
      end
  | PStr s =>
      if forallb is_scalar_value s then Ret (Text s)
      else Raise UnicodeEncodeError
  | PBytes b => Ret (Blob b)
  | PList _ | PTuple _ | PDict _ => Raise ProgrammingError
  end.

(** A fetched column value as a Python value. *)
Definition fetch_value (v : value) : pyval :=
  match v with
  | Null => PNone
  | Integer z => PInt z
  | Real f => PFloat f
  | Text s => PStr s
  | Blob b => PBytes b
  end.

Definition find_table (file : db) (n : pystr) : option table :=
  find (fun t => name_eqb (tbl_name t) n) file.

(** [DROP TABLE IF EXISTS n]. *)
Definition drop_table_if_exists (n : pystr) (file : db) : db :=
  filter (fun t => negb (name_eqb (tbl_name t) n)) file.

Fixpoint distinct_names (names : list pystr) : bool :=
  match names with
  | [] => true
  | n :: rest => negb (existsb (name_eqb n) rest) && distinct_names rest
  end.

(** [CREATE TABLE n (c1 k1, ...)]. *)
Definition create_table (n : pystr) (cols : list (pystr * pystr))
  (file : db) : result db :=
  match find_table file n, cols with
  | Some _, _ => Raise OperationalError
  | None, [] => Raise OperationalError
  | None, _ :: _ =>
      if distinct_names (map fst cols)
      then Ret (file ++ [{| tbl_name := n; columns := cols; rows := [] |}])
      else Raise OperationalError
  end.

Fixpoint bound_to (cols : list pystr) (vals : list value) (c : pystr)
  : value :=
  match cols, vals with
  | c' :: cols', v :: vals' =>
      if name_eqb c' c then v else bound_to cols' vals' c
  | _, _ => Null
  end.

(** [INSERT INTO n (cols) VALUES (?, ...)] with the values bound:
    a column that is not named gets NULL. *)
Definition insert (n : pystr) (cols : list pystr) (vals : list pyval)
  (file : db) : result db :=
  match find_table file n, cols with
  | None, _ => Raise OperationalError
  | Some _, [] => Raise OperationalError
  | Some t, _ :: _ =>
      if forallb (fun c => existsb (fun col => name_eqb (fst col) c)
                             (columns t)) cols
      then
        bound <- mapM bind_value vals ;;
        let row := map (fun col =>
                          stored_as (snd col) (bound_to cols bound (fst col)))
                     (columns t) in
        Ret (map (fun t' =>
                    if name_eqb (tbl_name t') n
                    then {| tbl_name := tbl_name t';
                            columns := columns t';
                            rows := rows t' ++ [row] |}
                    else t') file)
      else Raise OperationalError
  end.

(** [sqlite3.connect(path)]: the database the connection works on
    when the file of that path holds [file].  The empty path and
    [:memory:] name no file: each connection to them opens a
    database of its own, empty at first and gone when the connection
    is closed. *)
Definition private_path (path : pystr) : bool :=
  pystr_eqb path [] || pystr_eqb path (py ":memory:").

Definition connect (path : pystr) (file : db) : db :=
  if private_path path then [] else file.

(** What the file of [path] holds once the connection that worked on
    [conn] has committed and closed. *)
Definition closed (path : pystr) (file conn : db) : db :=
  if private_path path then file else conn.

(** [SELECT name FROM sqlite_master WHERE type='table']. *)
Definition table_names (file : db) : list pystr := map tbl_name file.

(** [PRAGMA table_info(n)]: name and declared kind of each column. *)
Definition table_info (file : db) (n : pystr) : list (pystr * pystr) :=
  match find_table file n with
  | Some t => columns t
  | None => []
  end.

(** [SELECT * FROM n]. *)
Definition select_all (file : db) (n : pystr) : result (list (list pyval)) :=
  match find_table file n with
  | Some t => Ret (map (map fetch_value) (rows t))
  | None => Raise OperationalError
  end.
End Sqlite.

(* ------------------------------------------------------------------ *)
(** ** [Database] *)

Module Database.
Record t := {
  _tables : PyDict.t Table.t;
  db_file : pystr
}.

Definition init (db_file : pystr) : t :=
  {| _tables := []; db_file := db_file |}.

Definition set_table (table_name : pystr) (table : Table.t) (self : t) : t :=
  {| _tables := PyDict.set (_tables self) table_name table;
     db_file := db_file self |}.

Definition create (table_name : pystr) (fields : PyDict.t pytype)
  : exec t Table.t :=
  self <~ get_state ;;
  if PyDict.contains (_tables self) table_name
  then raise (ValueError (TableAlreadyExists table_name))
  else
    let table := Table.add_fields fields (Table.init table_name) in
    _ <~ modify (set_table table_name table) ;;
    pure table.

Definition delete (table_name : pystr) : exec t unit :=
  self <~ get_state ;;
  if negb (PyDict.contains (_tables self) table_name)
  then raise (KeyError table_name)
  else modify (fun self =>
                 {| _tables := PyDict.del (_tables self) table_name;
                    db_file := db_file self |}).

Definition get (table_name : pystr) (self : t) : result Table.t :=
  match PyDict.get (_tables self) table_name with
  | Some table => Ret table
  | None => Raise (KeyError table_name)
  end.

(** A method call on the table object stored under [table_name]:
    the object is shared with the dictionary, so the change shows
    there. *)
Definition on_table {A} (table_name : pystr) (m : exec Table.t A)
  : exec t A :=
  fun self =>
    match PyDict.get (_tables self) table_name with
    | Some table =>
        let '(table', r) := m table in
        (set_table table_name table' self, r)
    | None => (self, Raise (KeyError table_name))
    end.

(** *** [save] *)

(** The column kind [save] declares for a field type. *)
Definition column_kind (data_type : pytype) : pystr :=
  if pytype_eqb data_type TList || pytype_eqb data_type TDict
  then py "JSON"
  else if pytype_eqb data_type TFloat then py "REAL"
  else if pytype_eqb data_type TInt then py "INTEGER"
  else py "TEXT".

Definition field_definitions (table : Table.t) : list (pystr * pystr) :=
  map (fun field => (Field.name field, column_kind (Field.data_type field)))
    (Table._fields table).

(** The values [save] binds for one row: every stored value passed
    through [serialize] once more. *)
Definition written_values (row : Row.t) : result (list pyval) :=
  mapM serialize (PyDict.values (Row.fields row)).

Fixpoint save_rows (table_name : pystr) (rows : list Row.t)
  (file : Sqlite.db) : result Sqlite.db :=
  match rows with
  | [] => Ret file
  | row :: rest =>
      values <- written_values row ;;
      file' <- Sqlite.insert table_name (PyDict.keys (Row.fields row))
                 values file ;;
      save_rows table_name rest file'
  end.

Fixpoint save_tables (tables : PyDict.t Table.t) (file : Sqlite.db)
  : result Sqlite.db :=
  match tables with
  | [] => Ret file
  | (table_name, table) :: rest =>
      let file0 := Sqlite.drop_table_if_exists table_name file in
      file1 <- Sqlite.create_table table_name (field_definitions table)
                 file0 ;;
      file2 <- save_rows table_name (Table._rows table) file1 ;;
      save_tables rest file2
  end.

(** [save()] when the file of the path [self.db_file] holds [file]:
    what that file holds after the commit. *)
Definition save (self : t) (file : Sqlite.db) : result Sqlite.db :=
  conn <- save_tables (_tables self) (Sqlite.connect (db_file self) file) ;;
  Ret (Sqlite.closed (db_file self) file conn).

(** *** [load] *)

(** The field type [load] infers from a declared column kind. *)
Definition field_type (col_type : pystr) : pytype :=
  if pystr_eqb col_type (py "JSON") then TListOrDict
  else if pystr_eqb col_type (py "REAL") then TFloat
  else if pystr_eqb col_type (py "INTEGER") then TInt
  else TStr.

Fixpoint fields_dict (columns : list (pystr * pystr))
  (out : PyDict.t pytype) : PyDict.t pytype :=
  match columns with
  | [] => out
  | (col_name, col_type) :: rest =>
      fields_dict rest (PyDict.set out col_name (field_type col_type))
  end.

(** The keyword arguments of one fetched row: column names paired
    with the decoded values, by position (a fetched row has one
    value for each column). *)
Fixpoint row_kwargs (columns : list (pystr * pystr)) (row : list pyval)
  (out : PyDict.t pyval) : result (PyDict.t pyval) :=
  match columns with
  | [] => Ret out
  | (col_name, _) :: columns' =>
      match row with
      | [] => Ret out
      | x :: row' =>
          v <- deserialize x ;;
          row_kwargs columns' row' (PyDict.set out col_name v)
      end
  end.

(** The call of [table.add_row] with the dictionary unpacked into
    keyword arguments: a column called [self] collides with the
    first parameter of [add_row], and the call raises [TypeError]
    before the method runs. *)
Definition load_row (table_name : pystr) (columns : list (pystr * pystr))
  (row : list pyval) : exec t unit :=
  kwargs <~ lift (row_kwargs columns row []) ;;
  if PyDict.contains kwargs (py "self") then raise TypeError
  else on_table table_name (Table.add_row kwargs).

Definition load_table (file : Sqlite.db) (table_name : pystr)
  : exec t unit :=
  if pystr_eqb table_name (py "sqlite_sequence") then pure tt
  else
    let columns := Sqlite.table_info file table_name in
    _ <~ create table_name (fields_dict columns []) ;;
    rows <~ lift (Sqlite.select_all file table_name) ;;
    for_each rows (load_row table_name columns).

(** [load()] when the file of the path [self.db_file] holds
    [file]. *)
Definition load (file : Sqlite.db) : exec t unit :=
  fun self =>
    let conn := Sqlite.connect (db_file self) file in
    for_each (Sqlite.table_names conn) (load_table conn) self.
End Database.

(* ------------------------------------------------------------------ *)
(** ** The vocabulary of the specification *)

(** Scalar values: integers, floats and text. *)
Definition scalar (v : pyval) : Prop :=
  match v with
  | PInt _ | PFloat _ | PStr _ => True
  | _ => False
  end.

(** Composite values: list-shaped or mapping-shaped. *)
Definition composite (v : pyval) : Prop :=
  match v with
  | PList _ | PDict _ => True
  | _ => False
  end.

(** What a value parses to when it is text that is valid JSON. *)
Definition parsed_text (v : pyval) : option pyval :=
  match v with
  | PStr s =>
      match Json.loads (PStr s) with
      | Ret parsed => Some parsed
      | Raise _ => None
      end
  | _ => None
  end.

(** [encode] then [decode]. *)
Definition round_trip (v : pyval) : result pyval :=
  stored <- serialize v ;; deserialize stored.

(** What follows a value inside a JSON text: nothing, a comma or a
    closing bracket. *)
Definition delimited (rest : pystr) : Prop :=
  match rest with
  | [] => True
  | c :: _ => c = 44%N \/ c = 93%N \/ c = 125%N
  end.

(** A float whose JSON text scans back as the same float; in CPython
    every float but NaN compares equal to what its text reads as. *)
Definition float_stable (f : float) : Prop :=
  Json.scan_once 1 0 (Json.floatstr f) = Json.Scanned (PFloat f) [].

(** The values JSON has a form of its own for: [None], booleans,
    integers, stable floats, Unicode text, lists of such values and
    dictionaries from text to such values. *)
Inductive json_native : pyval -> Prop :=
| native_none : json_native PNone
| native_bool b : json_native (PBool b)
| native_int z : json_native (PInt z)
| native_float f : float_stable f -> json_native (PFloat f)
| native_str s : valid_text s -> json_native (PStr s)
| native_list l : Forall json_native l -> json_native (PList l)
| native_dict d :
    NoDup (map fst d) ->
    Forall (fun kv => (exists s, fst kv = PStr s /\ valid_text s)
                      /\ json_native (snd kv)) d ->
    json_native (PDict d).

(** The number of lists and dictionaries a value is nested in at its
    deepest place, the value itself counted. *)
Fixpoint nesting (v : pyval) : nat :=
  match v with
  | PList l | PTuple l => S (list_max (map nesting l))
  | PDict d => S (list_max (map (fun kv => nesting (snd kv)) d))
  | _ => O
  end.

(** The number of decimal digits of an integer. *)
Definition decimal_digits (z : Z) : nat :=
  length (digits_of_N (Z.abs_N z)).

(** The values that come back from their JSON text as they are, with
    no float among them: [None], booleans, integers the interpreter
    converts to text, Unicode text, lists of such values and
    dictionaries with distinct text keys and such values. *)
Inductive json_exact : pyval -> Prop :=
| exact_none : json_exact PNone
| exact_bool b : json_exact (PBool b)
| exact_int z :
    (decimal_digits z <= int_max_str_digits)%nat -> json_exact (PInt z)
| exact_str s : valid_text s -> json_exact (PStr s)
| exact_list l : Forall json_exact l -> json_exact (PList l)
| exact_dict d :
    NoDup (map fst d) ->
    Forall (fun kv => (exists s, fst kv = PStr s /\ valid_text s)
                      /\ json_exact (snd kv)) d ->
    json_exact (PDict d).

(** The three ways a keyword set fails the checks of [add_row]. *)
Definition wrong_count (self : Table.t) (kwargs : PyDict.t pyval) : Prop :=
  length kwargs <> length (Table._fields self).

Definition unknown_field (self : Table.t) (kv : pystr * pyval) : Prop :=
  Table.expected_data_type self (fst kv) = None.

Definition wrong_type (self : Table.t) (kv : pystr * pyval) : Prop :=
  exists ty, Table.expected_data_type self (fst kv) = Some ty
             /\ isinstance (snd kv) ty = false.

Definition fails_validation (self : Table.t) (kwargs : PyDict.t pyval)
  : Prop :=
  wrong_count self kwargs
  \/ Exists (fun kv => unknown_field self kv \/ wrong_type self kv) kwargs.

Definition validation_error (self : Table.t) (kwargs : PyDict.t pyval)
  (why : value_error) : Prop :=
  (wrong_count self kwargs /\ why = SchemaMismatch)
  \/ (~ wrong_count self kwargs
      /\ exists kv, In kv kwargs
                    /\ ((unknown_field self kv /\ why = UnknownField (fst kv))
                        \/ (wrong_type self kv
                            /\ why = TypeMismatch (fst kv)))).

(** The exceptions of the interpreter's two limits. *)
Definition interpreter_limit (e : exn) : Prop :=
  e = ValueError IntMaxStrDigits \/ e = RecursionError.

(** *** Vocabulary of the proofs about JSON text *)

(** Text that does not go on with a digit. *)
Definition nondigit_start (rest : pystr) : Prop :=
  match rest with
  | [] => True
  | c :: _ => is_digit c = false
  end.


(** The fuel [scan_once] needs for the text of a value: one unit for
    each value and one for each turn of an array or object loop. *)
Fixpoint weight (v : pyval) : nat :=
  match v with
  | PList l | PTuple l => S (length l + list_sum (map weight l))
  | PDict d => S (length d + list_sum (map (fun kv => weight (snd kv)) d))
  | _ => 1
  end.

(** The loop of [encode] over the items of a dictionary. *)
Definition encode_members (room : nat)
  : list (pyval * pyval) -> result (list (list N)) :=
  fix members (d : list (pyval * pyval)) : result (list (list N)) :=
    match d with
    | [] => Ret []
    | (k, x) :: d' =>
        bind (Json.key_text k) (fun kt =>
        bind (Json.encode room x) (fun xt =>
        bind (members d') (fun rest =>
        Ret (Json.member_text kt xt :: rest))))
    end.

(** The items of a dictionary with text keys. *)
Definition text_pairs (d : list (pyval * pyval)) : list (list N * pyval) :=
  map (fun kv => (match fst kv with PStr s => s | _ => [] end, snd kv)) d.

(** The text of [v] scans back as [v], before any delimiter, when
    the scanner has the fuel and the levels of recursion [v] takes. *)
Definition scans_back (v : pyval) : Prop :=
  forall room t, Json.encode room v = Ret t ->
  forall fuel depth rest,
    (weight v <= fuel)%nat -> (nesting v <= depth)%nat -> delimited rest ->
    Json.scan_once fuel depth (t ++ rest) = Json.Scanned v rest.


(** Text of ASCII characters only. *)
Definition ascii_text (t : pystr) : Prop := Forall (fun c => (c < 128)%N) t.

(** *** Vocabulary of the claim about [save] *)

(** Stored values that [decode] leaves alone: anything but text,
    bytes, lists and dictionaries, and text that is not valid JSON. *)
Definition plain_stored (e : pyval) : Prop :=
  match e with
  | PStr _ => Json.loads e = Raise JSONDecodeError
  | PBytes _ | PList _ | PDict _ => False
  | _ => True
  end.

(** Stored values that are the text [encode] gives a native composite
    value. *)
Definition canonical_stored (e : pyval) : Prop :=
  exists x, json_native x /\ composite x /\ serialize x = Ret e.

(** Stored values that are the text [encode] gives a composite value
    that comes back exactly. *)
Definition exact_stored (e : pyval) : Prop :=
  exists x, json_exact x /\ composite x /\ serialize x = Ret e.

(** [encode(decode(e))], the value the specification has [save]
    write. *)
Definition reencoded (e : pyval) : result pyval :=
  decoded <- deserialize e ;; serialize decoded.


(** *** Vocabulary of the properties of rows and tables *)

(** The names of the fields of a table, in schema order. *)
Definition field_names (self : Table.t) : list pystr :=
  map Field.name (Table._fields self).

(** A keyword set that passes the three checks of [add_row]. *)
Definition accepted (self : Table.t) (kwargs : PyDict.t pyval) : Prop :=
  length kwargs = length (Table._fields self)
  /\ Forall (fun kv => exists ty,
                 Table.expected_data_type self (fst kv) = Some ty
                 /\ isinstance (snd kv) ty = true) kwargs.

(** A row that has exactly the names of the schema. *)
Definition row_fits (self : Table.t) (row : Row.t) : Prop :=
  forall n, In n (PyDict.keys (Row.fields row)) <-> In n (field_names self).

(** A table all of whose rows fit its schema. *)
Definition consistent (self : Table.t) : Prop :=
  Forall (row_fits self) (Table._rows self).

(** *** Vocabulary of the round trip through the file *)








(** A stored value that survives the file: it is written as it is
    stored, the column of its field gives it back as it was bound,
    and it decodes to a value of the type [load] infers which encodes
    to the stored value again. *)
Definition survives (data_type : pytype) (stored : pyval) : Prop :=
  serialize stored = Ret stored
  /\ (exists v, Sqlite.bind_value stored = Ret v
                /\ Sqlite.fetch_value
                     (Sqlite.stored_as (Database.column_kind data_type) v)
                   = stored)
  /\ (exists x,
         deserialize stored = Ret x
         /\ isinstance x
              (Database.field_type (Database.column_kind data_type)) = true
         /\ serialize x = Ret stored).





(** The value a stored value decodes to ([None] standing in when
    decoding raises). *)
Definition decoded (stored : pyval) : pyval :=
  match deserialize stored with
  | Ret x => x
  | Raise _ => PNone
  end.





(** The value bound for a stored value (NULL standing in when binding
    fails). *)
Definition bound (stored : pyval) : Sqlite.value :=
  match Sqlite.bind_value stored with
  | Ret v => v
  | Raise _ => Sqlite.Null
  end.



(* ================================================================== *)
(** * Properties *)

Unset Implicit Arguments.

(** ** Text equality *)

Lemma pystr_eqb_spec (a b : pystr) : reflect (a = b) (pystr_eqb a b).
Proof.
  revert b; induction a as [|x a IH]; intros [|y b]; simpl;
    try (constructor; congruence).
  destruct (N.eqb_spec x y) as [->|Hxy]; simpl.
  - destruct (IH b) as [->|Hab]; constructor; congruence.
  - constructor; congruence.
Qed.

Lemma pystr_eqb_refl (a : pystr) : pystr_eqb a a = true.
Proof. destruct (pystr_eqb_spec a a); congruence. Qed.

Lemma pystr_eqb_eq (a b : pystr) : pystr_eqb a b = true <-> a = b.
Proof. destruct (pystr_eqb_spec a b); split; congruence. Qed.

Lemma pystr_eqb_neq (a b : pystr) : pystr_eqb a b = false <-> a <> b.
Proof. destruct (pystr_eqb_spec a b); split; congruence. Qed.

(** ** [Table.add_row] *)

Lemma check_value_state (self : Table.t) kv (s : Table.t) :
  fst (Table.check_value self kv s) = s.
Proof.
  unfold Table.check_value. destruct kv as [n v].
  destruct (Table.expected_data_type self n) as [ty|]; [|reflexivity].
  destruct (negb (isinstance v ty)); reflexivity.
Qed.

Lemma for_each_check_state (self : Table.t) kwargs (s : Table.t) :
  fst (for_each kwargs (Table.check_value self) s) = s.
Proof.
  revert s; induction kwargs as [|kv kwargs IH]; intros s; [reflexivity|].
  simpl. unfold bindx.
  pose proof (check_value_state self kv s) as Hs.
  destruct (Table.check_value self kv s) as [s' [[]|e]]; simpl in *; subst.
  - apply IH.
  - reflexivity.
Qed.

Lemma add_row_unfold (self : Table.t) kwargs :
  Table.add_row kwargs self =
  if negb (length kwargs =? length (Table._fields self))%nat
  then (self, Raise (ValueError SchemaMismatch))
  else
    match for_each kwargs (Table.check_value self) self with
    | (s, Ret _) =>
        match Row.init kwargs with
        | Ret row => (Table.append_row row s, Ret tt)
        | Raise e => (s, Raise e)
        end
    | (s, Raise e) => (s, Raise e)
    end.
Proof.
  unfold Table.add_row, bindx, get_state.
  destruct (negb (length kwargs =? length (Table._fields self))%nat);
    [reflexivity|].
  unfold pure.
  destruct (for_each kwargs (Table.check_value self) self) as [s [[]|e]];
    [|reflexivity].
  unfold lift, modify. destruct (Row.init kwargs); reflexivity.
Qed.

(** A failing call of [add_row] leaves the table as it was. *)
Lemma add_row_raise_unchanged (self : Table.t) kwargs e :
  snd (Table.add_row kwargs self) = Raise e ->
  fst (Table.add_row kwargs self) = self.
Proof.
  rewrite add_row_unfold.
  destruct (negb (length kwargs =? length (Table._fields self))%nat);
    [reflexivity|].
  pose proof (for_each_check_state self kwargs self) as Hs.
  destruct (for_each kwargs (Table.check_value self) self) as [s [[]|e']];
    simpl in Hs; subst s; [|reflexivity].
  destruct (Row.init kwargs) as [row|e']; [discriminate|reflexivity].
Qed.

Lemma for_each_check_fails (self : Table.t) kwargs (s : Table.t) :
  Exists (fun kv => unknown_field self kv \/ wrong_type self kv) kwargs ->
  exists kv, In kv kwargs /\
    ((unknown_field self kv
      /\ for_each kwargs (Table.check_value self) s
         = (s, Raise (ValueError (UnknownField (fst kv)))))
     \/ (wrong_type self kv
         /\ for_each kwargs (Table.check_value self) s
            = (s, Raise (ValueError (TypeMismatch (fst kv)))))).
Proof.
  induction kwargs as [|[n v] kwargs IH]; intros Hex; [inversion Hex|].
  simpl for_each. unfold bindx.
  destruct (Table.check_value self (n, v) s) as [s' r] eqn:Hc.
  assert (s' = s) by
    (pose proof (check_value_state self (n, v) s) as Hs;
     rewrite Hc in Hs; exact Hs).
  subst s'.
  unfold Table.check_value in Hc.
  destruct (Table.expected_data_type self n) as [ty|] eqn:Hty.
  - destruct (isinstance v ty) eqn:Hin; simpl in Hc.
    + injection Hc as <-.
      assert (Hrest : Exists (fun kv => unknown_field self kv
                                        \/ wrong_type self kv) kwargs).
      { inversion Hex as [? ? [Hu|[ty' [Ht Hi]]]|]; subst; auto.
        - unfold unknown_field in Hu; simpl in Hu; congruence.
        - simpl in Ht, Hi. congruence. }
      destruct (IH Hrest) as [kv [Hin' H]].
      exists kv; split; [right; exact Hin'|exact H].
    + injection Hc as <-. exists (n, v); split; [left; reflexivity|].
      right; split; [exists ty; auto|reflexivity].
  - injection Hc as <-. exists (n, v); split; [left; reflexivity|].
    left; split; [exact Hty|reflexivity].
Qed.

(** C2: a call of [add_row] that fails one of the three checks (wrong
    number of fields, a name the schema does not have, a value of the
    wrong type) raises the [ValueError] of the check that failed and
    leaves the table, and so its rows, exactly as before the call. *)
Theorem add_row_atomic (self : Table.t) (kwargs : PyDict.t pyval) :
  fails_validation self kwargs ->
  exists why,
    validation_error self kwargs why
    /\ Table.add_row kwargs self = (self, Raise (ValueError why))
    /\ Table._rows (fst (Table.add_row kwargs self)) = Table._rows self.
Proof.
  intros Hfail.
  assert (Hraise : exists why, validation_error self kwargs why
                               /\ Table.add_row kwargs self
                                  = (self, Raise (ValueError why))).
  { rewrite add_row_unfold.
    destruct (Nat.eqb_spec (length kwargs) (length (Table._fields self)))
      as [Hlen|Hlen]; simpl.
    - destruct Hfail as [Hcount|Hex]; [contradiction|].
      destruct (for_each_check_fails self kwargs self Hex)
        as [kv [Hin [[Hu Heq]|[Hw Heq]]]]; rewrite Heq.
      + exists (UnknownField (fst kv)); split; [|reflexivity].
        right; split; [intros Hc; apply Hc, Hlen|].
        exists kv; split; [exact Hin|left; auto].
      + exists (TypeMismatch (fst kv)); split; [|reflexivity].
        right; split; [intros Hc; apply Hc, Hlen|].
        exists kv; split; [exact Hin|right; auto].
    - exists SchemaMismatch; split; [|reflexivity].
      left; split; [exact Hlen|reflexivity]. }
  destruct Hraise as [why [Hwhy Heq]].
  exists why; repeat split; try assumption.
  rewrite Heq; reflexivity.
Qed.

Lemma add_row_atomic_witness :
  let users :=
    Table.add_fields [(py "name", TStr); (py "age", TInt)]
      (Table.init (py "users")) in
  let kwargs := [(py "name", PStr (py "Alice")); (py "age", PStr (py "x"))] in
  fails_validation users kwargs
  /\ exists why,
      validation_error users kwargs why
      /\ Table.add_row kwargs users = (users, Raise (ValueError why))
      /\ Table._rows (fst (Table.add_row kwargs users)) = Table._rows users.
Proof.
  assert (H : fails_validation
                (Table.add_fields [(py "name", TStr); (py "age", TInt)]
                   (Table.init (py "users")))
                [(py "name", PStr (py "Alice")); (py "age", PStr (py "x"))]).
  { right. apply Exists_cons_tl, Exists_cons_hd. right.
    exists TInt; split; reflexivity. }
  split; [exact H|].
  exact (add_row_atomic
           (Table.add_fields [(py "name", TStr); (py "age", TInt)]
              (Table.init (py "users")))
           [(py "name", PStr (py "Alice")); (py "age", PStr (py "x"))] H).
Defined.

(* ------------------------------------------------------------------ *)
(** ** [deserialize] and [Row.get] *)

(** A scan stops with an exception only at one of the two limits. *)
Ltac scan_cases H :=
  repeat (match type of H with
          | context [if ?b then _ else _] => destruct b eqn:?
          | context [match ?x with _ => _ end] => destruct x eqn:?
          end; try discriminate H).

Lemma scan_aborted (fuel : nat) :
  (forall room s e,
      Json.scan_once fuel room s = Json.Aborted e -> interpreter_limit e)
  /\ (forall room s e,
         Json.array_items fuel room s = Json.Aborted e ->
         interpreter_limit e)
  /\ (forall room s e,
         Json.object_members fuel room s = Json.Aborted e ->
         interpreter_limit e).
Proof.
  induction fuel as [|fuel [IH1 [IH2 IH3]]];
    [repeat split; intros room s e H; discriminate H|].
  repeat split; intros room s e H;
    cbn [Json.scan_once Json.array_items Json.object_members] in H;
    unfold Json.literal in H; scan_cases H;
    injection H as <-;
    first [ left; reflexivity | right; reflexivity
          | eapply IH1; eassumption | eapply IH2; eassumption
          | eapply IH3; eassumption ].
Qed.

Lemma decode_raises (s : pystr) (e : exn) :
  Json.decode s = Raise e -> e = JSONDecodeError \/ interpreter_limit e.
Proof.
  unfold Json.decode.
  destruct (Json.scan_once _ _ _) as [v rest| |e'|] eqn:Hs;
    try (intros [= <-]; left; reflexivity).
  - destruct (Json.skip_ws rest); [discriminate|].
    intros [= <-]. left. reflexivity.
  - intros [= <-]. right.
    exact (proj1 (scan_aborted _) _ _ _ Hs).
Qed.

Lemma loads_text (s : pystr) :
  Json.loads (PStr s) = Json.decode s
  \/ Json.loads (PStr s) = Raise JSONDecodeError.
Proof.
  simpl. destruct s as [|c s']; [left; reflexivity|].
  destruct (N.eq_dec c 65279) as [->|Hc]; [right; reflexivity|].
  left. destruct c as [|p]; [reflexivity|].
  repeat (destruct p as [p|p|]; try reflexivity); congruence.
Qed.

Lemma loads_text_raises (s : pystr) (e : exn) :
  Json.loads (PStr s) = Raise e -> e = JSONDecodeError \/ interpreter_limit e.
Proof.
  destruct (loads_text s) as [-> | ->]; [apply decode_raises|].
  intros [= <-]. left. reflexivity.
Qed.

(** The exceptions that get past the [except] clause of
    [deserialize]: the decoding error of a byte string, and those of
    the two limits, on text or a byte string. *)
Lemma deserialize_raises (v : pyval) (e : exn) :
  deserialize v = Raise e ->
  (e = UnicodeDecodeError /\ exists b, v = PBytes b)
  \/ (interpreter_limit e
      /\ ((exists s, v = PStr s) \/ exists b, v = PBytes b)).
Proof.
  unfold deserialize.
  destruct (Json.loads v) as [parsed|e'] eqn:Hl; [discriminate|].
  destruct v; try (simpl in Hl; injection Hl as <-; discriminate).
  - (* text *)
    destruct (loads_text_raises s e' Hl) as [->|Hlim]; [discriminate|].
    intros He. right. split; [|left; exists s; reflexivity].
    destruct Hlim as [-> | ->]; injection He as <-;
      [left|right]; reflexivity.
  - (* bytes *)
    simpl in Hl. unfold Json.decode_bytes in Hl.
    destruct (match Json.detect_encoding (map to_N b) with
              | Json.UTF8 => _ | _ => _ end) as [s|].
    + simpl in Hl. apply decode_raises in Hl.
      destruct Hl as [->|Hlim]; [discriminate|].
      intros He. right. split; [|right; exists b; reflexivity].
      destruct Hlim as [-> | ->]; injection He as <-;
        [left|right]; reflexivity.
    + simpl in Hl. injection Hl as <-. intros [= <-].
      left. split; [reflexivity|exists b; reflexivity].
Qed.

(** A value that is neither text nor a byte string comes back as it
    is. *)
Lemma deserialize_returns (v : pyval) :
  (forall s, v <> PStr s) -> (forall b, v <> PBytes b) ->
  deserialize v = Ret v.
Proof.
  intros Hs Hb. destruct v; try reflexivity.
  - exfalso. exact (Hs s eq_refl).
  - exfalso. exact (Hb b eq_refl).
Qed.

(** C5: [deserialize] is meant never to raise.  On the byte string
    [b'\xff'], which no UTF encoding decodes, [json.loads] raises
    [UnicodeDecodeError]; the [except] clause names [TypeError] and
    [JSONDecodeError] only, so the exception leaves [deserialize]. *)
Theorem deserialize_raises_on_undecodable_bytes :
  deserialize (PBytes ["255"%byte]) = Raise UnicodeDecodeError.
Proof. reflexivity. Qed.

(** C7, as stated, is refuted by the empty name: on a row that stores
    nothing under [''], [get('')] returns the whole row. *)
Lemma get_absent_counterexample :
  ~ (forall (row : Row.t) (name : pystr),
        PyDict.get (Row.fields row) name = None ->
        Row.get name row = Raise (KeyError name)).
Proof.
  intros H.
  specialize (H {| Row.fields := [(py "a", PInt 1)] |} [] eq_refl).
  vm_compute in H. discriminate H.
Qed.

(** The comprehension of [get('')] only looks up names the row has, so
    it raises nothing but what [deserialize] lets through. *)
Lemma comprehension_raises (self : Row.t) names out e :
  (forall i, In i names -> PyDict.get (Row.fields self) i <> None) ->
  Row.comprehension self names out = Raise e ->
  exists stored,
    In stored (PyDict.values (Row.fields self))
    /\ deserialize stored = Raise e.
Proof.
  revert out; induction names as [|i names IH]; intros out Hin Hc;
    simpl in Hc; [discriminate|].
  unfold Row.lookup in Hc.
  destruct (PyDict.get (Row.fields self) i) as [stored|] eqn:Hg.
  - simpl in Hc. destruct (deserialize stored) as [v|e'] eqn:Hd; simpl in Hc.
    + apply (IH _ (fun j Hj => Hin j (or_intror Hj)) Hc).
    + injection Hc as <-. exists stored. split; [|exact Hd].
      clear -Hg. unfold PyDict.values.
      induction (Row.fields self) as [|[k v] d IHd]; [discriminate|].
      simpl in Hg. destruct (pystr_eqb k i).
      * injection Hg as ->. left. reflexivity.
      * right. exact (IHd Hg).
  - exfalso. apply (Hin i (or_introl eq_refl)). exact Hg.
Qed.

Lemma get_own_key {V} (d : PyDict.t V) (i : pystr) :
  In i (PyDict.keys d) -> PyDict.get d i <> None.
Proof.
  induction d as [|[k v] d IH]; simpl; [tauto|].
  intros [->|Hin].
  - rewrite pystr_eqb_refl. discriminate.
  - destruct (pystr_eqb k i); [discriminate|auto].
Qed.

(** [get('')] raises only what [deserialize] raises on a stored
    value, so never [KeyError], whatever the row stores. *)
Lemma get_empty_name_raises (row : Row.t) (e : exn) :
  Row.get [] row = Raise e ->
  exists stored,
    In stored (PyDict.values (Row.fields row))
    /\ deserialize stored = Raise e.
Proof.
  unfold Row.get; simpl.
  destruct (Row.comprehension row (PyDict.keys (Row.fields row)) [])
    as [d|e'] eqn:Hc; simpl; [discriminate|].
  intros [= <-].
  apply (comprehension_raises row (PyDict.keys (Row.fields row)) [] e');
    [|exact Hc].
  intros i. apply get_own_key.
Qed.

Lemma deserialize_no_key_error (v : pyval) (k : pystr) :
  deserialize v <> Raise (KeyError k).
Proof.
  intros H. destruct (deserialize_raises v _ H) as [[He _]|[[He|He] _]];
    discriminate He.
Qed.

Lemma get_empty_name_no_key_error (row : Row.t) (k : pystr) :
  Row.get [] row <> Raise (KeyError k).
Proof.
  intros H. destruct (get_empty_name_raises row _ H) as [stored [_ Hd]].
  exact (deserialize_no_key_error stored k Hd).
Qed.

(** C7, amended: for a field name that the row does not store, [get]
    raises [KeyError] for that name when the name is not the empty
    one; for the empty name, which asks for the whole row, [get] does
    not raise [KeyError]. *)
Theorem get_absent_raises (row : Row.t) (name : pystr) :
  PyDict.get (Row.fields row) name = None ->
  (name <> [] -> Row.get name row = Raise (KeyError name))
  /\ (name = [] -> forall k, Row.get name row <> Raise (KeyError k)).
Proof.
  intros Habsent. split.
  - intros Hname. unfold Row.get.
    destruct (pystr_eqb_spec name []) as [->|_]; [contradiction|].
    unfold Row.lookup. rewrite Habsent. reflexivity.
  - intros -> k. apply get_empty_name_no_key_error.
Qed.

Lemma get_absent_raises_witness :
  PyDict.get (Row.fields {| Row.fields := [(py "name", PInt 1)] |})
    (py "age") = None
  /\ Row.get (py "age") {| Row.fields := [(py "name", PInt 1)] |}
     = Raise (KeyError (py "age")).
Proof.
  split; [reflexivity|].
  apply (proj1 (get_absent_raises {| Row.fields := [(py "name", PInt 1)] |}
                  (py "age") eq_refl)).
  discriminate.
Defined.

(** C10: [get('')] is meant never to raise.  A row that stores the
    byte string [b'\xff'] is built without error, and [get('')] on it
    raises the [UnicodeDecodeError] that [deserialize] lets through. *)
Theorem get_empty_name_raises_on_undecodable_bytes :
  exists row,
    Row.init [(py "x", PBytes ["255"%byte])] = Ret row
    /\ Row.get [] row = Raise UnicodeDecodeError.
Proof.
  exists {| Row.fields := [(py "x", PBytes ["255"%byte])] |}.
  split; reflexivity.
Qed.

(* ------------------------------------------------------------------ *)
(** ** [Table.find] *)

Lemma firstn_prefix {A} (n : nat) (l : list A) :
  exists rest, l = firstn n l ++ rest.
Proof. exists (skipn n l). symmetry. apply firstn_skipn. Qed.

Lemma find_incl (self : Table.t) condition amount row :
  In row (Table.find condition amount self) ->
  condition row = true /\ In row (Table._rows self).
Proof.
  unfold Table.find. intros Hin.
  assert (Hm : In row (filter condition (Table._rows self))).
  { destruct (amount >? 0)%Z; [|exact Hin].
    rewrite <- (firstn_skipn (Z.to_nat amount)). apply in_or_app. auto. }
  apply filter_In in Hm. tauto.
Qed.

(** C8: [find] returns the rows that satisfy the condition, in the
    order of the table: all of them for the amount 0, the first
    [amount] of them for a positive amount; with five matching rows
    and the amount 2 these are the first two. *)
Theorem find_returns_first_matches
  (self : Table.t) (condition : Row.t -> bool) (amount : Z) :
  let matches := filter condition (Table._rows self) in
  let found := Table.find condition amount self in
  ((0 < amount)%Z -> found = firstn (Z.to_nat amount) matches)
  /\ (amount = 0%Z -> found = matches)
  /\ (exists rest, matches = found ++ rest)
  /\ Forall (fun row => condition row = true /\ In row (Table._rows self))
       found
  /\ (forall r1 r2 r3 r4 r5,
         matches = [r1; r2; r3; r4; r5] ->
         Table.find condition 2 self = [r1; r2]).
Proof.
  cbv zeta. repeat split.
  - intros Hpos. unfold Table.find.
    destruct (Z.gtb_spec amount 0); [reflexivity|lia].
  - intros ->. reflexivity.
  - unfold Table.find. destruct (amount >? 0)%Z.
    + apply firstn_prefix.
    + exists []. symmetry. apply app_nil_r.
  - apply Forall_forall. intros row. apply find_incl.
  - intros r1 r2 r3 r4 r5 Hm. unfold Table.find. rewrite Hm. reflexivity.
Qed.

Lemma find_returns_first_matches_witness :
  let row n := {| Row.fields := [(py "n", PInt n)] |} in
  let numbers :=
    {| Table.name := py "numbers";
       Table._fields := [{| Field.name := py "n"; Field.data_type := TInt |}];
       Table._rows := [row 1; row (-1); row 2; row 3; row 4; row (-2); row 5]
    |}%Z in
  let positive r :=
    match Row.get (py "n") r with
    | Ret (PInt z) => (0 <? z)%Z
    | _ => false
    end in
  filter positive (Table._rows numbers) = [row 1; row 2; row 3; row 4; row 5]%Z
  /\ Table.find positive 2 numbers = [row 1; row 2]%Z.
Proof.
  cbv zeta. split; [reflexivity|].
  refine (proj2 (proj2 (proj2 (proj2
            (find_returns_first_matches _ _ 2%Z)))) _ _ _ _ _ _).
  reflexivity.
Defined.

(* ------------------------------------------------------------------ *)
(** ** [Table.delete_fields] *)

Lemma name_in_In (n : pystr) (names : list pystr) :
  Table.name_in n names = true <-> In n names.
Proof.
  unfold Table.name_in. rewrite existsb_exists. split.
  - intros [x [Hin Heq]]. apply pystr_eqb_eq in Heq. subst; exact Hin.
  - intros Hin. exists n. split; [exact Hin|apply pystr_eqb_refl].
Qed.

Lemma get_del {V} (d : PyDict.t V) (k k' : pystr) :
  PyDict.get (PyDict.del d k) k'
  = if pystr_eqb k k' then None else PyDict.get d k'.
Proof.
  unfold PyDict.del.
  induction d as [|[k0 v] d IH]; simpl.
  - destruct (pystr_eqb k k'); reflexivity.
  - destruct (pystr_eqb_spec k0 k) as [->|Hk0]; simpl.
    + rewrite IH. destruct (pystr_eqb k k'); reflexivity.
    + rewrite IH.
      destruct (pystr_eqb_spec k0 k') as [->|Hk0']; [|reflexivity].
      destruct (pystr_eqb_spec k k'); [congruence|reflexivity].
Qed.

Lemma contains_get {V} (d : PyDict.t V) (k : pystr) :
  PyDict.contains d k = false <-> PyDict.get d k = None.
Proof.
  unfold PyDict.contains.
  induction d as [|[k0 v] d IH]; simpl; [tauto|].
  destruct (pystr_eqb k0 k); simpl; [split; discriminate|exact IH].
Qed.

Lemma get_keys {V} (d : PyDict.t V) (k : pystr) :
  PyDict.get d k = None <-> ~ In k (PyDict.keys d).
Proof.
  induction d as [|[k0 v] d IH]; simpl; [tauto|].
  destruct (pystr_eqb_spec k0 k) as [->|Hk].
  - split; [discriminate|intros H; exfalso; apply H; auto].
  - rewrite IH. tauto.
Qed.

Lemma pystr_eqb_sym (a b : pystr) : pystr_eqb a b = pystr_eqb b a.
Proof.
  destruct (pystr_eqb_spec a b) as [->|Hab].
  - symmetry. apply pystr_eqb_refl.
  - symmetry. apply pystr_eqb_neq. congruence.
Qed.

(** What a row stores after the inner loop of [delete_fields]. *)
Lemma get_delete_keys (field_names : list pystr) (row : Row.t) (k : pystr) :
  PyDict.get (Row.fields (Table.delete_keys field_names row)) k
  = if Table.name_in k field_names then None
    else PyDict.get (Row.fields row) k.
Proof.
  revert row; induction field_names as [|n names IH]; intros row;
    [reflexivity|].
  simpl Table.delete_keys. rewrite IH. simpl Table.name_in.
  destruct (Table.name_in k names) eqn:Hin.
  - rewrite orb_true_r. reflexivity.
  - rewrite orb_false_r.
    destruct (PyDict.contains (Row.fields row) n) eqn:Hc; simpl.
    + rewrite get_del. rewrite (pystr_eqb_sym k n). reflexivity.
    + destruct (pystr_eqb_spec k n) as [->|Hkn]; [|reflexivity].
      apply contains_get. exact Hc.
Qed.

Lemma keys_set {V} (d : PyDict.t V) (i : pystr) (v : V) (k : pystr) :
  In k (PyDict.keys (PyDict.set d i v)) <-> k = i \/ In k (PyDict.keys d).
Proof.
  induction d as [|[k0 v0] d IH]; simpl.
  - intuition congruence.
  - destruct (pystr_eqb_spec k0 i) as [->|Hk0]; simpl.
    + intuition congruence.
    + rewrite IH. intuition congruence.
Qed.

Lemma comprehension_keys (self : Row.t) names out d (k : pystr) :
  Row.comprehension self names out = Ret d ->
  In k (PyDict.keys d) <-> In k names \/ In k (PyDict.keys out).
Proof.
  revert out; induction names as [|i names IH]; intros out Hc; simpl in Hc.
  - injection Hc as <-. simpl. tauto.
  - destruct (Row.lookup self i) as [stored|]; simpl in Hc; [|discriminate].
    destruct (deserialize stored) as [v|]; simpl in Hc; [|discriminate].
    rewrite (IH _ Hc), keys_set. simpl. intuition congruence.
Qed.

(** The mapping [get('')] returns has exactly the names the row
    stores. *)
Lemma get_empty_name_keys (row : Row.t) (d : list (pyval * pyval)) :
  Row.get [] row = Ret (PDict d) ->
  forall n, In (PStr n) (map fst d) <-> In n (PyDict.keys (Row.fields row)).
Proof.
  unfold Row.get; simpl.
  destruct (Row.comprehension row (PyDict.keys (Row.fields row)) [])
    as [d0|] eqn:Hc; simpl; [|discriminate].
  intros [= <-] n. rewrite map_map; simpl.
  pose proof (comprehension_keys row _ [] d0 n Hc) as Hk.
  unfold PyDict.keys in *. split.
  - intros Hin. apply in_map_iff in Hin.
    destruct Hin as [kv [[= Hkv] Hin]].
    assert (Hn : In n (map fst d0))
      by (apply in_map_iff; exists kv; auto).
    apply Hk in Hn. destruct Hn as [Hn|[]]. exact Hn.
  - intros Hin. assert (Hn : In n (map fst d0)) by (apply Hk; auto).
    apply in_map_iff in Hn. destruct Hn as [kv [Hkv Hn]].
    apply in_map_iff. exists kv. subst n. auto.
Qed.

Lemma filter_all {A} (f : A -> bool) (l : list A) :
  (forall x, In x l -> f x = true) -> filter f l = l.
Proof.
  induction l as [|x l IH]; intros H; simpl; [reflexivity|].
  rewrite (H x (or_introl eq_refl)), IH; [reflexivity|].
  intros y Hy. apply H. right. exact Hy.
Qed.

Lemma delete_keys_absent (field_names : list pystr) (row : Row.t) :
  (forall n, In n field_names ->
             PyDict.contains (Row.fields row) n = false) ->
  Table.delete_keys field_names row = row.
Proof.
  induction field_names as [|n names IH]; intros H; [reflexivity|].
  simpl. rewrite (H n (or_introl eq_refl)). apply IH.
  intros m Hm. apply H. right. exact Hm.
Qed.

(** C9: [delete_fields] keeps exactly the fields whose name is not
    listed and removes every listed name from every row, whatever the
    names (it has no failing case, and names that occur nowhere change
    nothing); afterwards no row that [find] returns has a listed name
    in the mapping [get('')] gives. *)
Theorem delete_fields_removes (self : Table.t) (field_names : list pystr) :
  let after := Table.delete_fields field_names self in
  (forall field,
      In field (Table._fields after) <->
      In field (Table._fields self) /\ ~ In (Field.name field) field_names)
  /\ (Table._rows after
      = map (Table.delete_keys field_names) (Table._rows self)
      /\ forall row k,
          PyDict.get (Row.fields (Table.delete_keys field_names row)) k
          = if Table.name_in k field_names then None
            else PyDict.get (Row.fields row) k)
  /\ (forall condition amount row n,
         In row (Table.find condition amount after) ->
         In n field_names ->
         ~ In n (PyDict.keys (Row.fields row))
         /\ forall d, Row.get [] row = Ret (PDict d) ->
                      ~ In (PStr n) (map fst d))
  /\ ((forall n, In n field_names ->
         (forall field, In field (Table._fields self) ->
                        Field.name field <> n)
         /\ (forall row, In row (Table._rows self) ->
                         PyDict.contains (Row.fields row) n = false)) ->
      after = self).
Proof.
  cbv zeta. repeat split.
  - simpl in H. apply filter_In in H. tauto.
  - simpl in H. apply filter_In in H. destruct H as [_ H].
    intros Hin. apply name_in_In in Hin. rewrite Hin in H. discriminate.
  - intros [Hin Hnot]. simpl. apply filter_In. split; [exact Hin|].
    destruct (Table.name_in (Field.name field) field_names) eqn:Hn;
      [|reflexivity].
    apply name_in_In in Hn. contradiction.
  - intros row k. apply get_delete_keys.
  - apply find_incl in H. destruct H as [_ H]. simpl in H.
    apply in_map_iff in H. destruct H as [row0 [<- _]].
    apply get_keys. rewrite get_delete_keys.
    apply name_in_In in H0. rewrite H0. reflexivity.
  - intros d Hd Hin. apply (get_empty_name_keys row d Hd) in Hin.
    apply find_incl in H. destruct H as [_ H]. simpl in H.
    apply in_map_iff in H. destruct H as [row0 [<- _]].
    revert Hin. apply get_keys. rewrite get_delete_keys.
    apply name_in_In in H0. rewrite H0. reflexivity.
  - intros Hnone. unfold Table.delete_fields.
    rewrite filter_all.
    + replace (map (Table.delete_keys field_names) (Table._rows self))
        with (Table._rows self); [destruct self; reflexivity|].
      symmetry. rewrite <- (map_id (Table._rows self)) at 2.
      apply map_ext_in. intros row Hrow. apply delete_keys_absent.
      intros n Hn. apply (proj2 (Hnone n Hn) row Hrow).
    + intros field Hfield.
      destruct (Table.name_in (Field.name field) field_names) eqn:Hn;
        [|reflexivity].
      apply name_in_In in Hn.
      exfalso. apply (proj1 (Hnone _ Hn) field Hfield). reflexivity.
Qed.

Lemma delete_fields_removes_witness :
  let users :=
    {| Table.name := py "users";
       Table._fields := [{| Field.name := py "name"; Field.data_type := TStr |};
                         {| Field.name := py "age"; Field.data_type := TInt |}];
       Table._rows := [{| Row.fields := [(py "name", PStr (py "Alice"));
                                         (py "age", PInt 30)] |}] |} in
  let row := {| Row.fields := [(py "name", PStr (py "Alice"))] |} in
  In row (Table.find (fun _ => true) 0
            (Table.delete_fields [py "age"; py "height"] users))
  /\ In (py "age") [py "age"; py "height"]
  /\ ~ In (py "age") (PyDict.keys (Row.fields row))
  /\ forall d, Row.get [] row = Ret (PDict d) ->
               ~ In (PStr (py "age")) (map fst d).
Proof.
  cbv zeta.
  assert (H1 : In {| Row.fields := [(py "name", PStr (py "Alice"))] |}
                 (Table.find (fun _ => true) 0
                    (Table.delete_fields [py "age"; py "height"]
                       {| Table.name := py "users";
                          Table._fields :=
                            [{| Field.name := py "name";
                                Field.data_type := TStr |};
                             {| Field.name := py "age";
                                Field.data_type := TInt |}];
                          Table._rows :=
                            [{| Row.fields :=
                                  [(py "name", PStr (py "Alice"));
                                   (py "age", PInt 30)] |}] |})))
    by (left; reflexivity).
  assert (H2 : In (py "age") [py "age"; py "height"]) by (left; reflexivity).
  split; [exact H1|]. split; [exact H2|].
  exact (proj1 (proj2 (proj2 (delete_fields_removes _ _))) _ _ _ _ H1 H2).
Defined.

(* ------------------------------------------------------------------ *)
(** ** Scalars through the codec *)

(** C4: [deserialize] is meant to return every scalar, parsed when
    it is text that is valid JSON and as it is otherwise.  The text
    of 4301 digits is a scalar that [serialize] returns as it is; it
    is valid JSON, but [json.loads] reads an integer with [int],
    which raises [ValueError] beyond 4300 digits.  That error is no
    [JSONDecodeError], so it leaves [deserialize]. *)
Theorem deserialize_raises_on_long_digits :
  let text := PStr (repeat 49%N 4301%nat) in
  scalar text
  /\ serialize text = Ret text
  /\ deserialize text = Raise (ValueError IntMaxStrDigits).
Proof.
  cbv zeta. split; [exact I|]. split; [reflexivity|].
  vm_compute. reflexivity.
Qed.

(** With one digit less the text is read as the integer. *)
Example deserialize_reads_4300_digits :
  exists z, deserialize (PStr (repeat 49%N 4300%nat)) = Ret (PInt z).
Proof. eexists. vm_compute. reflexivity. Qed.

(** Text that is not JSON comes back as it is; text that is JSON, be it
    of a number, comes back parsed. *)
Example deserialize_plain_text :
  deserialize (PStr (py "Alice")) = Ret (PStr (py "Alice")).
Proof. reflexivity. Qed.

Example deserialize_numeric_text :
  deserialize (PStr (py "123")) = Ret (PInt 123).
Proof. reflexivity. Qed.

(* ------------------------------------------------------------------ *)
(** ** [save] then [load] *)

(** C1: [save] followed by [load] is meant to give the database back.
    With the text ['123'] in a field of type [str], [save] writes the
    text to a TEXT column, and [load] decodes every fetched value
    before [add_row] checks it against the inferred type: the text
    has become the integer 123, and [add_row] refuses it. *)
Theorem save_load_rejects_numeric_text :
  let fresh := Database.init (py "app.db") in
  let created := Database.create (py "users") [(py "name", TStr)] fresh in
  let added :=
    Database.on_table (py "users")
      (Table.add_row [(py "name", PStr (py "123"))]) (fst created) in
  snd added = Ret tt
  /\ exists file,
      Database.save (fst added) [] = Ret file
      /\ snd (Database.load file fresh)
         = Raise (ValueError (TypeMismatch (py "name"))).
Proof.
  cbv zeta. split; [reflexivity|].
  eexists. split; reflexivity.
Qed.

(** The same database with a name that is not JSON text goes through:
    [load] rebuilds the table with its row. *)
Example save_load_plain_text :
  let fresh := Database.init (py "app.db") in
  let created := Database.create (py "users") [(py "name", TStr)] fresh in
  let added :=
    Database.on_table (py "users")
      (Table.add_row [(py "name", PStr (py "Alice"))]) (fst created) in
  exists file,
    Database.save (fst added) [] = Ret file
    /\ Database.load file fresh = (fst added, Ret tt).
Proof.
  cbv zeta. eexists. split; reflexivity.
Qed.

(* ------------------------------------------------------------------ *)
(** ** JSON text

    What [json.dumps] writes for a native value, [json.loads] reads
    back as the same value. *)

Local Open Scope N_scope.

(** ** Decimal digits *)

(** [lia] after naming the quotient and the remainder by ten. *)
Ltac abstract_divmod n :=
  let q := fresh "q" in
  let m := fresh "m" in
  set (q := n / 10) in *; set (m := n mod 10) in *;
  clearbody q m; lia.

Lemma N_of_digits_snoc (ds : list codepoint) (d : codepoint) :
  N_of_digits (ds ++ [d]) = 10 * N_of_digits ds + (d - 48).
Proof. unfold N_of_digits. rewrite fold_left_app. reflexivity. Qed.

Lemma digits_aux_acc (fuel : nat) (n : N) (acc : list codepoint) :
  digits_of_N_aux fuel n acc = digits_of_N_aux fuel n [] ++ acc.
Proof.
  revert n acc; induction fuel as [|fuel IH]; intros n acc; [reflexivity|].
  simpl. destruct (n / 10 =? 0); [reflexivity|].
  rewrite IH, (IH _ [_]), <- app_assoc. reflexivity.
Qed.

Lemma digits_aux_step (fuel : nat) (n : N) :
  digits_of_N_aux (S fuel) n []
  = (if n / 10 =? 0 then [] else digits_of_N_aux fuel (n / 10) [])
      ++ [48 + n mod 10].
Proof.
  simpl. destruct (n / 10 =? 0); [reflexivity|]. apply digits_aux_acc.
Qed.

Lemma tenth_lt (fuel : nat) (n : N) :
  n < 2 ^ N.of_nat (S fuel) -> n / 10 < 2 ^ N.of_nat fuel.
Proof.
  rewrite Nat2N.inj_succ, N.pow_succ_r'. intros H.
  apply N.Div0.div_lt_upper_bound. lia.
Qed.

Lemma digits_aux_value (fuel : nat) (n : N) :
  n < 2 ^ N.of_nat fuel -> N_of_digits (digits_of_N_aux fuel n []) = n.
Proof.
  revert n; induction fuel as [|fuel IH]; intros n Hn.
  - change (2 ^ N.of_nat 0) with 1 in Hn. change (0 = n). lia.
  - rewrite digits_aux_step, N_of_digits_snoc.
    pose proof (N.div_mod n 10 ltac:(lia)) as Hdm.
    destruct (N.eqb_spec (n / 10) 0) as [Hz|Hz].
    + change (N_of_digits []) with 0. abstract_divmod n.
    + rewrite (IH _ (tenth_lt fuel n Hn)). abstract_divmod n.
Qed.

Lemma digits_aux_are_digits (fuel : nat) (n : N) :
  Forall (fun c => is_digit c = true) (digits_of_N_aux fuel n []).
Proof.
  revert n; induction fuel as [|fuel IH]; intros n; [constructor|].
  rewrite digits_aux_step. apply Forall_app. split.
  - destruct (n / 10 =? 0); [constructor|apply IH].
  - constructor; [|constructor]. unfold is_digit.
    pose proof (N.mod_upper_bound n 10 ltac:(lia)).
    apply andb_true_intro; split; apply N.leb_le; abstract_divmod n.
Qed.

Lemma digits_aux_head (fuel : nat) (n : N) :
  0 < n -> n < 2 ^ N.of_nat fuel ->
  exists c ds, digits_of_N_aux fuel n [] = c :: ds
               /\ is_digit c = true /\ c <> 48.
Proof.
  revert n; induction fuel as [|fuel IH]; intros n Hpos Hn.
  - change (2 ^ N.of_nat 0) with 1 in Hn. lia.
  - rewrite digits_aux_step.
    pose proof (N.div_mod n 10 ltac:(lia)) as Hdm.
    pose proof (N.mod_upper_bound n 10 ltac:(lia)) as Hm.
    destruct (N.eqb_spec (n / 10) 0) as [Hz|Hz].
    + exists (48 + n mod 10), []. split; [reflexivity|].
      split; [|abstract_divmod n].
      unfold is_digit.
      apply andb_true_intro; split; apply N.leb_le; abstract_divmod n.
    + destruct (IH (n / 10) ltac:(lia) (tenth_lt fuel n Hn))
        as [c [ds [Heq [Hd Hc]]]].
      exists c, (ds ++ [48 + n mod 10]). rewrite Heq. auto.
Qed.

Lemma digits_fuel (n : N) : n < 2 ^ N.of_nat (S (N.to_nat (N.log2 n))).
Proof.
  rewrite Nat2N.inj_succ, N2Nat.id.
  destruct n as [|p]; [reflexivity|].
  apply N.log2_spec. reflexivity.
Qed.

Lemma digits_of_N_value (n : N) : N_of_digits (digits_of_N n) = n.
Proof. apply digits_aux_value, digits_fuel. Qed.

Lemma digits_of_N_are_digits (n : N) :
  Forall (fun c => is_digit c = true) (digits_of_N n).
Proof. apply digits_aux_are_digits. Qed.

Lemma digits_of_N_head (n : N) :
  0 < n ->
  exists c ds, digits_of_N n = c :: ds /\ is_digit c = true /\ c <> 48.
Proof. intros H. apply digits_aux_head; [exact H|apply digits_fuel]. Qed.

(** ** Escapes *)

Lemma hex_value_hex_digit (d : N) :
  d < 16 -> hex_value (hex_digit d) = Some d.
Proof.
  intros Hd. unfold hex_digit, hex_value.
  destruct (N.ltb_spec d 10) as [Hlt|Hge].
  - destruct (N.leb_spec 48 (48 + d)); [|lia].
    destruct (N.leb_spec (48 + d) 57); [|lia].
    cbn [andb]. f_equal. lia.
  - destruct (N.leb_spec 48 (87 + d)); [|lia].
    destruct (N.leb_spec (87 + d) 57); [lia|].
    destruct (N.leb_spec 97 (87 + d)); [|lia].
    destruct (N.leb_spec (87 + d) 102); [|lia].
    cbn [andb]. f_equal. lia.
Qed.

Lemma hex_digits_value (c : N) :
  c < 65536 ->
  (((N.shiftr c 12 mod 16) * 16 + N.shiftr c 8 mod 16) * 16
   + N.shiftr c 4 mod 16) * 16 + c mod 16 = c.
Proof.
  intros Hc. rewrite !N.shiftr_div_pow2.
  change (2 ^ 12) with (16 * (16 * 16)). change (2 ^ 8) with (16 * 16).
  change (2 ^ 4) with 16.
  rewrite <- !N.Div0.div_div.
  set (a := c / 16). set (b := a / 16). set (d := b / 16).
  pose proof (N.div_mod c 16 ltac:(lia)) as H0.
  pose proof (N.div_mod a 16 ltac:(lia)) as H1.
  pose proof (N.div_mod b 16 ltac:(lia)) as H2.
  pose proof (N.mod_upper_bound c 16 ltac:(lia)) as B0.
  pose proof (N.mod_upper_bound a 16 ltac:(lia)) as B1.
  pose proof (N.mod_upper_bound b 16 ltac:(lia)) as B2.
  fold a in H0. fold b in H1. fold d in H2.
  assert (Hd : d < 16).
  { unfold d, b, a. rewrite !N.Div0.div_div.
    apply N.Div0.div_lt_upper_bound. lia. }
  rewrite (N.mod_small d 16 Hd).
  set (m0 := c mod 16) in *. set (m1 := a mod 16) in *.
  set (m2 := b mod 16) in *. clearbody m0 m1 m2 a b d. lia.
Qed.

Lemma hex4_value_hex4 (c : N) :
  c < 65536 ->
  match hex4 c with
  | [h1; h2; h3; h4] => hex4_value h1 h2 h3 h4 = Some c
  | _ => False
  end.
Proof.
  intros Hc. unfold hex4, hex4_value.
  rewrite !hex_value_hex_digit
    by (apply N.mod_upper_bound; discriminate).
  f_equal. apply hex_digits_value. exact Hc.
Qed.

Lemma lor_disjoint (a b k : N) :
  b < 2 ^ k -> N.lor (a * 2 ^ k) b = a * 2 ^ k + b.
Proof.
  intros Hb.
  assert (Hland : N.land (a * 2 ^ k) b = 0).
  { apply N.bits_inj. intros m. rewrite N.land_spec, N.bits_0.
    destruct (N.ltb_spec m k) as [Hm|Hm].
    - rewrite N.mul_pow2_bits_low by exact Hm. reflexivity.
    - destruct (N.eq_dec b 0) as [->|Hb0].
      + rewrite N.bits_0. apply andb_false_r.
      + rewrite (N.bits_above_log2 b m), andb_false_r; [reflexivity|].
        apply N.log2_lt_pow2 in Hb; lia. }
  rewrite (N.add_nocarry_lxor _ _ Hland). symmetry.
  apply N.lxor_lor. exact Hland.
Qed.

(** The two halves [escape_char] writes for a code point above the
    basic plane, and their join. *)
Lemma surrogate_halves (c : N) :
  65536 <= c -> c < 1114112 ->
  let n := c - 65536 in
  let s1 := N.lor 55296 (N.land (N.shiftr n 10) 1023) in
  let s2 := N.lor 56320 (N.land n 1023) in
  s1 < 65536 /\ s2 < 65536
  /\ is_high_surrogate s1 = true /\ is_low_surrogate s2 = true
  /\ Json.join_surrogates s1 s2 = c.
Proof.
  intros Hlo Hhi. cbv zeta.
  set (n := c - 65536).
  assert (Hn : n < 1048576) by (unfold n; lia).
  change 1023 with (N.ones 10). rewrite !N.land_ones, N.shiftr_div_pow2.
  change (2 ^ 10) with 1024.
  pose proof (N.div_mod n 1024 ltac:(lia)) as Hdm.
  pose proof (N.mod_upper_bound n 1024 ltac:(lia)) as Hm.
  assert (Hq : n / 1024 < 1024)
    by (apply N.Div0.div_lt_upper_bound; lia).
  rewrite (N.mod_small (n / 1024) 1024 Hq).
  set (q := n / 1024) in *. set (m := n mod 1024) in *.
  change 55296 with (54 * 2 ^ 10). change 56320 with (55 * 2 ^ 10).
  rewrite !lor_disjoint by assumption.
  change (2 ^ 10) with 1024.
  unfold is_high_surrogate, is_low_surrogate, Json.join_surrogates.
  replace (54 * 1024 + q - 55296) with q by lia.
  replace (55 * 1024 + m - 56320) with m by lia.
  rewrite N.shiftl_mul_pow2. rewrite lor_disjoint by assumption.
  change (2 ^ 10) with 1024.
  clearbody q m. unfold n in Hdm.
  repeat split; try (apply andb_true_intro; split; apply N.leb_le); lia.
Qed.

(** ** Strings *)

Local Arguments hex4_value : simpl never.
Local Arguments is_high_surrogate : simpl never.
Local Arguments is_low_surrogate : simpl never.
Local Arguments Json.join_surrogates : simpl never.
Local Arguments N.eqb : simpl nomatch.
Local Arguments N.leb : simpl nomatch.

Lemma scalar_not_high (c : N) :
  is_scalar_value c = true -> c < 65536 -> is_high_surrogate c = false.
Proof.
  unfold is_scalar_value, is_high_surrogate. intros H _.
  apply andb_true_iff in H. destruct H as [_ H].
  apply negb_true_iff, andb_false_iff in H.
  apply andb_false_iff.
  destruct H as [H|H]; [left; exact H|].
  right. apply N.leb_gt in H. apply N.leb_gt. lia.
Qed.

Lemma scanstring_plain (c : N) (tail : pystr) :
  c <> 34 -> c <> 92 -> 31 < c ->
  Json.scanstring (c :: tail) = Json.cons_char c (Json.scanstring tail).
Proof.
  intros H1 H2 H3. cbn [Json.scanstring].
  destruct (N.eqb_spec c 34); [contradiction|].
  destruct (N.eqb_spec c 92); [contradiction|].
  destruct (N.leb_spec c 31); [lia|reflexivity].
Qed.

Lemma scanstring_hex (c : N) (tail : pystr) :
  c < 65536 -> is_high_surrogate c = false ->
  Json.scanstring (92 :: 117 :: hex4 c ++ tail)
  = Json.cons_char c (Json.scanstring tail).
Proof.
  intros Hc Hs. pose proof (hex4_value_hex4 c Hc) as Hv.
  destruct (hex4 c) as [|h1 [|h2 [|h3 [|h4 [|]]]]]; try contradiction.
  simpl. rewrite Hv, Hs. reflexivity.
Qed.

Lemma scanstring_pair (s1 s2 : N) (tail : pystr) :
  s1 < 65536 -> s2 < 65536 ->
  is_high_surrogate s1 = true -> is_low_surrogate s2 = true ->
  Json.scanstring ((92 :: 117 :: hex4 s1) ++ (92 :: 117 :: hex4 s2) ++ tail)
  = Json.cons_char (Json.join_surrogates s1 s2) (Json.scanstring tail).
Proof.
  intros H1 H2 Hh Hl.
  pose proof (hex4_value_hex4 s1 H1) as Hv1.
  pose proof (hex4_value_hex4 s2 H2) as Hv2.
  destruct (hex4 s1) as [|h1 [|h2 [|h3 [|h4 [|]]]]]; try contradiction.
  destruct (hex4 s2) as [|g1 [|g2 [|g3 [|g4 [|]]]]]; try contradiction.
  simpl. rewrite Hv1, Hh, Hv2, Hl. reflexivity.
Qed.

(** Scanning what [escape_char] wrote for a character gives the
    character back. *)
Lemma scanstring_escape_char (c : N) (tail : pystr) :
  is_scalar_value c = true ->
  Json.scanstring (Json.escape_char c ++ tail)
  = Json.cons_char c (Json.scanstring tail).
Proof.
  intros Hs. unfold Json.escape_char.
  destruct (N.eqb_spec c 34) as [->|H34]; [reflexivity|].
  destruct (N.eqb_spec c 92) as [->|H92]; [reflexivity|].
  destruct (N.eqb_spec c 10) as [->|H10]; [reflexivity|].
  destruct (N.eqb_spec c 13) as [->|H13]; [reflexivity|].
  destruct (N.eqb_spec c 9) as [->|H9]; [reflexivity|].
  destruct (N.eqb_spec c 8) as [->|H8]; [reflexivity|].
  destruct (N.eqb_spec c 12) as [->|H12]; [reflexivity|].
  destruct (N.leb_spec 32 c) as [Hlo|Hlo]; simpl andb.
  - destruct (N.leb_spec c 126) as [Hhi|Hhi].
    + apply scanstring_plain; lia.
    + destruct (N.ltb_spec c 65536) as [Hb|Hb].
      * apply scanstring_hex; [exact Hb|apply scalar_not_high; assumption].
      * assert (Hr : c < 1114112).
        { unfold is_scalar_value in Hs. apply andb_true_iff in Hs.
          apply N.ltb_lt. tauto. }
        destruct (surrogate_halves c Hb Hr) as [A [B [C [D E]]]].
        cbv zeta in *. rewrite <- E at 3.
        apply scanstring_pair; assumption.
  - destruct (N.ltb_spec c 65536) as [Hb|Hb]; [|lia].
    apply scanstring_hex; [exact Hb|apply scalar_not_high; assumption].
Qed.

Lemma scanstring_escaped (s : pystr) (rest : pystr) :
  valid_text s ->
  Json.scanstring (flat_map Json.escape_char s ++ 34 :: rest) = Some (s, rest).
Proof.
  induction 1 as [|c s Hc Hs IH]; [reflexivity|].
  simpl flat_map. rewrite <- app_assoc, scanstring_escape_char by exact Hc.
  rewrite IH. reflexivity.
Qed.

(** A quoted string scans back, whatever follows it. *)
Lemma scan_string (s : pystr) (fuel room : nat) (rest : pystr) :
  valid_text s ->
  Json.scan_once (S fuel) room (Json.encode_basestring_ascii s ++ rest)
  = Json.Scanned (PStr s) rest.
Proof.
  intros Hs. unfold Json.encode_basestring_ascii.
  simpl app. rewrite <- app_assoc. simpl app.
  cbn [Json.scan_once]. change (34 =? 34) with true. cbv iota.
  rewrite scanstring_escaped by exact Hs. reflexivity.
Qed.

(** ** Numbers *)

Lemma delimited_nondigit (rest : pystr) : delimited rest -> nondigit_start rest.
Proof.
  destruct rest as [|c rest]; [trivial|].
  intros [->|[->| ->]]; reflexivity.
Qed.

Lemma span_digits_app (s ds r rest : pystr) :
  Json.span_digits s = (ds, r) -> nondigit_start rest ->
  Json.span_digits (s ++ rest) = (ds, r ++ rest).
Proof.
  revert ds r; induction s as [|c s IH]; intros ds r Hs Hrest.
  - injection Hs as <- <-. destruct rest as [|c rest]; [reflexivity|].
    simpl in *. rewrite Hrest. reflexivity.
  - simpl in *. destruct (is_digit c).
    + destruct (Json.span_digits s) as [ds' r'].
      injection Hs as <- <-. rewrite (IH ds' r' eq_refl Hrest). reflexivity.
    + injection Hs as <- <-. reflexivity.
Qed.

Lemma span_digits_all (ds rest : pystr) :
  Forall (fun c => is_digit c = true) ds -> nondigit_start rest ->
  Json.span_digits (ds ++ rest) = (ds, rest).
Proof.
  intros Hds Hrest. induction Hds as [|c ds Hc Hds IH].
  - destruct rest as [|c rest]; [reflexivity|].
    simpl in *. rewrite Hrest. reflexivity.
  - simpl. rewrite Hc, IH. reflexivity.
Qed.

Lemma lex_integer_app (s ds r rest : pystr) :
  Json.lex_integer s = Some (ds, r) -> nondigit_start rest ->
  Json.lex_integer (s ++ rest) = Some (ds, r ++ rest).
Proof.
  destruct s as [|c s]; [discriminate|]. unfold Json.lex_integer.
  cbn [app].
  destruct (c =? 48).
  - intros [= <- <-] _. reflexivity.
  - destruct (is_digit c); [|discriminate].
    intros [= Hs] Hrest. f_equal.
    apply (span_digits_app (c :: s)); assumption.
Qed.

Lemma lex_fraction_app (s fs r rest : pystr) :
  Json.lex_fraction s = (fs, r) -> delimited rest ->
  Json.lex_fraction (s ++ rest) = (fs, r ++ rest).
Proof.
  intros Hs Hrest. pose proof (delimited_nondigit rest Hrest) as Hnd.
  destruct s as [|dot [|d s]].
  - injection Hs as <- <-. simpl.
    destruct rest as [|c [|c' rest]]; try reflexivity.
    unfold Json.lex_fraction.
    destruct Hrest as [->|[->| ->]]; reflexivity.
  - injection Hs as <- <-. simpl.
    destruct rest as [|c rest]; [reflexivity|].
    unfold Json.lex_fraction. simpl in Hnd. rewrite Hnd, andb_false_r.
    reflexivity.
  - unfold Json.lex_fraction in *. cbn [app].
    destruct ((dot =? 46) && is_digit d).
    + simpl tl in *. apply (span_digits_app (d :: s)); assumption.
    + injection Hs as <- <-. reflexivity.
Qed.

Lemma lex_exponent_app (s : pystr) ex (r rest : pystr) :
  Json.lex_exponent s = (ex, r) -> delimited rest ->
  Json.lex_exponent (s ++ rest) = (ex, r ++ rest).
Proof.
  intros Hs Hrest. pose proof (delimited_nondigit rest Hrest) as Hnd.
  destruct s as [|e t].
  - injection Hs as <- <-. simpl.
    destruct rest as [|c rest]; [reflexivity|].
    unfold Json.lex_exponent.
    destruct Hrest as [->|[->| ->]]; reflexivity.
  - unfold Json.lex_exponent in *. cbn [app].
    destruct ((e =? 101) || (e =? 69)); [|injection Hs as <- <-; reflexivity].
    destruct t as [|sg t'].
    + simpl in Hs. injection Hs as <- <-. simpl app.
      assert (Hsp : Json.span_digits rest = ([], rest))
        by (apply (span_digits_all [] rest); [constructor|exact Hnd]).
      destruct rest as [|c rest]; [reflexivity|].
      destruct Hrest as [->|[->| ->]]; simpl; reflexivity.
    + cbn [app].
      destruct (sg =? 45).
      * destruct (Json.span_digits t') as [ds' r'] eqn:Hsp.
        rewrite (span_digits_app t' ds' r' rest Hsp Hnd).
        destruct ds'; injection Hs as <- <-; reflexivity.
      * destruct (sg =? 43).
        -- destruct (Json.span_digits t') as [ds' r'] eqn:Hsp.
           rewrite (span_digits_app t' ds' r' rest Hsp Hnd).
           destruct ds'; injection Hs as <- <-; reflexivity.
        -- destruct (Json.span_digits (sg :: t')) as [ds' r'] eqn:Hsp.
           pose proof (span_digits_app (sg :: t') ds' r' rest Hsp Hnd) as Hx.
           cbn [app] in Hx. rewrite Hx.
           destruct ds'; injection Hs as <- <-; reflexivity.
Qed.

Lemma lex_number_app (t : pystr) n (r rest : pystr) :
  Json.lex_number t = Some (n, r) -> delimited rest ->
  Json.lex_number (t ++ rest) = Some (n, r ++ rest).
Proof.
  intros Ht Hrest. pose proof (delimited_nondigit rest Hrest) as Hnd.
  unfold Json.lex_number in *.
  assert (Hgen : forall neg s1,
             match Json.lex_integer s1 with
             | Some (ds, s2) =>
                 let '(fs, s3) := Json.lex_fraction s2 in
                 let '(ex, s4) := Json.lex_exponent s3 in
                 Some ({| Json.negative := neg; Json.int_digits := ds;
                          Json.frac_digits := fs; Json.exponent := ex |}, s4)
             | None => None
             end = Some (n, r) ->
             match Json.lex_integer (s1 ++ rest) with
             | Some (ds, s2) =>
                 let '(fs, s3) := Json.lex_fraction s2 in
                 let '(ex, s4) := Json.lex_exponent s3 in
                 Some ({| Json.negative := neg; Json.int_digits := ds;
                          Json.frac_digits := fs; Json.exponent := ex |}, s4)
             | None => None
             end = Some (n, r ++ rest)).
  { intros neg s1 H.
    destruct (Json.lex_integer s1) as [[ds s2]|] eqn:Hi; [|discriminate].
    rewrite (lex_integer_app s1 ds s2 rest Hi Hnd).
    destruct (Json.lex_fraction s2) as [fs s3] eqn:Hf.
    rewrite (lex_fraction_app s2 fs s3 rest Hf Hrest).
    destruct (Json.lex_exponent s3) as [ex s4] eqn:He.
    rewrite (lex_exponent_app s3 ex s4 rest He Hrest).
    injection H as <- <-. reflexivity. }
  destruct t as [|c t1]; [discriminate|].
  cbn [app].
  destruct (c =? 45).
  - apply Hgen. exact Ht.
  - apply (Hgen false (c :: t1)). exact Ht.
Qed.

Lemma lex_number_none_app (t rest : pystr) :
  t <> [] -> Json.lex_number t = None -> nondigit_start rest ->
  Json.lex_number (t ++ rest) = None.
Proof.
  intros Hne Ht Hnd. unfold Json.lex_number in *.
  assert (Hint : forall s1, Json.lex_integer s1 = None ->
                            Json.lex_integer (s1 ++ rest) = None).
  { intros [|c s1].
    - intros _. destruct rest as [|c rest]; [reflexivity|].
      simpl in *. simpl in Hnd. rewrite Hnd.
      destruct (N.eqb_spec c 48) as [->|]; [discriminate Hnd|reflexivity].
    - simpl. destruct (c =? 48); [discriminate|].
      destruct (is_digit c); [discriminate|reflexivity]. }
  destruct t as [|c t1]; [contradiction|].
  cbn [app].
  destruct (c =? 45).
  - destruct (Json.lex_integer t1) as [[ds s2]|] eqn:Hi.
    + destruct (Json.lex_fraction s2), (Json.lex_exponent _). discriminate.
    + rewrite (Hint t1 Hi). reflexivity.
  - destruct (Json.lex_integer (c :: t1)) as [[ds s2]|] eqn:Hi.
    + destruct (Json.lex_fraction s2), (Json.lex_exponent _). discriminate.
    + pose proof (Hint (c :: t1) Hi) as Hx. cbn [app] in Hx.
      rewrite Hx. reflexivity.
Qed.

Lemma strip_prefix_app (p t r rest : pystr) :
  Json.strip_prefix p t = Some r ->
  Json.strip_prefix p (t ++ rest) = Some (r ++ rest).
Proof.
  revert t; induction p as [|x p IH]; intros t H.
  - injection H as <-. reflexivity.
  - destruct t as [|y t]; [discriminate|]. simpl in *.
    destruct (x =? y); [apply IH; exact H|discriminate].
Qed.

Lemma literal_app (word : string) (v w : pyval) (t r rest : pystr) :
  Json.literal word v t = Json.Scanned w r ->
  Json.literal word v (t ++ rest) = Json.Scanned w (r ++ rest).
Proof.
  unfold Json.literal.
  destruct (Json.strip_prefix (py word) t) as [r'|] eqn:Hp; [|discriminate].
  intros [= <- <-]. rewrite (strip_prefix_app _ _ _ rest Hp). reflexivity.
Qed.

(** ** Scanning a number *)

Lemma scan_once_number (c : N) (t : pystr) (fuel room : nat) :
  c <> 34 -> c <> 123 -> c <> 91 -> c <> 110 -> c <> 116 -> c <> 102 ->
  Json.scan_once (S fuel) room (c :: t)
  = match Json.lex_number (c :: t) with
    | Some (n, rest) =>
        if Json.int_too_long n
        then Json.Aborted (ValueError IntMaxStrDigits)
        else Json.Scanned (Json.number_value n) rest
    | None =>
        if c =? 78 then Json.literal "NaN" (PFloat nan) (c :: t)
        else if c =? 73 then Json.literal "Infinity" (PFloat infinity) (c :: t)
        else if c =? 45
        then Json.literal "-Infinity" (PFloat neg_infinity) (c :: t)
        else Json.Failed
    end.
Proof.
  intros. cbn [Json.scan_once].
  destruct (N.eqb_spec c 34); [contradiction|].
  destruct (N.eqb_spec c 123); [contradiction|].
  destruct (N.eqb_spec c 91); [contradiction|].
  destruct (N.eqb_spec c 110); [contradiction|].
  destruct (N.eqb_spec c 116); [contradiction|].
  destruct (N.eqb_spec c 102); [contradiction|].
  reflexivity.
Qed.

Lemma digit_range (c : N) : is_digit c = true -> 48 <= c <= 57.
Proof.
  unfold is_digit. intros H. apply andb_true_iff in H.
  destruct H as [H1 H2]. apply N.leb_le in H1, H2. lia.
Qed.

Lemma lex_tail (rest : pystr) :
  delimited rest ->
  Json.lex_fraction rest = ([], rest) /\ Json.lex_exponent rest = (None, rest).
Proof.
  intros H. split.
  - exact (lex_fraction_app [] [] [] rest eq_refl H).
  - exact (lex_exponent_app [] None [] rest eq_refl H).
Qed.

(** The digits of a positive number lex as an integer. *)
Lemma lex_digits (neg : bool) (n : N) (rest : pystr) :
  0 < n -> delimited rest ->
  Json.lex_number ((if neg then [45] else []) ++ digits_of_N n ++ rest)
  = Some ({| Json.negative := neg; Json.int_digits := digits_of_N n;
             Json.frac_digits := []; Json.exponent := None |}, rest).
Proof.
  intros Hn Hrest.
  destruct (digits_of_N_head n Hn) as [c [ds [Heq [Hd Hc]]]].
  pose proof (digits_of_N_are_digits n) as Hall.
  pose proof (span_digits_all (digits_of_N n) rest Hall
                (delimited_nondigit rest Hrest)) as Hspan.
  destruct (lex_tail rest Hrest) as [Hf He].
  rewrite Heq in *. pose proof (digit_range c Hd) as Hr.
  assert (Hint : Json.lex_integer ((c :: ds) ++ rest) = Some (c :: ds, rest)).
  { unfold Json.lex_integer. cbn [app] in *.
    destruct (N.eqb_spec c 48); [contradiction|].
    rewrite Hd, Hspan. reflexivity. }
  unfold Json.lex_number.
  destruct neg; cbn [app] in *.
  - rewrite N.eqb_refl. rewrite Hint, Hf, He. reflexivity.
  - destruct (N.eqb_spec c 45); [lia|]. rewrite Hint, Hf, He. reflexivity.
Qed.

(** The text of an integer within the digit limit scans back as the
    integer. *)
Lemma scan_int (z : Z) (fuel room : nat) (rest : pystr) :
  (decimal_digits z <= int_max_str_digits)%nat ->
  delimited rest ->
  Json.scan_once (S fuel) room (int_repr z ++ rest)
  = Json.Scanned (PInt z) rest.
Proof.
  intros Hdigits Hrest.
  assert (Hshort : forall neg n,
             (length (digits_of_N n) <= int_max_str_digits)%nat ->
             Json.int_too_long
               {| Json.negative := neg; Json.int_digits := digits_of_N n;
                  Json.frac_digits := []; Json.exponent := None |} = false).
  { intros neg n Hn. unfold Json.int_too_long. cbn [Json.frac_digits
      Json.exponent Json.int_digits]. apply Nat.ltb_ge. exact Hn. }
  unfold decimal_digits in Hdigits.
  destruct z as [|p|p]; unfold int_repr.
  - pose proof (lex_number_app [48] _ [] rest eq_refl Hrest) as Hl.
    cbn [app] in *. rewrite scan_once_number by discriminate.
    rewrite Hl. reflexivity.
  - pose proof (lex_digits false (Npos p) rest eq_refl Hrest) as Hl.
    cbn [app] in Hl.
    destruct (digits_of_N_head (Npos p) eq_refl) as [c [ds [Heq [Hd Hc]]]].
    pose proof (digit_range c Hd) as Hr.
    pose proof (digits_of_N_value (Npos p)) as Hv.
    pose proof (Hshort false (Npos p) Hdigits) as Hs.
    rewrite Heq in *. cbn [app] in *.
    rewrite scan_once_number by lia. rewrite Hl, Hs.
    unfold Json.number_value; simpl. rewrite Hv. reflexivity.
  - pose proof (lex_digits true (Npos p) rest eq_refl Hrest) as Hl.
    pose proof (digits_of_N_value (Npos p)) as Hv.
    pose proof (Hshort true (Npos p) Hdigits) as Hs.
    cbn [app] in *.
    rewrite scan_once_number by discriminate. rewrite Hl, Hs.
    unfold Json.number_value; simpl. rewrite Hv. reflexivity.
Qed.

(** A text that scans as a float on its own scans as the same float
    before a delimiter. *)
Lemma scan_float_app (t : pystr) (x : float) (fuel room : nat)
  (rest : pystr) :
  Json.scan_once 1 0 t = Json.Scanned (PFloat x) [] ->
  delimited rest ->
  Json.scan_once (S fuel) room (t ++ rest) = Json.Scanned (PFloat x) rest.
Proof.
  intros Ht Hrest. pose proof (delimited_nondigit rest Hrest) as Hnd.
  destruct t as [|c t]; [discriminate|].
  cbn [app]. cbn [Json.scan_once] in Ht.
  destruct (N.eqb_spec c 34) as [->|H34].
  { destruct (Json.scanstring t) as [[? ?]|]; discriminate. }
  destruct (N.eqb_spec c 123) as [->|H123]; [discriminate|].
  destruct (N.eqb_spec c 91) as [->|H91]; [discriminate|].
  destruct (N.eqb_spec c 110) as [->|H110].
  { unfold Json.literal in Ht.
    destruct (Json.strip_prefix _ _); discriminate. }
  destruct (N.eqb_spec c 116) as [->|H116].
  { unfold Json.literal in Ht.
    destruct (Json.strip_prefix _ _); discriminate. }
  destruct (N.eqb_spec c 102) as [->|H102].
  { unfold Json.literal in Ht.
    destruct (Json.strip_prefix _ _); discriminate. }
  rewrite scan_once_number by assumption.
  destruct (Json.lex_number (c :: t)) as [[n r]|] eqn:Hlex.
  - destruct (Json.int_too_long n) eqn:Hlong; [discriminate|].
    injection Ht as Hv ->.
    pose proof (lex_number_app (c :: t) n [] rest Hlex Hrest) as Hx.
    cbn [app] in Hx. rewrite Hx, Hlong, Hv. reflexivity.
  - pose proof (lex_number_none_app (c :: t) rest ltac:(discriminate)
                  Hlex Hnd) as Hx.
    cbn [app] in Hx. rewrite Hx.
    destruct (c =? 78).
    { exact (literal_app "NaN" _ _ (c :: t) [] rest Ht). }
    destruct (c =? 73).
    { exact (literal_app "Infinity" _ _ (c :: t) [] rest Ht). }
    destruct (c =? 45).
    { exact (literal_app "-Infinity" _ _ (c :: t) [] rest Ht). }
    discriminate.
Qed.

(** What a scanned value starts with: not white space and not a
    closing bracket. *)
Lemma scan_once_first (fuel room : nat) (t : pystr) (v : pyval)
  (r : pystr) :
  Json.scan_once fuel room t = Json.Scanned v r ->
  exists c t', t = c :: t' /\ Json.is_ws c = false /\ c <> 93 /\ c <> 125.
Proof.
  destruct fuel as [|fuel]; [discriminate|].
  destruct t as [|c t]; [discriminate|].
  intros H. exists c, t. split; [reflexivity|].
  assert (Hbad : forall k, Json.lex_number (k :: t) = None ->
                           k <> 34 -> k <> 123 -> k <> 91 -> k <> 110 ->
                           k <> 116 -> k <> 102 -> k <> 78 -> k <> 73 ->
                           k <> 45 ->
                           Json.scan_once (S fuel) room (k :: t)
                           = Json.Failed).
  { intros k Hk. intros. rewrite scan_once_number by assumption. rewrite Hk.
    destruct (N.eqb_spec k 78); [contradiction|].
    destruct (N.eqb_spec k 73); [contradiction|].
    destruct (N.eqb_spec k 45); [contradiction|]. reflexivity. }
  assert (Hc : c <> 32 /\ c <> 9 /\ c <> 10 /\ c <> 13 /\ c <> 93 /\ c <> 125).
  { repeat split; intros ->;
      rewrite Hbad in H by (try reflexivity; discriminate); discriminate. }
  destruct Hc as [A [B [C [D [E F]]]]].
  split; [|split; assumption].
  unfold Json.is_ws.
  destruct (N.eqb_spec c 32); [contradiction|].
  destruct (N.eqb_spec c 9); [contradiction|].
  destruct (N.eqb_spec c 10); [contradiction|].
  destruct (N.eqb_spec c 13); [contradiction|]. reflexivity.
Qed.

Lemma skip_ws_start (c : N) (t : pystr) :
  Json.is_ws c = false -> Json.skip_ws (c :: t) = c :: t.
Proof. intros H. simpl. rewrite H. reflexivity. Qed.

(** ** Lists and dictionaries *)

Lemma encode_list (room : nat) (l : list pyval) :
  Json.encode (S room) (PList l)
  = bind (mapM (Json.encode room) l)
      (fun items => Ret (91 :: Json.join items ++ [93])).
Proof. reflexivity. Qed.

Lemma encode_dict (room : nat) (d : list (pyval * pyval)) :
  Json.encode (S room) (PDict d)
  = bind (encode_members room d)
      (fun members => Ret (123 :: Json.join members ++ [125])).
Proof. reflexivity. Qed.

Lemma encode_members_cons (room : nat) (k x : pyval)
  (d : list (pyval * pyval)) :
  encode_members room ((k, x) :: d)
  = bind (Json.key_text k) (fun kt =>
    bind (Json.encode room x) (fun xt =>
    bind (encode_members room d) (fun rest =>
    Ret (Json.member_text kt xt :: rest)))).
Proof. reflexivity. Qed.

Lemma mapM_cons_inv {A B} (f : A -> result B) (x : A) (l : list A)
  (ys : list B) :
  mapM f (x :: l) = Ret ys ->
  exists y ys', f x = Ret y /\ mapM f l = Ret ys' /\ ys = y :: ys'.
Proof.
  simpl. destruct (f x) as [y|]; [|discriminate].
  destruct (mapM f l) as [ys'|]; [|discriminate].
  simpl. intros [= <-]. exists y, ys'. auto.
Qed.

Lemma encode_members_cons_inv (room : nat) (k x : pyval)
  (d : list (pyval * pyval)) (members : list (list N)) :
  encode_members room ((k, x) :: d) = Ret members ->
  exists kt xt rest,
    Json.key_text k = Ret kt /\ Json.encode room x = Ret xt
    /\ encode_members room d = Ret rest
    /\ members = Json.member_text kt xt :: rest.
Proof.
  rewrite encode_members_cons.
  destruct (Json.key_text k) as [kt|]; [|discriminate].
  destruct (Json.encode room x) as [xt|]; [|discriminate].
  destruct (encode_members room d) as [rest|]; [|discriminate].
  simpl. intros [= <-]. exists kt, xt, rest. auto.
Qed.

Lemma join_cons (x : list N) (items : list (list N)) :
  exists z, Json.join (x :: items) = x ++ z.
Proof.
  destruct items as [|y items].
  - exists []. simpl. symmetry. apply app_nil_r.
  - exists (44 :: 32 :: Json.join (y :: items)). reflexivity.
Qed.

Lemma join_two (x y : list N) (items : list (list N)) :
  Json.join (x :: y :: items) = x ++ 44 :: 32 :: Json.join (y :: items).
Proof. reflexivity. Qed.

(** The text of a value that scans back starts with a character that
    is neither white space nor a closing bracket. *)
Lemma scans_back_first (v : pyval) (room : nat) (t : list N) :
  scans_back v -> Json.encode room v = Ret t ->
  exists c t', t = c :: t' /\ Json.is_ws c = false /\ c <> 93 /\ c <> 125.
Proof.
  intros Hv Ht.
  pose proof (Hv room t Ht (weight v) (nesting v) [] (Nat.le_refl _)
                (Nat.le_refl _) I) as Hs.
  rewrite app_nil_r in Hs. exact (scan_once_first _ _ _ _ _ Hs).
Qed.

Lemma scan_items (l : list pyval) :
  Forall scans_back l ->
  forall room items, mapM (Json.encode room) l = Ret items -> l <> [] ->
  forall fuel depth rest,
    (length l + list_sum (map weight l) <= fuel)%nat ->
    (list_max (map nesting l) <= depth)%nat ->
    Json.array_items fuel depth (Json.join items ++ 93 :: rest)
    = Json.Scanned l rest.
Proof.
  induction 1 as [|x l Hx Hl IH];
    intros room items Hitems Hne fuel depth rest Hfuel Hdepth;
    [contradiction|].
  destruct (mapM_cons_inv _ _ _ _ Hitems) as [tx [items' [Hex [Hel ->]]]].
  simpl in Hfuel, Hdepth. destruct fuel as [|fuel]; [lia|].
  cbn [Json.array_items].
  destruct l as [|y l'].
  - simpl in Hel. injection Hel as <-. simpl Json.join.
    rewrite (Hx room tx Hex fuel depth (93 :: rest))
      by (simpl; auto; lia).
    rewrite (skip_ws_start 93) by reflexivity. reflexivity.
  - destruct (mapM_cons_inv _ _ _ _ Hel) as [ty [items'' [Hey [_ ->]]]].
    rewrite join_two, <- app_assoc. cbn [app].
    rewrite (Hx room tx Hex fuel depth) by (simpl; auto; lia).
    destruct (scans_back_first y room ty (Forall_inv Hl) Hey)
      as [c [t' [-> [Hws _]]]].
    destruct (join_cons (c :: t') items'') as [z Hz].
    assert (Hskip : Json.skip_ws (Json.join ((c :: t') :: items'')
                                    ++ 93 :: rest)
                    = Json.join ((c :: t') :: items'') ++ 93 :: rest).
    { rewrite Hz. cbn [app]. apply skip_ws_start. exact Hws. }
    rewrite (skip_ws_start 44) by reflexivity. cbv iota.
    simpl (44 =? 93). simpl (44 =? 44). cbv iota.
    change (Json.skip_ws (32 :: ?t)) with (Json.skip_ws t).
    rewrite Hskip.
    rewrite (IH room ((c :: t') :: items'') Hel ltac:(discriminate)
               fuel depth rest) by (simpl in *; lia).
    reflexivity.
Qed.

Lemma scan_members (d : list (pyval * pyval)) :
  Forall (fun kv => (exists s, fst kv = PStr s /\ valid_text s)
                    /\ scans_back (snd kv)) d ->
  forall room members, encode_members room d = Ret members -> d <> [] ->
  forall fuel depth rest,
    (length d + list_sum (map (fun kv => weight (snd kv)) d) <= fuel)%nat ->
    (list_max (map (fun kv => nesting (snd kv)) d) <= depth)%nat ->
    Json.object_members fuel depth (Json.join members ++ 125 :: rest)
    = Json.Scanned (text_pairs d) rest.
Proof.
  induction 1 as [|[k x] d [[s [Hk Hs]] Hx] Hd IH];
    intros room members Hm Hne fuel depth rest Hfuel Hdepth;
    [contradiction|].
  simpl in Hk, Hx. subst k.
  destruct (encode_members_cons_inv _ _ _ _ _ Hm)
    as [kt [tx [members' [Hkt [Hex [Hed ->]]]]]].
  simpl in Hkt. injection Hkt as <-.
  simpl in Hfuel, Hdepth. destruct fuel as [|fuel]; [lia|].
  assert (Hone : forall tail,
             delimited tail ->
             Json.object_members (S fuel) depth
               (Json.member_text s tx ++ tail)
             = match Json.skip_ws tail with
               | c :: t2 =>
                   if c =? 125 then Json.Scanned [(s, x)] t2
                   else if c =? 44 then
                     match Json.object_members fuel depth
                             (Json.skip_ws t2) with
                     | Json.Scanned kvs rest2 =>
                         Json.Scanned ((s, x) :: kvs) rest2
                     | Json.Failed => Json.Failed
                     | Json.Aborted e => Json.Aborted e
                     | Json.Starved => Json.Starved
                     end
                   else Json.Failed
               | [] => Json.Failed
               end).
  { intros tail Htail.
    unfold Json.member_text, Json.encode_basestring_ascii.
    cbn [app]. rewrite <- !app_assoc. cbn [app].
    cbn [Json.object_members]. rewrite N.eqb_refl.
    rewrite (scanstring_escaped s _ Hs).
    rewrite (skip_ws_start 58) by reflexivity. cbv iota.
    rewrite N.eqb_refl.
    change (Json.skip_ws (32 :: ?t)) with (Json.skip_ws t).
    destruct (scans_back_first x room tx Hx Hex) as [c [t' [-> [Hws _]]]].
    cbn [app]. rewrite (skip_ws_start c) by exact Hws.
    change (c :: t' ++ tail) with ((c :: t') ++ tail).
    rewrite (Hx room (c :: t') Hex fuel depth tail) by (auto; lia).
    reflexivity. }
  destruct d as [|[k' x'] d'].
  - simpl in Hed. injection Hed as <-. simpl Json.join.
    rewrite Hone by (simpl; auto).
    rewrite (skip_ws_start 125) by reflexivity. reflexivity.
  - destruct (encode_members_cons_inv _ _ _ _ _ Hed)
      as [kt' [tx' [members'' [Hkt' [_ [_ ->]]]]]].
    rewrite join_two, <- app_assoc. cbn [app].
    rewrite Hone by (simpl; auto).
    rewrite (skip_ws_start 44) by reflexivity. cbv iota.
    simpl (44 =? 125). simpl (44 =? 44). cbv iota.
    change (Json.skip_ws (32 :: ?t)) with (Json.skip_ws t).
    assert (Hq : exists z, Json.member_text kt' tx' = 34 :: z)
      by (eexists; reflexivity).
    destruct Hq as [z Hz]. rewrite Hz in *.
    destruct (join_cons (34 :: z) members'') as [w Hw].
    assert (Hskip : Json.skip_ws (Json.join ((34 :: z) :: members'')
                                    ++ 125 :: rest)
                    = Json.join ((34 :: z) :: members'') ++ 125 :: rest).
    { rewrite Hw. cbn [app]. apply skip_ws_start. reflexivity. }
    rewrite Hskip.
    rewrite (IH room ((34 :: z) :: members'') Hed ltac:(discriminate)
               fuel depth rest) by (simpl in *; lia).
    reflexivity.
Qed.

(** Assigning items with distinct keys one after the other keeps them
    all, in order. *)
Lemma set_fresh {V} (d : PyDict.t V) (k : list N) (v : V) :
  ~ In k (PyDict.keys d) -> PyDict.set d k v = d ++ [(k, v)].
Proof.
  induction d as [|[k' v'] d IH]; intros Hk; [reflexivity|].
  simpl in *. destruct (pystr_eqb_spec k' k) as [->|Hne].
  - exfalso. apply Hk. left. reflexivity.
  - rewrite IH; [reflexivity|]. intros Hin. apply Hk. right. exact Hin.
Qed.

Lemma of_items_distinct {V} (items : list (list N * V)) :
  NoDup (map fst items) -> PyDict.of_items items = items.
Proof.
  unfold PyDict.of_items.
  assert (H : forall acc : PyDict.t V,
             NoDup (map fst (acc ++ items)) ->
             fold_left (fun d kv => PyDict.set d (fst kv) (snd kv)) items acc
             = acc ++ items).
  { induction items as [|[k v] items IH]; intros acc Hnd.
    - symmetry. apply app_nil_r.
    - simpl. rewrite set_fresh.
      + rewrite IH; rewrite <- app_assoc; [reflexivity|exact Hnd].
      + rewrite map_app in Hnd. simpl in Hnd.
        apply NoDup_remove_2 in Hnd. intros Hin. apply Hnd.
        apply in_or_app. left. exact Hin. }
  intros Hnd. apply (H [] Hnd).
Qed.

Lemma text_pairs_back (d : list (pyval * pyval)) :
  Forall (fun kv => exists s, fst kv = PStr s) d ->
  map (fun kv => (PStr (fst kv), snd kv)) (text_pairs d) = d.
Proof.
  induction 1 as [|[k x] d [s Hk] Hd IH]; [reflexivity|].
  simpl in *. subst k. rewrite IH. reflexivity.
Qed.

Lemma text_pairs_distinct (d : list (pyval * pyval)) :
  Forall (fun kv => exists s, fst kv = PStr s) d ->
  NoDup (map fst d) -> NoDup (map fst (text_pairs d)).
Proof.
  intros Hk Hnd.
  assert (Heq : map fst d = map PStr (map fst (text_pairs d))).
  { induction Hk as [|[k x] d [s Hs] Hd IH]; [reflexivity|].
    simpl in *. subst k. rewrite IH; [reflexivity|].
    inversion Hnd; assumption. }
  rewrite Heq in Hnd. apply NoDup_map_inv in Hnd. exact Hnd.
Qed.

(** ** Every native value scans back *)

Lemma int_str_ret (z : Z) (t : list N) :
  int_str z = Ret t ->
  t = int_repr z /\ (decimal_digits z <= int_max_str_digits)%nat.
Proof.
  unfold int_str, decimal_digits.
  destruct (Nat.ltb_spec int_max_str_digits
              (length (digits_of_N (Z.abs_N z)))); [discriminate|].
  intros [= <-]. split; [reflexivity|assumption].
Qed.

Lemma native_scans_back (v : pyval) : json_native v -> scans_back v.
Proof.
  induction v as [| b | z | f | s | b | l IH | l IH | d IH] using pyval_ind';
    intros Hn; inversion Hn; subst;
    intros room t Ht fuel depth rest Hfuel Hdepth Hrest;
    simpl in Hfuel; (destruct fuel as [|fuel]; [lia|]).
  - injection Ht as <-. reflexivity.
  - destruct b; injection Ht as <-; reflexivity.
  - apply int_str_ret in Ht. destruct Ht as [-> Hz].
    apply scan_int; assumption.
  - injection Ht as <-. apply scan_float_app; assumption.
  - injection Ht as <-. apply scan_string. assumption.
  - (* list *)
    destruct room as [|room]; [discriminate|].
    simpl in Hdepth. destruct depth as [|depth]; [lia|].
    rewrite encode_list in Ht.
    destruct (mapM (Json.encode room) l) as [items|] eqn:Hitems;
      [|discriminate].
    simpl in Ht. injection Ht as <-.
    assert (Hall : Forall scans_back l).
    { rewrite Forall_forall in *. intros x Hx. apply IH; auto. }
    cbn [app]. rewrite <- app_assoc. cbn [app].
    cbn [Json.scan_once]. simpl (91 =? _). cbv iota.
    destruct l as [|x l'].
    + simpl in Hitems. injection Hitems as <-. reflexivity.
    + pose proof (scan_items (x :: l') Hall room items Hitems
                    ltac:(discriminate) fuel depth rest ltac:(lia)
                    ltac:(lia)) as Hscan.
      destruct (mapM_cons_inv _ _ _ _ Hitems)
        as [tx [items' [Hex [_ ->]]]].
      destruct (scans_back_first x room tx (Forall_inv Hall) Hex)
        as [c [t' [-> [Hws [H93 _]]]]].
      destruct (join_cons (c :: t') items') as [z Hz].
      revert Hscan. rewrite Hz. cbn [app]. intros Hscan.
      rewrite (skip_ws_start c) by exact Hws.
      destruct (N.eqb_spec c 93); [contradiction|].
      rewrite Hscan. reflexivity.
  - (* dict *)
    destruct room as [|room]; [discriminate|].
    simpl in Hdepth. destruct depth as [|depth]; [lia|].
    rewrite encode_dict in Ht.
    destruct (encode_members room d) as [members|] eqn:Hm; [|discriminate].
    simpl in Ht. injection Ht as <-.
    assert (Hkeys : Forall (fun kv => exists s, fst kv = PStr s) d).
    { rewrite Forall_forall in *. intros kv Hkv.
      destruct (H1 kv Hkv) as [[s [Hs _]] _]. exists s. exact Hs. }
    assert (Hall : Forall (fun kv => (exists s, fst kv = PStr s
                                                /\ valid_text s)
                                     /\ scans_back (snd kv)) d).
    { rewrite Forall_forall in *. intros kv Hkv.
      destruct (H1 kv Hkv) as [Hk Hx]. split; [exact Hk|].
      apply (IH kv Hkv). exact Hx. }
    cbn [app]. rewrite <- app_assoc. cbn [app].
    cbn [Json.scan_once]. simpl (123 =? _). cbv iota.
    destruct d as [|kv d'].
    + simpl in Hm. injection Hm as <-. reflexivity.
    + pose proof (scan_members (kv :: d') Hall room members Hm
                    ltac:(discriminate) fuel depth rest
                    ltac:(simpl in *; lia) ltac:(lia)) as Hscan.
      assert (Hq : exists z, Json.join members = 34 :: z).
      { destruct kv as [k x].
        destruct (encode_members_cons_inv _ _ _ _ _ Hm)
          as [kt [tx [ms [_ [_ [_ ->]]]]]].
        destruct (join_cons (Json.member_text kt tx) ms) as [w Hw].
        rewrite Hw. eexists. reflexivity. }
      destruct Hq as [z Hz].
      revert Hscan. rewrite Hz. cbn [app]. intros Hscan.
      rewrite (skip_ws_start 34) by reflexivity.
      simpl (34 =? 125). cbv iota.
      rewrite Hscan. unfold Json.object_of_pairs.
      rewrite of_items_distinct
        by (apply text_pairs_distinct; assumption).
      rewrite text_pairs_back by assumption. reflexivity.
Qed.

(** ** Values that have a JSON text *)

Lemma exact_native (v : pyval) : json_exact v -> json_native v.
Proof.
  induction v as [| b | z | f | s | b | l IH | l IH | d IH] using pyval_ind';
    intros He; inversion He; subst; try (constructor; assumption).
  - apply native_list. rewrite Forall_forall in *. auto.
  - apply native_dict; [assumption|].
    rewrite Forall_forall in *. intros kv Hkv.
    destruct (H1 kv Hkv) as [Hk Hx]. split; [exact Hk|].
    apply (IH kv Hkv). exact Hx.
Qed.


(** A value that is encoded is not nested deeper than the encoder had
    room for. *)
Lemma encode_nesting (v : pyval) :
  forall room t, Json.encode room v = Ret t -> (nesting v <= room)%nat.
Proof.
  induction v as [| b | z | f | s | b | l IH | l IH | d IH] using pyval_ind';
    intros room t Ht; try (simpl; lia).
  - destruct room as [|room]; [discriminate|].
    rewrite encode_list in Ht.
    destruct (mapM (Json.encode room) l) as [items|] eqn:Hitems;
      [|discriminate].
    simpl. apply le_n_S. clear Ht. revert items Hitems.
    induction l as [|x l IHl]; intros items Hitems; [simpl; lia|].
    destruct (mapM_cons_inv _ _ _ _ Hitems) as [tx [items' [Hex [Hel _]]]].
    inversion IH; subst. simpl.
    pose proof (H1 room tx Hex). pose proof (IHl H2 items' Hel). lia.
  - destruct room as [|room]; [discriminate|].
    change (Json.encode (S room) (PTuple l))
      with (Json.encode (S room) (PList l)) in Ht.
    rewrite encode_list in Ht.
    destruct (mapM (Json.encode room) l) as [items|] eqn:Hitems;
      [|discriminate].
    simpl. apply le_n_S. clear Ht. revert items Hitems.
    induction l as [|x l IHl]; intros items Hitems; [simpl; lia|].
    destruct (mapM_cons_inv _ _ _ _ Hitems) as [tx [items' [Hex [Hel _]]]].
    inversion IH; subst. simpl.
    pose proof (H1 room tx Hex). pose proof (IHl H2 items' Hel). lia.
  - destruct room as [|room]; [discriminate|].
    rewrite encode_dict in Ht.
    destruct (encode_members room d) as [members|] eqn:Hm; [|discriminate].
    simpl. apply le_n_S. clear Ht. revert members Hm.
    induction d as [|[k x] d IHd]; intros members Hm; [simpl; lia|].
    destruct (encode_members_cons_inv _ _ _ _ _ Hm)
      as [kt [tx [ms [_ [Hex [Hed _]]]]]].
    inversion IH; subst. simpl.
    destruct H1 as [_ H1]. simpl in H1.
    pose proof (H1 room tx Hex). pose proof (IHd H2 ms Hed). lia.
Qed.

(** ** Enough fuel *)

Lemma join_length (room : nat) (l : list pyval) (items : list (list N)) :
  Forall (fun x => forall t, Json.encode room x = Ret t ->
                             (weight x <= length t)%nat) l ->
  mapM (Json.encode room) l = Ret items ->
  (length l + list_sum (map weight l) <= 1 + length (Json.join items))%nat.
Proof.
  intros Hall. revert items.
  induction Hall as [|x l Hx Hl IH]; intros items Hitems.
  - simpl. lia.
  - destruct (mapM_cons_inv _ _ _ _ Hitems) as [tx [items' [Hex [Hel ->]]]].
    pose proof (Hx tx Hex) as Hw. specialize (IH items' Hel).
    destruct items' as [|ty items''].
    + destruct l as [|y l]; [simpl in *; lia|].
      destruct (mapM_cons_inv _ _ _ _ Hel) as [? [? [_ [_ Habs]]]].
      discriminate Habs.
    + rewrite join_two, length_app. simpl length in *. simpl list_sum. lia.
Qed.

Lemma members_length (room : nat) (d : list (pyval * pyval))
  (members : list (list N)) :
  Forall (fun kv => forall t, Json.encode room (snd kv) = Ret t ->
                              (weight (snd kv) <= length t)%nat) d ->
  encode_members room d = Ret members ->
  (length d + list_sum (map (fun kv => weight (snd kv)) d)
   <= 1 + length (Json.join members))%nat.
Proof.
  intros Hall. revert members.
  induction Hall as [|[k x] d Hx Hd IH]; intros members Hm.
  - simpl. lia.
  - destruct (encode_members_cons_inv _ _ _ _ _ Hm)
      as [kt [tx [members' [_ [Hex [Hed ->]]]]]].
    simpl in Hx.
    pose proof (Hx tx Hex) as Hw. specialize (IH members' Hed).
    assert (Hmt : (length tx <= length (Json.member_text kt tx))%nat).
    { unfold Json.member_text. rewrite length_app. simpl. lia. }
    destruct members' as [|m members''].
    + destruct d as [|[k' x'] d']; [simpl in *; lia|].
      destruct (encode_members_cons_inv _ _ _ _ _ Hed)
        as [? [? [? [_ [_ [_ Habs]]]]]].
      discriminate Habs.
    + rewrite join_two, length_app. simpl length in *. simpl list_sum. lia.
Qed.

Lemma weight_le_length (v : pyval) (room : nat) (t : list N) :
  json_native v -> Json.encode room v = Ret t -> (weight v <= length t)%nat.
Proof.
  revert room t.
  induction v as [| b | z | f | s | b | l IH | l IH | d IH] using pyval_ind';
    intros room t Hn Ht;
    try (destruct (scans_back_first _ room t (native_scans_back _ Hn) Ht)
           as [c [t' [-> _]]]; simpl; lia).
  - inversion Hn; subst. destruct room as [|room]; [discriminate|].
    rewrite encode_list in Ht.
    destruct (mapM (Json.encode room) l) as [items|] eqn:Hitems;
      [|discriminate].
    simpl in Ht. injection Ht as <-.
    assert (Hall : Forall (fun x => forall t, Json.encode room x = Ret t ->
                                              (weight x <= length t)%nat) l).
    { rewrite Forall_forall in *. intros x Hx t Ht. apply (IH x Hx room); auto. }
    pose proof (join_length room l items Hall Hitems).
    simpl. rewrite length_app. simpl. lia.
  - inversion Hn.
  - inversion Hn; subst. destruct room as [|room]; [discriminate|].
    rewrite encode_dict in Ht.
    destruct (encode_members room d) as [members|] eqn:Hm; [|discriminate].
    simpl in Ht. injection Ht as <-.
    assert (Hall : Forall (fun kv => forall t,
                              Json.encode room (snd kv) = Ret t ->
                              (weight (snd kv) <= length t)%nat) d).
    { rewrite Forall_forall in *. intros kv Hkv t Ht.
      apply (proj2 (IH kv Hkv) room); [|exact Ht]. apply (H1 kv Hkv). }
    pose proof (members_length room d members Hall Hm).
    simpl. rewrite length_app. simpl. lia.
Qed.

(** ** [json.loads] after [json.dumps] *)

(** The text [json.dumps] gives a native value reads back as the
    value. *)
Lemma loads_dumps (v : pyval) (t : list N) :
  json_native v -> Json.dumps v = Ret (PStr t) ->
  Json.loads (PStr t) = Ret v.
Proof.
  intros Hn Hd. unfold Json.dumps in Hd.
  destruct (Json.encode Json.recursion_limit v) as [t0|] eqn:Ht;
    [|discriminate].
  simpl in Hd. injection Hd as ->.
  destruct (scans_back_first v _ t (native_scans_back v Hn) Ht)
    as [c [t' [-> [Hws _]]]].
  assert (Hdec : Json.decode (c :: t') = Ret v).
  { unfold Json.decode.
    rewrite (skip_ws_start c) by exact Hws.
    pose proof (native_scans_back v Hn _ (c :: t') Ht
                  (2 * length (c :: t') + 1)%nat Json.recursion_limit [])
      as Hs.
    rewrite app_nil_r in Hs. rewrite Hs; [reflexivity| | |exact I].
    - pose proof (weight_le_length v _ (c :: t') Hn Ht). lia.
    - exact (encode_nesting v _ _ Ht). }
  destruct (N.eq_dec c 65279) as [->|Hc].
  - assert (Hbom : Json.decode (65279 :: t') = Raise JSONDecodeError)
      by reflexivity.
    congruence.
  - rewrite <- Hdec. simpl. destruct c as [|p]; [reflexivity|].
    repeat (destruct p as [p|p|]; try reflexivity); congruence.
Qed.

(** ** Composite values through the codec *)


(** Two more things the encoder does to a composite value: a tuple
    inside it comes back as a list, and a value nested deeper than
    the recursion limit leaves room for is not encoded. *)
Example round_trip_tuple :
  round_trip (PList [PTuple [PInt 1; PInt 2]])
  = Ret (PList [PList [PInt 1; PInt 2]]).
Proof. vm_compute. reflexivity. Qed.

Example round_trip_deep :
  round_trip (Nat.iter 1000 (fun v => PList [v]) (PList []))
  = Raise RecursionError.
Proof. vm_compute. reflexivity. Qed.




(** ** What [save] writes *)

Lemma serialize_stored (x e : pyval) :
  serialize x = Ret e -> serialize e = Ret e.
Proof.
  unfold serialize at 1.
  destruct (isinstance x TDict || isinstance x TList) eqn:Hi.
  - unfold Json.dumps. destruct (Json.encode _ x); simpl; [|discriminate].
    intros [= <-]. reflexivity.
  - intros [= <-]. unfold serialize. rewrite Hi. reflexivity.
Qed.

(** What [serialize] gives a composite value is the text of
    [json.dumps]. *)
Lemma serialize_composite (x e : pyval) :
  composite x -> serialize x = Ret e ->
  exists t, e = PStr t /\ Json.dumps x = Ret (PStr t).
Proof.
  intros Hc. unfold serialize.
  assert (Hi : isinstance x TDict || isinstance x TList = true)
    by (destruct x; try contradiction; reflexivity).
  rewrite Hi. unfold Json.dumps.
  destruct (Json.encode _ x) as [t|]; simpl; [|discriminate].
  intros [= <-]. exists t. split; reflexivity.
Qed.

Lemma values_set {V} (d : PyDict.t V) (k : list N) (v e : V) :
  In e (PyDict.values (PyDict.set d k v)) ->
  e = v \/ In e (PyDict.values d).
Proof.
  induction d as [|[k' v'] d IH]; simpl.
  - intros [<-|[]]. left. reflexivity.
  - destruct (pystr_eqb k' k); simpl.
    + intros [<-|H]; [left; reflexivity|right; right; exact H].
    + intros [<-|H]; [right; left; reflexivity|].
      destruct (IH H) as [->|H']; [left; reflexivity|right; right; exact H'].
Qed.

Lemma init_loop_stored (items fields0 fields : PyDict.t pyval) :
  Row.init_loop items fields0 = Ret fields ->
  (forall e, In e (PyDict.values fields0) -> serialize e = Ret e) ->
  forall e, In e (PyDict.values fields) -> serialize e = Ret e.
Proof.
  revert fields0; induction items as [|[k v] items IH];
    intros fields0 Hinit H0.
  - injection Hinit as <-. exact H0.
  - simpl in Hinit.
    destruct (serialize v) as [stored|] eqn:Hs; [|discriminate].
    simpl in Hinit. apply (IH _ Hinit).
    intros e He. apply values_set in He. destruct He as [->|He].
    + apply (serialize_stored v). exact Hs.
    + apply H0. exact He.
Qed.

Lemma mapM_fixed (l : list pyval) :
  (forall e, In e l -> serialize e = Ret e) -> mapM serialize l = Ret l.
Proof.
  induction l as [|e l IH]; intros H; [reflexivity|].
  simpl. rewrite (H e (or_introl eq_refl)). simpl.
  rewrite IH; [reflexivity|]. intros e' He'. apply H. right. exact He'.
Qed.

(** C6, as stated, is refuted by the text ['123'] in a row: [save]
    writes the text, [encode(decode('123'))] is the integer 123. *)
Lemma save_reencode_counterexample :
  ~ (forall kwargs row,
        Row.init kwargs = Ret row ->
        Database.written_values row
        = mapM reencoded (PyDict.values (Row.fields row))).
Proof.
  intros H.
  specialize (H [(py "name", PStr (py "123"))]
                {| Row.fields := [(py "name", PStr (py "123"))] |} eq_refl).
  vm_compute in H. discriminate H.
Qed.

(** C6, amended: for a row built by [Row(...)], [save] writes every
    stored value as it is stored; a stored value [e] that is plain, or
    that is the encoding of a native composite value, is equal to
    [encode(decode(e))]. *)
Theorem save_writes_stored_values
  (kwargs : PyDict.t pyval) (row : Row.t) :
  Row.init kwargs = Ret row ->
  Database.written_values row = Ret (PyDict.values (Row.fields row))
  /\ forall e, In e (PyDict.values (Row.fields row)) ->
               plain_stored e \/ canonical_stored e ->
               reencoded e = Ret e.
Proof.
  intros Hinit. split.
  - unfold Database.written_values. apply mapM_fixed.
    unfold Row.init in Hinit.
    destruct (Row.init_loop kwargs []) as [fields|] eqn:Hloop;
      [|discriminate].
    simpl in Hinit. injection Hinit as <-. simpl.
    apply (init_loop_stored kwargs [] fields Hloop).
    intros e [].
  - intros e _ [Hplain|[x [Hn [Hc Hx]]]]; unfold reencoded.
    + unfold plain_stored in Hplain.
      destruct e; try contradiction; try reflexivity.
      unfold deserialize. rewrite Hplain. reflexivity.
    + destruct (serialize_composite x e Hc Hx) as [t [-> Hd]].
      pose proof (loads_dumps x t Hn Hd) as Hl.
      unfold deserialize. rewrite Hl. simpl bind. exact Hx.
Qed.

Lemma save_writes_stored_values_witness :
  let kwargs := [(py "name", PStr (py "Alice"));
                 (py "sizes", PList [PInt 1; PInt 2])] in
  let row := {| Row.fields := [(py "name", PStr (py "Alice"));
                               (py "sizes", PStr (py "[1, 2]"))] |} in
  Row.init kwargs = Ret row
  /\ Database.written_values row = Ret (PyDict.values (Row.fields row)).
Proof.
  cbv zeta. split; [reflexivity|].
  exact (proj1 (save_writes_stored_values
                  [(py "name", PStr (py "Alice"));
                   (py "sizes", PList [PInt 1; PInt 2])]
                  _ eq_refl)).
Defined.

(* ------------------------------------------------------------------ *)
(** ** More on [Table.add_row] *)

Lemma for_each_check_passes (self : Table.t) kwargs (s : Table.t) :
  for_each kwargs (Table.check_value self) s = (s, Ret tt) <->
  Forall (fun kv => exists ty,
              Table.expected_data_type self (fst kv) = Some ty
              /\ isinstance (snd kv) ty = true) kwargs.
Proof.
  induction kwargs as [|[n v] kwargs IH].
  - split; [constructor|reflexivity].
  - simpl for_each. unfold bindx.
    unfold Table.check_value at 1.
    destruct (Table.expected_data_type self n) as [ty|] eqn:Hty.
    + destruct (isinstance v ty) eqn:Hi; simpl.
      * rewrite IH. split.
        -- intros H. constructor; [exists ty; auto|exact H].
        -- intros H. inversion H; assumption.
      * split; [discriminate|].
        intros H. inversion H as [|? ? [ty' [Ht' Hi']] _]; subst.
        simpl in *. congruence.
    + simpl. split; [discriminate|].
      intros H. inversion H as [|? ? [ty' [Ht' _]] _]; subst.
      simpl in *. congruence.
Qed.

(** A successful [add_row] passed the checks, built its row and
    appended it. *)
Lemma add_row_ret_inv (self : Table.t) (kwargs : PyDict.t pyval) :
  snd (Table.add_row kwargs self) = Ret tt ->
  accepted self kwargs
  /\ exists row,
      Row.init kwargs = Ret row
      /\ Table.add_row kwargs self
         = ({| Table.name := Table.name self;
               Table._fields := Table._fields self;
               Table._rows := Table._rows self ++ [row] |}, Ret tt).
Proof.
  rewrite add_row_unfold. unfold accepted.
  pose proof (for_each_check_state self kwargs self) as Hs.
  pose proof (for_each_check_passes self kwargs self) as Hp.
  destruct (Nat.eqb_spec (length kwargs) (length (Table._fields self)))
    as [Hlen|Hlen]; simpl; [|discriminate].
  destruct (for_each kwargs (Table.check_value self) self) as [s [[]|e]];
    simpl in Hs; subst s; [|discriminate].
  destruct (Row.init kwargs) as [row|e]; simpl; [|discriminate].
  intros _. split; [split; [exact Hlen|apply Hp; reflexivity]|].
  exists row. split; reflexivity.
Qed.

(** X1: [add_row] succeeds exactly when the keyword set has one value
    for each field, every name is a field of the schema with a value
    of its type, and the row can be built; it then appends that row
    after the existing ones and changes nothing else. *)
Theorem add_row_succeeds_iff (self : Table.t) (kwargs : PyDict.t pyval) :
  (snd (Table.add_row kwargs self) = Ret tt <->
   accepted self kwargs /\ exists row, Row.init kwargs = Ret row)
  /\ forall row,
      accepted self kwargs -> Row.init kwargs = Ret row ->
      Table.add_row kwargs self
      = ({| Table.name := Table.name self;
            Table._fields := Table._fields self;
            Table._rows := Table._rows self ++ [row] |}, Ret tt).
Proof.
  rewrite add_row_unfold. unfold accepted.
  pose proof (for_each_check_state self kwargs self) as Hs.
  pose proof (for_each_check_passes self kwargs self) as Hp.
  destruct (Nat.eqb_spec (length kwargs) (length (Table._fields self)))
    as [Hlen|Hlen]; simpl.
  - destruct (for_each kwargs (Table.check_value self) self) as [s [[]|e]];
      simpl in Hs; subst s.
    + destruct (Row.init kwargs) as [row|e] eqn:Hinit; simpl.
      * split.
        -- split; [intros _|reflexivity].
           split; [split; [exact Hlen|apply Hp; reflexivity]|].
           exists row. reflexivity.
        -- intros row' _ [= <-]. reflexivity.
      * split.
        -- split; [discriminate|]. intros [_ [row Hrow]]. discriminate.
        -- intros row _ Hrow. discriminate.
    + split.
      * split; [discriminate|]. intros [[_ Hall] _].
        apply Hp in Hall. discriminate.
      * intros row [_ Hall] _. apply Hp in Hall. discriminate.
  - split.
    + split; [discriminate|]. intros [[Hl _] _]. contradiction.
    + intros row [Hl _] _. contradiction.
Qed.

Lemma add_row_succeeds_iff_witness :
  let users :=
    Table.add_fields [(py "name", TStr); (py "age", TInt)]
      (Table.init (py "users")) in
  let kwargs := [(py "name", PStr (py "Alice")); (py "age", PInt 30)] in
  accepted users kwargs
  /\ Row.init kwargs = Ret {| Row.fields := kwargs |}
  /\ Table._rows (fst (Table.add_row kwargs users))
     = [{| Row.fields := kwargs |}].
Proof.
  cbv zeta.
  assert (Ha : accepted
                 (Table.add_fields [(py "name", TStr); (py "age", TInt)]
                    (Table.init (py "users")))
                 [(py "name", PStr (py "Alice")); (py "age", PInt 30)]).
  { split; [reflexivity|].
    repeat (apply Forall_cons; [eexists; split; reflexivity|]).
    apply Forall_nil. }
  split; [exact Ha|]. split; [reflexivity|].
  rewrite (proj2 (add_row_succeeds_iff _ _) _ Ha eq_refl). reflexivity.
Defined.

(* ------------------------------------------------------------------ *)
(** ** Building a row and reading it *)

Lemma get_set {V} (d : PyDict.t V) (k k' : list N) (v : V) :
  PyDict.get (PyDict.set d k v) k'
  = if pystr_eqb k k' then Some v else PyDict.get d k'.
Proof.
  induction d as [|[k0 v0] d IH]; simpl.
  - reflexivity.
  - destruct (pystr_eqb_spec k0 k) as [->|Hk0]; simpl.
    + destruct (pystr_eqb k k'); reflexivity.
    + rewrite IH. destruct (pystr_eqb_spec k0 k') as [->|Hk0'];
        [|reflexivity].
      destruct (pystr_eqb_spec k k'); [congruence|reflexivity].
Qed.

Lemma keys_set_fresh {V} (d : PyDict.t V) (k : list N) (v : V) :
  ~ In k (PyDict.keys d) ->
  PyDict.keys (PyDict.set d k v) = PyDict.keys d ++ [k].
Proof.
  intros H. rewrite set_fresh by exact H.
  unfold PyDict.keys. rewrite map_app. reflexivity.
Qed.

Lemma keys_set_same {V} (d : PyDict.t V) (k : list N) (v : V) :
  In k (PyDict.keys d) -> PyDict.keys (PyDict.set d k v) = PyDict.keys d.
Proof.
  induction d as [|[k0 v0] d IH]; simpl; [tauto|].
  destruct (pystr_eqb_spec k0 k) as [->|Hk0]; simpl; [reflexivity|].
  intros [Heq|Hin]; [congruence|]. rewrite IH by exact Hin. reflexivity.
Qed.

(** The loop of [Row.__init__] over keywords with distinct names
    stores every value, encoded, under its name, after what was
    there. *)
Lemma init_loop_distinct (items fields0 fields : PyDict.t pyval) :
  NoDup (PyDict.keys fields0 ++ PyDict.keys items) ->
  Row.init_loop items fields0 = Ret fields ->
  exists stored,
    mapM serialize (PyDict.values items) = Ret stored
    /\ fields = fields0 ++ combine (PyDict.keys items) stored.
Proof.
  revert fields0; induction items as [|[k v] items IH];
    intros fields0 Hnd Hinit.
  - injection Hinit as <-. exists []. split; [reflexivity|].
    simpl. symmetry. apply app_nil_r.
  - simpl in Hinit.
    destruct (serialize v) as [e|] eqn:Hs; [|discriminate].
    simpl in Hinit, Hnd.
    assert (Hfresh : ~ In k (PyDict.keys fields0)).
    { apply NoDup_remove_2 in Hnd. intros Hin. apply Hnd.
      apply in_or_app. left. exact Hin. }
    rewrite set_fresh in Hinit by exact Hfresh.
    destruct (IH (fields0 ++ [(k, e)])) as [stored [Hm ->]].
    + unfold PyDict.keys. rewrite map_app, <- app_assoc. exact Hnd.
    + exact Hinit.
    + exists (e :: stored). unfold PyDict.values, PyDict.keys in *.
      cbn [map mapM snd fst combine]. rewrite Hs. cbn [bind].
      rewrite Hm. cbn [bind].
      split; [reflexivity|]. rewrite <- app_assoc. reflexivity.
Qed.

Lemma get_combine (names : list (list N)) (stored : list pyval)
  (items : PyDict.t pyval) (k : list N) (v : pyval) :
  names = PyDict.keys items ->
  mapM serialize (PyDict.values items) = Ret stored ->
  NoDup names -> In (k, v) items ->
  exists e, serialize v = Ret e
            /\ PyDict.get (combine names stored) k = Some e.
Proof.
  intros -> . revert stored.
  induction items as [|[k0 v0] items IH]; intros stored Hm Hnd Hin;
    [contradiction|].
  unfold PyDict.values, PyDict.keys in *.
  cbn [map mapM snd fst] in Hm, Hnd.
  destruct (serialize v0) as [e0|] eqn:Hs0; [|discriminate].
  cbn [bind] in Hm.
  destruct (mapM serialize (map snd items)) as [rest|] eqn:Hrest;
    [|discriminate].
  cbn [bind] in Hm. injection Hm as <-.
  inversion Hnd as [|? ? Hnot Hnd']; subst.
  cbn [map fst combine PyDict.get]. destruct Hin as [[= -> ->]|Hin].
  - rewrite pystr_eqb_refl. exists e0. auto.
  - destruct (pystr_eqb_spec k0 k) as [->|Hne].
    + exfalso. apply Hnot. apply in_map_iff. exists (k, v). auto.
    + apply (IH rest); auto.
Qed.

Lemma keys_combine {V} (names : list (list N)) (stored : list V) :
  length names = length stored ->
  PyDict.keys (combine names stored) = names.
Proof.
  revert stored; induction names as [|n names IH]; intros [|e stored] Hl;
    try discriminate; [reflexivity|].
  simpl. rewrite (IH stored); [reflexivity|]. simpl in Hl. congruence.
Qed.

(** What [Row(...)] stores when the keywords have distinct names. *)
Lemma init_stored (kwargs : PyDict.t pyval) (row : Row.t) :
  NoDup (PyDict.keys kwargs) ->
  Row.init kwargs = Ret row ->
  exists stored,
    mapM serialize (PyDict.values kwargs) = Ret stored
    /\ length stored = length (PyDict.keys kwargs)
    /\ Row.fields row = combine (PyDict.keys kwargs) stored.
Proof.
  intros Hnd Hinit. unfold Row.init in Hinit.
  destruct (Row.init_loop kwargs []) as [fields|] eqn:Hloop; [|discriminate].
  simpl in Hinit. injection Hinit as <-. simpl.
  destruct (init_loop_distinct kwargs [] fields Hnd Hloop)
    as [stored [Hm Hf]].
  simpl in Hf. subst fields. exists stored.
  split; [exact Hm|]. split; [|reflexivity].
  clear -Hm. unfold PyDict.keys, PyDict.values in *.
  revert stored Hm. induction kwargs as [|[k v] kwargs IH];
    intros stored Hm.
  - injection Hm as <-. reflexivity.
  - simpl in Hm. destruct (serialize v); [|discriminate].
    destruct (mapM serialize (map snd kwargs)) as [rest|];
      [|discriminate].
    simpl in Hm. injection Hm as <-. simpl. rewrite (IH rest eq_refl).
    reflexivity.
Qed.

Lemma init_keys (kwargs : PyDict.t pyval) (row : Row.t) :
  NoDup (PyDict.keys kwargs) ->
  Row.init kwargs = Ret row ->
  PyDict.keys (Row.fields row) = PyDict.keys kwargs.
Proof.
  intros Hnd Hinit.
  destruct (init_stored kwargs row Hnd Hinit) as [stored [_ [Hlen ->]]].
  apply keys_combine. symmetry. exact Hlen.
Qed.

(** X2: a row built from keywords with distinct names has exactly
    these names, in order; [get] of a given name (other than the
    empty one) returns what [decode(encode(v))] gives for the value
    [v] passed under that name. *)
Theorem row_init_get (kwargs : PyDict.t pyval) (row : Row.t) :
  NoDup (PyDict.keys kwargs) ->
  Row.init kwargs = Ret row ->
  PyDict.keys (Row.fields row) = PyDict.keys kwargs
  /\ forall k v, In (k, v) kwargs -> k <> [] ->
                 Row.get k row = round_trip v.
Proof.
  intros Hnd Hinit. split; [exact (init_keys kwargs row Hnd Hinit)|].
  destruct (init_stored kwargs row Hnd Hinit) as [stored [Hm [_ Hf]]].
  intros k v Hin Hk.
  destruct (get_combine _ stored kwargs k v eq_refl Hm Hnd Hin)
    as [e [Hs Hg]].
  unfold Row.get, Row.lookup. rewrite Hf.
  destruct (pystr_eqb_spec k []) as [->|_]; [contradiction|].
  rewrite Hg. unfold round_trip. rewrite Hs. reflexivity.
Qed.

Lemma row_init_get_witness :
  let kwargs := [(py "name", PStr (py "Alice"));
                 (py "sizes", PList [PInt 1; PInt 2])] in
  let row := {| Row.fields := [(py "name", PStr (py "Alice"));
                               (py "sizes", PStr (py "[1, 2]"))] |} in
  NoDup (PyDict.keys kwargs)
  /\ Row.init kwargs = Ret row
  /\ Row.get (py "sizes") row = Ret (PList [PInt 1; PInt 2]).
Proof.
  cbv zeta.
  assert (Hnd : NoDup (PyDict.keys
                         [(py "name", PStr (py "Alice"));
                          (py "sizes", PList [PInt 1; PInt 2])])).
  { repeat (apply NoDup_cons; [simpl; intuition discriminate|]).
    apply NoDup_nil. }
  split; [exact Hnd|]. split; [reflexivity|].
  refine (eq_trans
            (proj2 (row_init_get _ _ Hnd eq_refl) (py "sizes")
               (PList [PInt 1; PInt 2]) _ _) _).
  - right. left. reflexivity.
  - discriminate.
  - reflexivity.
Defined.

(** X3: [Row.add_field] stores the encoded value under the name,
    replacing what the name had: afterwards [get] of that name gives
    the decoded value and every other name reads as before.  When the
    value cannot be encoded, the row is left as it was. *)
Theorem row_add_field_get (field_name : list N) (field_value : pyval)
  (row : Row.t) :
  let after := fst (Row.add_field field_name field_value row) in
  let outcome := snd (Row.add_field field_name field_value row) in
  (forall e, serialize field_value = Raise e ->
             after = row /\ outcome = Raise e)
  /\ (forall stored, serialize field_value = Ret stored ->
        outcome = Ret tt
        /\ (field_name <> [] ->
            Row.get field_name after = deserialize stored)
        /\ forall other, other <> field_name -> other <> [] ->
                         Row.get other after = Row.get other row).
Proof.
  cbv zeta. unfold Row.add_field, bindx, lift, modify. split.
  - intros e ->. simpl. auto.
  - intros stored ->. simpl. split; [reflexivity|]. split.
    + intros Hn. unfold Row.get, Row.lookup. simpl.
      destruct (pystr_eqb_spec field_name []); [contradiction|].
      rewrite get_set, pystr_eqb_refl. reflexivity.
    + intros other Ho Hn. unfold Row.get, Row.lookup. simpl.
      destruct (pystr_eqb_spec other []); [contradiction|].
      rewrite get_set.
      destruct (pystr_eqb_spec field_name other); [congruence|].
      reflexivity.
Qed.

Lemma row_add_field_get_witness :
  let row := {| Row.fields := [(py "name", PStr (py "Alice"))] |} in
  serialize (PList [PInt 1; PInt 2]) = Ret (PStr (py "[1, 2]"))
  /\ Row.get (py "sizes")
       (fst (Row.add_field (py "sizes") (PList [PInt 1; PInt 2]) row))
     = Ret (PList [PInt 1; PInt 2]).
Proof.
  cbv zeta. split; [reflexivity|].
  refine (eq_trans
            (proj1 (proj2 (proj2 (row_add_field_get (py "sizes")
                                    (PList [PInt 1; PInt 2]) _)
                             (PStr (py "[1, 2]")) eq_refl)) _) _).
  - discriminate.
  - reflexivity.
Defined.

(* ------------------------------------------------------------------ *)
(** ** The whole row *)

Lemma comprehension_distinct (self : Row.t) (names : list (list N))
  (out : PyDict.t pyval) :
  NoDup (PyDict.keys out ++ names) ->
  (forall i, In i names -> exists stored x,
        PyDict.get (Row.fields self) i = Some stored
        /\ deserialize stored = Ret x) ->
  exists decoded,
    Row.comprehension self names out = Ret (out ++ combine names decoded)
    /\ length decoded = length names
    /\ forall i v, In (i, v) (combine names decoded) ->
         exists stored, PyDict.get (Row.fields self) i = Some stored
                        /\ deserialize stored = Ret v.
Proof.
  revert out; induction names as [|i names IH]; intros out Hnd Hall.
  - exists []. simpl. rewrite app_nil_r. repeat split. intros i v [].
  - destruct (Hall i (or_introl eq_refl)) as [stored [v [Hg Hv]]].
    assert (Hfresh : ~ In i (PyDict.keys out)).
    { apply NoDup_remove_2 in Hnd. intros Hin. apply Hnd.
      apply in_or_app. left. exact Hin. }
    destruct (IH (out ++ [(i, v)])) as [decoded [Hc [Hl Hd]]].
    + unfold PyDict.keys. rewrite map_app, <- app_assoc. exact Hnd.
    + intros j Hj. apply Hall. right. exact Hj.
    + exists (v :: decoded). simpl. unfold Row.lookup. rewrite Hg. simpl.
      rewrite Hv. simpl. rewrite set_fresh by exact Hfresh.
      rewrite Hc, <- app_assoc. split; [reflexivity|].
      split; [simpl; congruence|].
      intros j w [[= <- <-]|Hin]; [exists stored; auto|apply Hd; exact Hin].
Qed.

Lemma get_in_values {V} (d : PyDict.t V) (i : list N) (v : V) :
  PyDict.get d i = Some v -> In v (PyDict.values d).
Proof.
  induction d as [|[k e] d IH]; [discriminate|].
  simpl. destruct (pystr_eqb k i).
  - intros [= ->]. left. reflexivity.
  - intros Hg. right. exact (IH Hg).
Qed.

(** X4: on a row with distinct names, [get('')] returns a mapping
    with exactly the stored names, in order, each with the decoded
    form of its stored value, when [deserialize] returns for every
    stored value; when [get('')] raises, the exception is one that
    [deserialize] raises on a stored value. *)
Theorem get_empty_name_mapping (row : Row.t) :
  NoDup (PyDict.keys (Row.fields row)) ->
  ((forall stored, In stored (PyDict.values (Row.fields row)) ->
                   exists x, deserialize stored = Ret x) ->
   exists d,
     Row.get [] row = Ret (Row.as_dict d)
     /\ PyDict.keys d = PyDict.keys (Row.fields row)
     /\ forall i v, In (i, v) d ->
          exists stored, PyDict.get (Row.fields row) i = Some stored
                         /\ deserialize stored = Ret v)
  /\ (forall e, Row.get [] row = Raise e ->
                exists stored,
                  In stored (PyDict.values (Row.fields row))
                  /\ deserialize stored = Raise e).
Proof.
  intros Hnd. split; [|apply get_empty_name_raises].
  intros Hall.
  destruct (comprehension_distinct row (PyDict.keys (Row.fields row)) [])
    as [decoded [Hc [Hl Hd]]].
  - exact Hnd.
  - intros i Hi.
    destruct (PyDict.get (Row.fields row) i) as [stored|] eqn:Hg.
    + destruct (Hall stored (get_in_values _ _ _ Hg)) as [x Hx].
      exists stored, x. split; [reflexivity|exact Hx].
    + exfalso. revert Hg. apply get_own_key. exact Hi.
  - exists (combine (PyDict.keys (Row.fields row)) decoded).
    unfold Row.get. simpl. rewrite Hc. simpl.
    split; [reflexivity|]. split; [|exact Hd].
    apply keys_combine. symmetry. exact Hl.
Qed.

Lemma get_empty_name_mapping_witness :
  let row := {| Row.fields := [(py "name", PStr (py "Alice"));
                               (py "sizes", PStr (py "[1, 2]"))] |} in
  NoDup (PyDict.keys (Row.fields row))
  /\ exists d, Row.get [] row = Ret (Row.as_dict d)
               /\ PyDict.keys d = [py "name"; py "sizes"].
Proof.
  cbv zeta.
  assert (Hnd : NoDup (PyDict.keys
                         [(py "name", PStr (py "Alice"));
                          (py "sizes", PStr (py "[1, 2]"))])).
  { repeat (apply NoDup_cons; [simpl; intuition discriminate|]).
    apply NoDup_nil. }
  split; [exact Hnd|].
  destruct (proj1 (get_empty_name_mapping
                     {| Row.fields := [(py "name", PStr (py "Alice"));
                                       (py "sizes", PStr (py "[1, 2]"))] |}
                     Hnd))
    as [d [Hg [Hk _]]].
  - intros stored [<-|[<-|[]]]; eexists; reflexivity.
  - exists d. split; [exact Hg|exact Hk].
Defined.

(* ------------------------------------------------------------------ *)
(** ** More on the codec *)

Lemma mapM_raises {A B} (f : A -> result B) (P : exn -> Prop)
  (l : list A) (e : exn) :
  Forall (fun x => forall e, f x = Raise e -> P e) l ->
  mapM f l = Raise e -> P e.
Proof.
  induction 1 as [|x l Hx Hl IH]; [discriminate|].
  simpl. destruct (f x) as [y|ex] eqn:Hfx.
  - destruct (mapM f l) as [ys|el]; [discriminate|].
    simpl. intros [= <-]. apply IH. reflexivity.
  - simpl. intros [= <-]. apply Hx. reflexivity.
Qed.

Lemma int_str_raises (z : Z) (e : exn) :
  int_str z = Raise e -> e = ValueError IntMaxStrDigits.
Proof.
  unfold int_str.
  destruct (int_max_str_digits <? length (digits_of_N (Z.abs_N z)))%nat;
    [|discriminate].
  intros [= <-]. reflexivity.
Qed.

Lemma key_text_raises (k : pyval) (e : exn) :
  Json.key_text k = Raise e -> e = TypeError \/ interpreter_limit e.
Proof.
  destruct k as [| [|] | z | f | s | b | l | l | d]; simpl;
    try discriminate; try (intros [= <-]; left; reflexivity).
  intros Hz. right. left. exact (int_str_raises z e Hz).
Qed.

(** The encoder raises [TypeError] for what JSON cannot carry, and
    the exceptions of the two limits. *)
Lemma encode_raises (v : pyval) :
  forall room e,
    Json.encode room v = Raise e -> e = TypeError \/ interpreter_limit e.
Proof.
  induction v as [| b | z | f | s | b | l IH | l IH | d IH] using pyval_ind';
    intros room e He; try discriminate.
  - destruct b; discriminate.
  - right. left. exact (int_str_raises z e He).
  - injection He as <-. left. reflexivity.
  - destruct room as [|room];
      [injection He as <-; right; right; reflexivity|].
    rewrite encode_list in He.
    destruct (mapM (Json.encode room) l) as [items|e'] eqn:Hm;
      [discriminate|].
    simpl in He. injection He as <-.
    apply (mapM_raises (Json.encode room)
             (fun e => e = TypeError \/ interpreter_limit e) l e');
      [|exact Hm].
    rewrite Forall_forall in *. intros x Hx e. apply (IH x Hx).
  - destruct room as [|room];
      [injection He as <-; right; right; reflexivity|].
    change (Json.encode (S room) (PTuple l))
      with (Json.encode (S room) (PList l)) in He.
    rewrite encode_list in He.
    destruct (mapM (Json.encode room) l) as [items|e'] eqn:Hm;
      [discriminate|].
    simpl in He. injection He as <-.
    apply (mapM_raises (Json.encode room)
             (fun e => e = TypeError \/ interpreter_limit e) l e');
      [|exact Hm].
    rewrite Forall_forall in *. intros x Hx e. apply (IH x Hx).
  - destruct room as [|room];
      [injection He as <-; right; right; reflexivity|].
    rewrite encode_dict in He.
    destruct (encode_members room d) as [members|e'] eqn:Hm;
      [discriminate|].
    simpl in He. injection He as <-.
    clear -IH Hm. revert e' Hm. induction IH as [|[k x] d [_ Hx] Hd IHd];
      intros e' Hm; [discriminate|].
    rewrite encode_members_cons in Hm.
    destruct (Json.key_text k) as [kt|ek] eqn:Hk.
    + simpl in Hm, Hx. destruct (Json.encode room x) as [tx|ex] eqn:Hex.
      * simpl in Hm. destruct (encode_members room d) as [ms|ed] eqn:Hed;
          [discriminate|].
        simpl in Hm. injection Hm as <-. apply IHd. reflexivity.
      * simpl in Hm. injection Hm as <-. exact (Hx room ex Hex).
    + simpl in Hm. injection Hm as <-. exact (key_text_raises k ek Hk).
Qed.

(** X5: [serialize] changes lists and dictionaries only, and gives
    text for them; what it returns it returns again unchanged (no
    double encoding); it raises for a list or dictionary only:
    [TypeError] for what JSON cannot carry, [ValueError] for an
    integer of more than 4300 digits, [RecursionError] for nesting
    beyond the recursion limit.  The values are finite trees: a list
    or dictionary that contains itself, for which [json.dumps] raises
    [ValueError] too, is not covered. *)
Theorem serialize_outcomes (value : pyval) :
  (forall e, serialize value = Ret e ->
             serialize e = Ret e
             /\ ~ composite e
             /\ (~ composite value -> e = value)
             /\ (composite value -> exists text, e = PStr text))
  /\ (forall exc, serialize value = Raise exc ->
                  composite value
                  /\ (exc = TypeError
                      \/ exc = ValueError IntMaxStrDigits
                      \/ exc = RecursionError)).
Proof.
  unfold serialize.
  destruct (isinstance value TDict || isinstance value TList) eqn:Hi.
  - assert (Hc : composite value)
      by (destruct value; try discriminate; exact I).
    unfold Json.dumps.
    destruct (Json.encode Json.recursion_limit value) as [t|ex] eqn:He;
      simpl.
    + split; [|discriminate]. intros e [= <-].
      split; [reflexivity|]. split; [intros []|].
      split; [intros H; contradiction|].
      intros _. exists t. reflexivity.
    + split; [discriminate|]. intros exc [= <-].
      split; [exact Hc|apply (encode_raises value _ ex He)].
  - assert (Hc : ~ composite value)
      by (destruct value; try discriminate; intros []).
    split; [|discriminate]. intros e [= <-]. rewrite Hi.
    split; [reflexivity|]. split; [exact Hc|].
    split; [reflexivity|]. intros H. contradiction.
Qed.

Lemma serialize_outcomes_witness :
  serialize (PList [PBytes ["255"%byte]]) = Raise TypeError
  /\ composite (PList [PBytes ["255"%byte]]).
Proof.
  split; [reflexivity|].
  exact (proj1 (proj2 (serialize_outcomes (PList [PBytes ["255"%byte]]))
                  TypeError eq_refl)).
Defined.

(** X6: [deserialize] returns a value that is neither text nor a
    byte string as it is.  On text it returns the parsed value when
    the text is valid JSON and the text itself when it is not, unless
    [json.loads] stops at one of the interpreter's limits: then the
    [ValueError] of an integer of more than 4300 digits, or
    [RecursionError], leaves [deserialize]. *)
Theorem deserialize_off_bytes (value : pyval) :
  (forall b, value <> PBytes b) ->
  ((forall s, value <> PStr s) -> deserialize value = Ret value)
  /\ (deserialize value = Ret (match parsed_text value with
                               | Some parsed => parsed
                               | None => value
                               end)
      \/ exists s e,
           value = PStr s /\ interpreter_limit e
           /\ deserialize value = Raise e).
Proof.
  intros Hb. split; [intros Hs; apply deserialize_returns; assumption|].
  destruct value; try (left; reflexivity).
  - unfold deserialize, parsed_text.
    destruct (Json.loads (PStr s)) as [parsed|e] eqn:Hl;
      [left; reflexivity|].
    destruct (loads_text_raises s e Hl) as [->|Hlim];
      [left; reflexivity|].
    right. exists s, e. split; [reflexivity|]. split; [exact Hlim|].
    destruct Hlim as [-> | ->]; reflexivity.
  - exfalso. apply (Hb b). reflexivity.
Qed.

Lemma deserialize_off_bytes_witness :
  (forall b, PList [PInt 1] <> PBytes b)
  /\ deserialize (PList [PInt 1]) = Ret (PList [PInt 1]).
Proof.
  assert (H : forall b, PList [PInt 1] <> PBytes b) by discriminate.
  split; [exact H|].
  apply (proj1 (deserialize_off_bytes (PList [PInt 1]) H)). discriminate.
Defined.

(* ------------------------------------------------------------------ *)
(** ** More on tables *)

Lemma filter_filter {A} (f g : A -> bool) (l : list A) :
  filter f (filter g l) = filter (fun x => g x && f x) l.
Proof.
  induction l as [|x l IH]; [reflexivity|]. simpl.
  destruct (g x); simpl; [destruct (f x); rewrite IH; reflexivity|exact IH].
Qed.

(** X7: [delete_row] removes the rows the condition holds of and keeps
    the others in order, with the schema as it was; afterwards [find]
    with the same condition returns nothing, and [find] with any
    other condition (and no limit) returns what it returned before,
    less the deleted rows. *)
Theorem delete_row_removes_matches
  (self : Table.t) (condition : Row.t -> bool) :
  let after := Table.delete_row condition self in
  Table._fields after = Table._fields self
  /\ (forall row, In row (Table._rows after) <->
                  In row (Table._rows self) /\ condition row = false)
  /\ (forall amount, Table.find condition amount after = [])
  /\ (forall other,
         Table.find other 0 after
         = filter (fun row => negb (condition row))
             (Table.find other 0 self)).
Proof.
  cbv zeta. split; [reflexivity|]. split; [|split].
  - intros row. simpl. rewrite filter_In, negb_true_iff. tauto.
  - intros amount. unfold Table.find. simpl.
    assert (H : filter condition
                  (filter (fun row => negb (condition row))
                     (Table._rows self)) = []).
    { rewrite filter_filter.
      induction (Table._rows self) as [|r l IH]; [reflexivity|].
      simpl. destruct (condition r); simpl; exact IH. }
    rewrite H. destruct (amount >? 0)%Z; [apply firstn_nil|reflexivity].
  - intros other. unfold Table.find. simpl.
    rewrite !filter_filter. apply filter_ext.
    intros row. apply andb_comm.
Qed.

Lemma name_in_app (n : list N) (a b : list (list N)) :
  Table.name_in n (a ++ b) = Table.name_in n a || Table.name_in n b.
Proof. unfold Table.name_in. apply existsb_app. Qed.

Lemma delete_keys_app (a b : list (list N)) (row : Row.t) :
  Table.delete_keys (a ++ b) row
  = Table.delete_keys b (Table.delete_keys a row).
Proof.
  revert row; induction a as [|n a IH]; intros row; [reflexivity|].
  simpl. apply IH.
Qed.

(** X8: deleting fields in two calls is deleting them in one call with
    all the names: [delete_fields] of the names [b] after
    [delete_fields] of the names [a] is [delete_fields] of [a] and
    [b] together. *)
Theorem delete_fields_twice (a b : list (list N)) (self : Table.t) :
  Table.delete_fields b (Table.delete_fields a self)
  = Table.delete_fields (a ++ b) self.
Proof.
  unfold Table.delete_fields. simpl. f_equal.
  - rewrite filter_filter. apply filter_ext. intros field.
    rewrite name_in_app, negb_orb. reflexivity.
  - rewrite map_map. apply map_ext. intros row.
    symmetry. apply delete_keys_app.
Qed.

(** The loop of [add_fields], unrolled. *)
Lemma add_fields_unfold (fields_dict : PyDict.t pytype) (self : Table.t) :
  Table.add_fields fields_dict self
  = {| Table.name := Table.name self;
       Table._fields :=
         Table._fields self
         ++ map (fun item => {| Field.name := fst item;
                                Field.data_type := snd item |}) fields_dict;
       Table._rows := Table._rows self |}.
Proof.
  revert self; induction fields_dict as [|[n ty] rest IH]; intros self.
  - simpl. rewrite app_nil_r. destruct self; reflexivity.
  - simpl. rewrite IH. unfold Table.add_field. simpl.
    rewrite <- app_assoc. reflexivity.
Qed.

(** X9: [add_fields] appends one field for each item of the
    dictionary, in the order of the items, after the fields the table
    has, and touches neither the name nor the rows: a row that was
    there does not get the new names. *)
Theorem add_fields_appends (fields_dict : PyDict.t pytype) (self : Table.t) :
  Table.name (Table.add_fields fields_dict self) = Table.name self
  /\ Table._fields (Table.add_fields fields_dict self)
     = Table._fields self
       ++ map (fun item => {| Field.name := fst item;
                              Field.data_type := snd item |}) fields_dict
  /\ Table._rows (Table.add_fields fields_dict self) = Table._rows self.
Proof. rewrite add_fields_unfold. repeat split. Qed.

(* ------------------------------------------------------------------ *)
(** ** Rows that fit the schema *)

Lemma expected_known (self : Table.t) (n : list N) (ty : pytype) :
  Table.expected_data_type self n = Some ty -> In n (field_names self).
Proof.
  unfold Table.expected_data_type, field_names.
  destruct (find _ (Table._fields self)) as [field|] eqn:Hf; [|discriminate].
  intros _. apply find_some in Hf. destruct Hf as [Hin Heq].
  apply pystr_eqb_eq in Heq. subst n. apply in_map. exact Hin.
Qed.

(** X10: when keywords have distinct names, a successful [add_row]
    keeps the table consistent: the new row has exactly the names of
    the schema, and the rows that fitted the schema still do. *)
Theorem add_row_keeps_consistent
  (self : Table.t) (kwargs : PyDict.t pyval) :
  NoDup (PyDict.keys kwargs) ->
  consistent self ->
  consistent (fst (Table.add_row kwargs self)).
Proof.
  intros Hnd Hcons.
  destruct (snd (Table.add_row kwargs self)) as [[]|e] eqn:Hout.
  - destruct (add_row_ret_inv self kwargs Hout) as [Hacc [row [Hrow ->]]].
    unfold consistent in *. simpl. apply Forall_app. split.
    + exact Hcons.
    + constructor; [|constructor].
      pose proof (init_keys kwargs row Hnd Hrow) as Hkeys.
      destruct Hacc as [Hlen Hall].
      assert (Hincl : incl (PyDict.keys kwargs) (field_names self)).
      { intros n Hn. unfold PyDict.keys in Hn. apply in_map_iff in Hn.
        destruct Hn as [kv [<- Hkv]].
        rewrite Forall_forall in Hall.
        destruct (Hall kv Hkv) as [ty [Hty _]].
        apply (expected_known self _ ty Hty). }
      intros n. unfold field_names in *. simpl. rewrite Hkeys. split.
      * apply Hincl.
      * apply (NoDup_length_incl Hnd); [|exact Hincl].
        unfold PyDict.keys. rewrite !length_map. lia.
  - rewrite (add_row_raise_unchanged self kwargs e Hout). exact Hcons.
Qed.

Lemma add_row_keeps_consistent_witness :
  let users :=
    Table.add_fields [(py "name", TStr); (py "age", TInt)]
      (Table.init (py "users")) in
  let kwargs := [(py "age", PInt 30); (py "name", PStr (py "Alice"))] in
  NoDup (PyDict.keys kwargs)
  /\ consistent users
  /\ consistent (fst (Table.add_row kwargs users)).
Proof.
  cbv zeta.
  assert (Hnd : NoDup (PyDict.keys
                         [(py "age", PInt 30);
                          (py "name", PStr (py "Alice"))])).
  { repeat (apply NoDup_cons; [simpl; intuition discriminate|]).
    apply NoDup_nil. }
  assert (Hc : consistent
                 (Table.add_fields [(py "name", TStr); (py "age", TInt)]
                    (Table.init (py "users")))) by constructor.
  split; [exact Hnd|]. split; [exact Hc|].
  exact (add_row_keeps_consistent _ _ Hnd Hc).
Defined.

(** X11: [delete_fields] and [delete_row] keep a consistent table
    consistent: after [delete_fields] every row has exactly the names
    of the fields that remain. *)
Theorem deletes_keep_consistent (self : Table.t) :
  consistent self ->
  (forall field_names, consistent (Table.delete_fields field_names self))
  /\ (forall condition, consistent (Table.delete_row condition self)).
Proof.
  unfold consistent. intros Hcons. split.
  - intros names. simpl. rewrite Forall_map.
    rewrite Forall_forall in *. intros row Hrow n.
    specialize (Hcons row Hrow n).
    unfold field_names in *. simpl.
    pose proof (get_delete_keys names row n) as Hg.
    pose proof (get_keys (Row.fields (Table.delete_keys names row)) n) as Hk.
    pose proof (get_keys (Row.fields row) n) as Hk0.
    rewrite in_map_iff. split.
    + intros Hin.
      destruct (Table.name_in n names) eqn:Hn.
      * exfalso. rewrite Hg in Hk. apply (proj1 Hk eq_refl). exact Hin.
      * assert (Hin0 : In n (PyDict.keys (Row.fields row))).
        { destruct (in_dec (list_eq_dec N.eq_dec) n
                      (PyDict.keys (Row.fields row))) as [H|H]; [exact H|].
          exfalso. apply Hk0 in H. rewrite Hg, H in Hk.
          apply (proj1 Hk eq_refl). exact Hin. }
        apply Hcons in Hin0. apply in_map_iff in Hin0.
        destruct Hin0 as [field [Hf Hfin]]. exists field.
        split; [exact Hf|]. apply filter_In. split; [exact Hfin|].
        rewrite Hf, Hn. reflexivity.
    + intros [field [Hf Hfin]]. apply filter_In in Hfin.
      destruct Hfin as [Hfin Hkeep]. rewrite Hf in Hkeep.
      apply negb_true_iff in Hkeep. rewrite Hkeep in Hg.
      assert (Hin0 : In n (PyDict.keys (Row.fields row))).
      { apply Hcons. apply in_map_iff. exists field. auto. }
      destruct (in_dec (list_eq_dec N.eq_dec) n
                  (PyDict.keys (Row.fields (Table.delete_keys names row))))
        as [H|H]; [exact H|].
      exfalso. apply Hk in H. rewrite H in Hg. symmetry in Hg.
      apply Hk0 in Hg. contradiction.
  - intros condition. simpl. rewrite Forall_forall in *.
    intros row Hrow. apply filter_In in Hrow. destruct Hrow as [Hrow _].
    exact (Hcons row Hrow).
Qed.

Lemma deletes_keep_consistent_witness :
  let users :=
    {| Table.name := py "users";
       Table._fields := [{| Field.name := py "name"; Field.data_type := TStr |};
                         {| Field.name := py "age"; Field.data_type := TInt |}];
       Table._rows := [{| Row.fields := [(py "name", PStr (py "Alice"));
                                         (py "age", PInt 30)] |}] |} in
  consistent users /\ consistent (Table.delete_fields [py "age"] users).
Proof.
  cbv zeta.
  assert (Hc : consistent
                 {| Table.name := py "users";
                    Table._fields :=
                      [{| Field.name := py "name"; Field.data_type := TStr |};
                       {| Field.name := py "age"; Field.data_type := TInt |}];
                    Table._rows :=
                      [{| Row.fields := [(py "name", PStr (py "Alice"));
                                         (py "age", PInt 30)] |}] |}).
  { constructor; [|constructor]. intros n. reflexivity. }
  split; [exact Hc|].
  exact (proj1 (deletes_keep_consistent _ Hc) [py "age"]).
Defined.

(* ------------------------------------------------------------------ *)
(** ** The tables of a database *)

Lemma contains_true_get {V} (d : PyDict.t V) (k : list N) :
  PyDict.contains d k = true <-> exists v, PyDict.get d k = Some v.
Proof.
  destruct (PyDict.contains d k) eqn:Hc.
  - split; [intros _|reflexivity].
    destruct (PyDict.get d k) as [v|] eqn:Hg; [exists v; reflexivity|].
    apply contains_get in Hg. congruence.
  - split; [discriminate|]. intros [v Hv].
    apply contains_get in Hc. congruence.
Qed.

(** X12: [create] refuses a name the database has, with [ValueError],
    and leaves the database as it was (the first table stays in
    reach); for a new name it stores and returns a table with the
    given fields in order and no rows, which [get] then returns,
    while every other name reads as before. *)
Theorem create_then_get
  (table_name : list N) (fields : PyDict.t pytype) (self : Database.t) :
  (PyDict.contains (Database._tables self) table_name = true ->
   Database.create table_name fields self
   = (self, Raise (ValueError (TableAlreadyExists table_name))))
  /\ (PyDict.contains (Database._tables self) table_name = false ->
      let table :=
        {| Table.name := table_name;
           Table._fields :=
             map (fun item => {| Field.name := fst item;
                                 Field.data_type := snd item |}) fields;
           Table._rows := [] |} in
      let after := fst (Database.create table_name fields self) in
      snd (Database.create table_name fields self) = Ret table
      /\ Database.get table_name after = Ret table
      /\ forall other, other <> table_name ->
                       Database.get other after = Database.get other self).
Proof.
  unfold Database.create, bindx, get_state. simpl. split.
  - intros ->. reflexivity.
  - intros ->. cbv zeta. unfold modify, pure. simpl.
    rewrite add_fields_unfold. simpl. split; [reflexivity|]. split.
    + unfold Database.get. simpl. rewrite get_set, pystr_eqb_refl.
      reflexivity.
    + intros other Ho. unfold Database.get. simpl. rewrite get_set.
      destruct (pystr_eqb_spec table_name other); [congruence|].
      reflexivity.
Qed.

Lemma create_then_get_witness :
  let db := fst (Database.create (py "x") [(py "n", TInt)]
                   (Database.init (py "app.db"))) in
  PyDict.contains (Database._tables db) (py "x") = true
  /\ Database.create (py "x") [(py "n", TStr)] db
     = (db, Raise (ValueError (TableAlreadyExists (py "x")))).
Proof.
  cbv zeta. split; [reflexivity|].
  exact (proj1 (create_then_get (py "x") [(py "n", TStr)]
                  (fst (Database.create (py "x") [(py "n", TInt)]
                   (Database.init (py "app.db"))))) eq_refl).
Defined.

(** X13: [delete] and [get] raise [KeyError] for a name the database
    does not have, and [delete] then changes nothing; [delete] of a
    name it has makes [get] of that name raise [KeyError] and leaves
    every other name as it was. *)
Theorem delete_then_get (table_name : list N) (self : Database.t) :
  (PyDict.contains (Database._tables self) table_name = false ->
   Database.delete table_name self = (self, Raise (KeyError table_name))
   /\ Database.get table_name self = Raise (KeyError table_name))
  /\ (PyDict.contains (Database._tables self) table_name = true ->
      let after := fst (Database.delete table_name self) in
      snd (Database.delete table_name self) = Ret tt
      /\ Database.get table_name after = Raise (KeyError table_name)
      /\ forall other, other <> table_name ->
                       Database.get other after = Database.get other self).
Proof.
  unfold Database.delete, bindx, get_state. simpl. split.
  - intros Hc. rewrite Hc. simpl. split; [reflexivity|].
    unfold Database.get. apply contains_get in Hc. rewrite Hc. reflexivity.
  - intros ->. cbv zeta. unfold modify. simpl.
    split; [reflexivity|]. split.
    + unfold Database.get. simpl. rewrite get_del, pystr_eqb_refl.
      reflexivity.
    + intros other Ho. unfold Database.get. simpl. rewrite get_del.
      destruct (pystr_eqb_spec table_name other); [congruence|].
      reflexivity.
Qed.

Lemma delete_then_get_witness :
  let db := fst (Database.create (py "x") [(py "n", TInt)]
                   (Database.init (py "app.db"))) in
  PyDict.contains (Database._tables db) (py "x") = true
  /\ Database.get (py "x") (fst (Database.delete (py "x") db))
     = Raise (KeyError (py "x")).
Proof.
  cbv zeta. split; [reflexivity|].
  exact (proj1 (proj2 (proj2 (delete_then_get (py "x")
                                (fst (Database.create (py "x") [(py "n", TInt)]
                   (Database.init (py "app.db"))))) eq_refl))).
Defined.

(* ------------------------------------------------------------------ *)
(** ** Column kinds and inferred types *)

(** X14: for the field types [int], [float], [str], [list] and
    [dict], the type [load] infers from the column kind [save]
    declares accepts every value the declared type accepts; a field
    of the inferred type [Union[list, dict]] is declared as TEXT when
    saved again, and inferred as [str] from there. *)
Theorem inferred_type_accepts (data_type : pytype) (value : pyval) :
  In data_type [TInt; TFloat; TStr; TList; TDict] ->
  isinstance value data_type = true ->
  isinstance value (Database.field_type (Database.column_kind data_type))
  = true
  /\ (composite value ->
      Database.field_type (Database.column_kind data_type) = TListOrDict
      /\ Database.field_type (Database.column_kind TListOrDict) = TStr).
Proof.
  intros Hty Hi.
  destruct Hty as [<-|[<-|[<-|[<-|[<-|[]]]]]];
    destruct value; try discriminate Hi;
    (split; [reflexivity|]); intros Hc; try contradiction;
    split; reflexivity.
Qed.

Lemma inferred_type_accepts_witness :
  In TList [TInt; TFloat; TStr; TList; TDict]
  /\ isinstance (PList [PInt 1]) TList = true
  /\ isinstance (PList [PInt 1])
       (Database.field_type (Database.column_kind TList)) = true.
Proof.
  assert (H : In TList [TInt; TFloat; TStr; TList; TDict])
    by (right; right; right; left; reflexivity).
  split; [exact H|]. split; [reflexivity|].
  exact (proj1 (inferred_type_accepts TList (PList [PInt 1]) H eq_refl)).
Defined.

(* ------------------------------------------------------------------ *)
(** ** What [load] leaves alone *)

Lemma on_table_other {A} (m n : list N) (act : exec Table.t A)
  (self : Database.t) :
  m <> n ->
  PyDict.get (Database._tables (fst (Database.on_table m act self))) n
  = PyDict.get (Database._tables self) n.
Proof.
  intros Hmn. unfold Database.on_table.
  destruct (PyDict.get (Database._tables self) m) as [table|];
    [|reflexivity].
  destruct (act table) as [table' r]. simpl. rewrite get_set.
  destruct (pystr_eqb_spec m n); [contradiction|reflexivity].
Qed.

Lemma for_each_keeps {S A} (P : S -> Prop) (l : list A)
  (body : A -> exec S unit) :
  (forall x s, P s -> P (fst (body x s))) ->
  forall s, P s -> P (fst (for_each l body s)).
Proof.
  intros Hbody. induction l as [|x l IH]; intros s Hs; [exact Hs|].
  simpl. unfold bindx. specialize (Hbody x s Hs).
  destruct (body x s) as [s' [[]|e]]; simpl in *; [apply IH|]; exact Hbody.
Qed.

Lemma load_table_keeps (file : Sqlite.db) (m n : list N) (t : Table.t)
  (self : Database.t) :
  PyDict.get (Database._tables self) n = Some t ->
  PyDict.get (Database._tables (fst (Database.load_table file m self))) n
  = Some t.
Proof.
  intros Hn. unfold Database.load_table.
  destruct (pystr_eqb m (py "sqlite_sequence")); [exact Hn|].
  unfold bindx at 1. unfold Database.create, bindx, get_state. simpl.
  destruct (pystr_eqb_spec m n) as [->|Hmn].
  - assert (Hc : PyDict.contains (Database._tables self) n = true)
      by (apply contains_true_get; exists t; exact Hn).
    rewrite Hc. simpl. exact Hn.
  - destruct (PyDict.contains (Database._tables self) m); [exact Hn|].
    unfold modify, pure. simpl.
    set (db1 := Database.set_table m _ self).
    assert (H1 : PyDict.get (Database._tables db1) n = Some t).
    { unfold db1. simpl. rewrite get_set.
      destruct (pystr_eqb_spec m n); [contradiction|exact Hn]. }
    clearbody db1. unfold lift.
    destruct (Sqlite.select_all file m) as [rows|e]; [|exact H1].
    apply (for_each_keeps
             (fun s => PyDict.get (Database._tables s) n = Some t));
      [|exact H1].
    intros row s Hs. unfold Database.load_row, bindx, lift.
    destruct (Database.row_kwargs _ _ _) as [kwargs|e]; [|exact Hs].
    destruct (PyDict.contains kwargs (py "self")); [exact Hs|].
    rewrite on_table_other by exact Hmn. exact Hs.
Qed.

(** X15: [load] neither changes nor removes a table the database
    already has; and when the database the connection opens has a
    table (other than [sqlite_sequence]) under a name the database
    already has, [load] raises. *)
Theorem load_keeps_existing_tables
  (file : Sqlite.db) (self : Database.t) (n : list N) (t : Table.t) :
  PyDict.get (Database._tables self) n = Some t ->
  PyDict.get (Database._tables (fst (Database.load file self))) n = Some t
  /\ (In n (Sqlite.table_names
              (Sqlite.connect (Database.db_file self) file)) ->
      n <> py "sqlite_sequence" ->
      exists e, snd (Database.load file self) = Raise e).
Proof.
  intros Hn. unfold Database.load.
  set (conn := Sqlite.connect (Database.db_file self) file).
  clearbody conn. clear file. rename conn into file. split.
  - apply (for_each_keeps
             (fun s => PyDict.get (Database._tables s) n = Some t));
      [|exact Hn].
    intros m s Hs. apply load_table_keeps. exact Hs.
  - intros Hin Hseq. revert self Hn.
    induction (Sqlite.table_names file) as [|m names IH]; intros self Hn;
      [contradiction|].
    simpl. unfold bindx.
    pose proof (load_table_keeps file m n t self Hn) as Hkeep.
    destruct (Database.load_table file m self) as [s' [[]|e]] eqn:Hl;
      simpl in Hkeep; [|exists e; reflexivity].
    destruct Hin as [->|Hin]; [|apply (IH Hin s' Hkeep)].
    exfalso. unfold Database.load_table in Hl.
    destruct (pystr_eqb_spec n (py "sqlite_sequence")); [contradiction|].
    unfold bindx at 1 in Hl.
    unfold Database.create, bindx, get_state in Hl. simpl in Hl.
    assert (Hc : PyDict.contains (Database._tables self) n = true)
      by (apply contains_true_get; exists t; exact Hn).
    rewrite Hc in Hl. simpl in Hl. discriminate.
Qed.

Lemma load_keeps_existing_tables_witness :
  let db := fst (Database.create (py "users") [(py "name", TStr)]
                   (Database.init (py "app.db"))) in
  let file := [{| Sqlite.tbl_name := py "users";
                  Sqlite.columns := [(py "name", py "TEXT")];
                  Sqlite.rows := [] |}] in
  (exists t, PyDict.get (Database._tables db) (py "users") = Some t)
  /\ exists e, snd (Database.load file db) = Raise e.
Proof.
  cbv zeta. split; [eexists; reflexivity|].
  refine (proj2 (load_keeps_existing_tables
                   [{| Sqlite.tbl_name := py "users";
                       Sqlite.columns := [(py "name", py "TEXT")];
                       Sqlite.rows := [] |}]
                   (fst (Database.create (py "users") [(py "name", TStr)]
                           (Database.init (py "app.db"))))
                   (py "users") _ eq_refl) _ _).
  - left. reflexivity.
  - discriminate.
Defined.

(* ------------------------------------------------------------------ *)
(** ** [save] on storable data *)



















(* ------------------------------------------------------------------ *)
(** ** [load] on what [save] wrote *)
















(* ------------------------------------------------------------------ *)
(** ** The text of the encoder is ASCII *)

Lemma ascii_scalar (c : N) : c < 128 -> is_scalar_value c = true.
Proof.
  intros Hc. unfold is_scalar_value.
  destruct (N.ltb_spec c 1114112); [|lia].
  destruct (N.leb_spec 55296 c); [lia|]. reflexivity.
Qed.

Lemma ascii_valid (t : list N) : ascii_text t -> valid_text t.
Proof.
  unfold ascii_text, valid_text. intros H. rewrite Forall_forall in *.
  intros c Hc. apply ascii_scalar. exact (H c Hc).
Qed.

Lemma hex_digit_ascii (n : N) : n < 16 -> hex_digit n < 128.
Proof. intros Hn. unfold hex_digit. destruct (N.ltb_spec n 10); lia. Qed.

Lemma hex4_ascii (n : N) : ascii_text (hex4 n).
Proof.
  unfold hex4. repeat constructor; apply hex_digit_ascii;
    apply N.mod_lt; discriminate.
Qed.

Lemma escape_char_ascii (c : N) : ascii_text (Json.escape_char c).
Proof.
  assert (H92 : forall t, ascii_text t -> ascii_text (92 :: 117 :: t))
    by (intros t Ht; constructor; [lia|]; constructor; [lia|exact Ht]).
  unfold Json.escape_char.
  repeat match goal with
         | |- context [if ?b then _ else _] => destruct b eqn:?
         end;
    try (repeat constructor; lia).
  - constructor; [|constructor].
    match goal with
    | H : (32 <=? c) && (c <=? 126) = true |- _ =>
        apply andb_true_iff in H; destruct H as [_ H];
        apply N.leb_le in H; lia
    end.
  - apply H92, hex4_ascii.
  - apply Forall_app. split; apply H92, hex4_ascii.
Qed.

Lemma basestring_ascii (s : list N) :
  ascii_text (Json.encode_basestring_ascii s).
Proof.
  unfold Json.encode_basestring_ascii. constructor; [lia|].
  apply Forall_app. split; [|repeat constructor; lia].
  induction s as [|c s IH]; [constructor|].
  simpl. apply Forall_app. split; [apply escape_char_ascii|exact IH].
Qed.

Lemma int_repr_ascii (z : Z) : ascii_text (int_repr z).
Proof.
  assert (Hd : forall n, ascii_text (digits_of_N n)).
  { intros n. pose proof (digits_of_N_are_digits n) as H.
    unfold ascii_text. rewrite Forall_forall in *. intros c Hc.
    pose proof (digit_range c (H c Hc)). lia. }
  destruct z as [|q|q]; simpl.
  - repeat constructor; lia.
  - apply Hd.
  - constructor; [lia|apply Hd].
Qed.

Lemma join_ascii (items : list (list N)) :
  Forall ascii_text items -> ascii_text (Json.join items).
Proof.
  induction 1 as [|x items Hx Hitems IH]; [constructor|].
  destruct items as [|y items]; [exact Hx|].
  rewrite join_two. apply Forall_app. split; [exact Hx|].
  constructor; [lia|]. constructor; [lia|exact IH].
Qed.

(** The text of a value without floats is ASCII. *)
Lemma exact_ascii (v : pyval) :
  json_exact v ->
  forall room t, Json.encode room v = Ret t -> ascii_text t.
Proof.
  induction v as [| b | z | f | s | b | l IH | l IH | d IH] using pyval_ind';
    intros Hn; inversion Hn; subst; intros room t Ht.
  - injection Ht as <-. repeat constructor; lia.
  - destruct b; injection Ht as <-; repeat constructor; lia.
  - apply int_str_ret in Ht. destruct Ht as [-> _]. apply int_repr_ascii.
  - injection Ht as <-. apply basestring_ascii.
  - destruct room as [|room]; [discriminate|].
    rewrite encode_list in Ht.
    destruct (mapM (Json.encode room) l) as [items|] eqn:Hitems;
      [|discriminate].
    simpl in Ht. injection Ht as <-.
    constructor; [lia|]. apply Forall_app. split; [|repeat constructor; lia].
    apply join_ascii. rewrite Forall_forall in IH, H0.
    clear -IH H0 Hitems. revert items Hitems.
    induction l as [|x l IHl]; intros items Hitems.
    + injection Hitems as <-. constructor.
    + destruct (mapM_cons_inv _ _ _ _ Hitems) as [tx [items' [Hex [Hel ->]]]].
      constructor.
      * apply (IH x (or_introl eq_refl) (H0 x (or_introl eq_refl)) room tx).
        exact Hex.
      * apply IHl; [| |exact Hel]; intros y Hy; [apply IH|apply H0];
          right; exact Hy.
  - destruct room as [|room]; [discriminate|].
    rewrite encode_dict in Ht.
    destruct (encode_members room d) as [members|] eqn:Hm; [|discriminate].
    simpl in Ht. injection Ht as <-.
    constructor; [lia|]. apply Forall_app. split; [|repeat constructor; lia].
    apply join_ascii. rewrite Forall_forall in IH, H1.
    clear -IH H1 Hm. revert members Hm.
    induction d as [|[k x] d IHd]; intros members Hm.
    + injection Hm as <-. constructor.
    + destruct (encode_members_cons_inv _ _ _ _ _ Hm)
        as [kt [tx [ms [_ [Hex [Hed ->]]]]]].
      constructor.
      * unfold Json.member_text. apply Forall_app.
        split; [apply basestring_ascii|].
        constructor; [lia|]. constructor; [lia|].
        apply (proj2 (IH (k, x) (or_introl eq_refl))
                 (proj2 (H1 (k, x) (or_introl eq_refl))) room tx).
        exact Hex.
      * apply IHd; [| |exact Hed]; intros y Hy; [apply IH|apply H1];
          right; exact Hy.
Qed.

(* ------------------------------------------------------------------ *)
(** ** Stored values that survive the file *)

Lemma valid_text_forallb (s : list N) :
  valid_text s -> forallb is_scalar_value s = true.
Proof.
  intros H. apply forallb_forall. unfold valid_text in H.
  rewrite Forall_forall in H. exact H.
Qed.

Lemma survives_int (z : Z) :
  (- 2 ^ 63 <= z < 2 ^ 63)%Z -> survives TInt (PInt z).
Proof.
  intros Hz. split; [reflexivity|]. split.
  - exists (Sqlite.Integer z).
    assert (Hb : ((- 2 ^ 63 <=? z) && (z <? 2 ^ 63))%Z = true)
      by (apply andb_true_intro; split;
          [apply Z.leb_le|apply Z.ltb_lt]; lia).
    unfold Sqlite.bind_value. rewrite Hb. split; reflexivity.
  - exists (PInt z). repeat split.
Qed.

(** A REAL column gives a float back as it is, but for negative
    zero. *)
Lemma real_column_keeps (f : float) :
  Prim2SF f <> S754_zero true ->
  Sqlite.stored_as (py "REAL") (Sqlite.Real f) = Sqlite.Real f.
Proof.
  intros Hz.
  change (Sqlite.stored_as (py "REAL") (Sqlite.Real f))
    with (match Prim2SF f with
          | S754_zero _ => Sqlite.Real zero
          | _ => Sqlite.Real f
          end).
  destruct (Prim2SF f) as [[|]| | |] eqn:Hf; try reflexivity.
  - contradiction.
  - rewrite <- (SF2Prim_Prim2SF f), Hf. reflexivity.
Qed.

Lemma survives_float (f : float) :
  Prim2SF f <> S754_nan -> Prim2SF f <> S754_zero true ->
  survives TFloat (PFloat f).
Proof.
  intros Hf Hz. split; [reflexivity|]. split.
  - exists (Sqlite.Real f). split.
    + simpl. destruct (Prim2SF f); try contradiction; reflexivity.
    + change (Database.column_kind TFloat) with (py "REAL").
      rewrite (real_column_keeps f Hz). reflexivity.
  - exists (PFloat f). repeat split.
Qed.

Lemma survives_text (s : list N) :
  valid_text s -> Json.loads (PStr s) = Raise JSONDecodeError ->
  survives TStr (PStr s).
Proof.
  intros Hv Hp. split; [reflexivity|]. split.
  - exists (Sqlite.Text s). split; [|reflexivity].
    unfold Sqlite.bind_value. rewrite (valid_text_forallb s Hv).
    reflexivity.
  - exists (PStr s). split; [|split; reflexivity].
    unfold deserialize. rewrite Hp. reflexivity.
Qed.

Lemma survives_json (data_type : pytype) (e : pyval) :
  data_type = TList \/ data_type = TDict ->
  exact_stored e -> survives data_type e.
Proof.
  intros Hty [x [Hn [Hc Hs]]].
  destruct (serialize_composite x e Hc Hs) as [t [-> Hd]].
  assert (Hv : valid_text t).
  { unfold Json.dumps in Hd.
    destruct (Json.encode Json.recursion_limit x) as [t0|] eqn:Ht;
      [|discriminate].
    simpl in Hd. injection Hd as ->.
    exact (ascii_valid t (exact_ascii x Hn _ t Ht)). }
  split; [reflexivity|]. split.
  - exists (Sqlite.Text t). split.
    + unfold Sqlite.bind_value. rewrite (valid_text_forallb t Hv).
      reflexivity.
    + destruct Hty as [-> | ->]; reflexivity.
  - exists x. pose proof (loads_dumps x t (exact_native x Hn) Hd) as Hl.
    split; [unfold deserialize; rewrite Hl; reflexivity|].
    split; [|exact Hs].
    destruct Hty as [-> | ->]; destruct x; try contradiction; reflexivity.
Qed.

(** X17: the stored values that come back from the file as they
    were: under an [int] field an integer of 64 signed bits, under a
    [float] field a float that is neither NaN nor negative zero,
    under a [str] field Unicode text that is not valid JSON, and
    under a [list] or [dict] field the text [serialize] gives a list
    or a dictionary that comes back exactly from its JSON text. *)
Theorem stored_value_survives (data_type : pytype) (stored : pyval) :
  match data_type, stored with
  | TInt, PInt z => (- 2 ^ 63 <= z < 2 ^ 63)%Z
  | TFloat, PFloat f =>
      Prim2SF f <> S754_nan /\ Prim2SF f <> S754_zero true
  | TStr, PStr s =>
      valid_text s /\ Json.loads (PStr s) = Raise JSONDecodeError
  | (TList | TDict), PStr t => exact_stored (PStr t)
  | _, _ => False
  end ->
  survives data_type stored.
Proof.
  destruct data_type, stored; try contradiction.
  - apply survives_int.
  - intros [Hf Hz]. apply survives_float; assumption.
  - intros [Hv Hp]. apply survives_text; assumption.
  - intros Hc. apply survives_json; auto.
  - intros Hc. apply survives_json; auto.
Qed.

Lemma stored_value_survives_witness :
  survives TInt (PInt 7) /\ survives TStr (PStr (py "abc"))
  /\ survives TList (PStr (py "[1, 2]")).
Proof.
  split; [|split].
  - apply (stored_value_survives TInt (PInt 7)).
    change (- 2 ^ 63 <= 7 < 2 ^ 63)%Z. lia.
  - apply (stored_value_survives TStr (PStr (py "abc"))). split.
    + repeat constructor.
    + reflexivity.
  - apply (stored_value_survives TList (PStr (py "[1, 2]"))).
    exists (PList [PInt 1; PInt 2]). split; [|split; [exact I|reflexivity]].
    apply exact_list.
    repeat (apply Forall_cons;
            [apply exact_int; apply Nat.leb_le; reflexivity|]).
    apply Forall_nil.
Defined.

(** Negative zero does not survive: the REAL column gives back
    [0.0]. *)
Example negative_zero_comes_back_positive :
  Sqlite.fetch_value
    (Sqlite.stored_as (Database.column_kind TFloat) (Sqlite.Real (-0)%float))
  = PFloat 0%float.
Proof. reflexivity. Qed.




(* ------------------------------------------------------------------ *)
(** ** [save] and a table without fields *)

Lemma save_tables_fieldless (tables : PyDict.t Table.t) (n : list N)
  (table : Table.t) :
  In (n, table) tables -> Table._fields table = [] ->
  forall file, exists e, Database.save_tables tables file = Raise e.
Proof.
  intros Hin Hnil.
  induction tables as [|[m tm] tables IH]; intros file; [contradiction|].
  simpl.
  destruct (Sqlite.create_table m (Database.field_definitions tm)
              (Sqlite.drop_table_if_exists m file)) as [file1|e] eqn:Hc.
  - destruct Hin as [[= -> ->]|Hin].
    + unfold Sqlite.create_table, Database.field_definitions in Hc.
      rewrite Hnil in Hc. simpl in Hc.
      destruct (Sqlite.find_table _ n); discriminate.
    + simpl.
      destruct (Database.save_rows m (Table._rows tm) file1) as [file2|e];
        simpl; [exact (IH Hin file2)|exists e; reflexivity].
  - exists e. reflexivity.
Qed.

(** X18: [create] takes an empty field dictionary, but [save] cannot
    write the table it makes: a database that has a table with no
    fields is never saved, whatever the file holds; [save] raises. *)
Theorem save_raises_on_fieldless_table (self : Database.t)
  (file : Sqlite.db) (n : list N) (table : Table.t) :
  In (n, table) (Database._tables self) ->
  Table._fields table = [] ->
  exists e, Database.save self file = Raise e.
Proof.
  intros Hin Hnil.
  destruct (save_tables_fieldless _ n table Hin Hnil
              (Sqlite.connect (Database.db_file self) file)) as [e He].
  exists e. unfold Database.save. rewrite He. reflexivity.
Qed.

Lemma save_raises_on_fieldless_table_witness :
  exists e,
    Database.save
      (fst (Database.create (py "t") [] (Database.init (py "t.db")))) []
    = Raise e.
Proof.
  apply (save_raises_on_fieldless_table
           (fst (Database.create (py "t") [] (Database.init (py "t.db"))))
           [] (py "t") (Table.init (py "t"))).
  - left. reflexivity.
  - reflexivity.
Defined.
